(** * Client data-access layer of the chat application

    A shallow embedding of [src/lib/api.ts] (request queue, retry helper,
    API facade) and of the chat store ([src/store/chatStore]), with the
    properties of the specification stated over it.

    Conventions.
    - An [async] function is a computation in the monad [M]: it threads the
      [World] (clock, backend tables, cache, trace of external calls) and
      ends either with a value or with a thrown value.
    - The store actions are cut at their [await] points: the code between
      two awaits runs atomically on the single-threaded event loop, so each
      piece is a pure function on [ChatState].
    - [performanceMonitor] timers only record durations and are left out. *)

From Stdlib Require Import ZArith NArith QArith Qround Lqa List String Lia Bool.
From Stdlib Require Floats.PrimFloat.
From stdpp Require Import base option list strings gmap pretty sorting.
Import ListNotations.

Local Open Scope string_scope.
Local Open Scope nat_scope.
Local Open Scope list_scope.

(** ** Data model ([src/types/index.ts]) *)

Inductive Role := user | assistant.

(** [created_at] is an ISO-8601 string in the source, ordered by the
    database as a timestamp; it is kept here as the number of milliseconds
    since the epoch.  The optional [metadata] is never read by the modelled
    code. *)
Record Message := mkMessage {
  m_id : string;
  m_conversation_id : string;
  m_content : string;
  m_role : Role;
  m_created_at : N
}.

Record Conversation := mkConversation {
  c_id : string;
  c_user_id : string;
  c_title : string;
  c_created_at : N;
  c_updated_at : N
}.

Record ApiResponse (T : Type) := mkApiResponse {
  data : T;
  error : option string;
  success : bool
}.
Arguments mkApiResponse {T} _ _ _.
Arguments data {T} _.
Arguments error {T} _.
Arguments success {T} _.

Global Instance Role_eq_dec : EqDecision Role.
Proof. solve_decision. Defined.

Global Instance Message_eq_dec : EqDecision Message.
Proof. solve_decision. Defined.

Global Instance Conversation_eq_dec : EqDecision Conversation.
Proof. solve_decision. Defined.

(** ** Thrown values

    JavaScript can throw anything; the facade only asks whether the value
    is an [Error] ([error instanceof Error ? error.message : fallback]). *)
Inductive thrown :=
  | ErrorObj (message : string)
  | NonError (payload : string).

Definition error_message (e : thrown) (fallback : string) : string :=
  match e with
  | ErrorObj msg => msg
  | NonError _ => fallback
  end.

(** ** TTL cache *)

Inductive CacheValue :=
  | VConversations (l : list Conversation)
  | VMessages (l : list Message).

Record CacheEntry := mkCacheEntry {
  ce_value : CacheValue;
  ce_expiry : N
}.

(** The two key builders of [cacheKeys] (declared in [lib/cache.ts], which
    is not among the sources); they are taken as parameters. *)
Record CacheKeys := mkCacheKeys {
  ck_conversations : string -> string;
  ck_messages : string -> string
}.

(** Modelled from the spec: [cache.set] of [lib/cache.ts], which is not
    among the sources (section 4.1: "set(key, value, ttl) stores a value
    with an absolute expiry = now + ttl"). *)
Definition cache_set_at (now : N) (key : string) (v : CacheValue) (ttl : N)
    (c : gmap string CacheEntry) : gmap string CacheEntry :=
  <[ key := mkCacheEntry v (now + ttl)%N ]> c.

(** Modelled from the spec: [cache.get] of [lib/cache.ts] (section 4.1:
    "get(key) returns the value if present and not expired, else signals a
    miss"; section 3: "a read after expiry is treated as a miss"). *)
Definition cache_get_at (now : N) (key : string)
    (c : gmap string CacheEntry) : option CacheValue :=
  match c !! key with
  | Some e => if (now <=? ce_expiry e)%N then Some (ce_value e) else None
  | None => None
  end.

(** Modelled from the spec: [cache.delete] of [lib/cache.ts] (section 4.1:
    "delete(key) removes an entry unconditionally"). *)
Definition cache_delete_at (key : string)
    (c : gmap string CacheEntry) : gmap string CacheEntry :=
  delete key c.

(** ** The world an asynchronous call runs in

    The clock moves when the completion endpoint is awaited, when the
    retry helper sleeps, and between calls ([tick]); a request to the data
    service is answered at once. *)

(** Calls that leave the client, in the order they are issued. *)
Inductive Event :=
  | EvAuthGetUser
  | EvQueueAdd
  | EvSelectConversations (user_id : string)
  | EvInsertConversation (user_id title : string)
  | EvSelectMessages (conversation_id : string) (offset limit : nat)
  | EvInsertMessage (conversation_id content : string) (role : Role)
  | EvUpdateConversation (conversation_id : string)
  | EvFetchCompletion (conversation_id content : string)
  | EvSleep (delay : Q).

(** What the data service does with the next request: it serves it,
    answers [{data: null, error}], or the request promise rejects. *)
Inductive DbOutcome :=
  | Served
  | ReplyError (e : thrown)
  | Rejected (e : thrown).

(** What the completion endpoint does with the next request. *)
Inductive HttpBody :=
  | BadJson (e : thrown)
  | JsonReply (response : string).

Inductive FetchResult :=
  | NetworkFailure (e : thrown)
  | HttpResponse (status : N) (body : HttpBody).

Record Completion := mkCompletion {
  cp_elapsed : N;
  cp_result : FetchResult
}.

Record World := mkWorld {
  w_now : N;                               (* Date.now() *)
  w_session : option string;               (* id of the signed-in user *)
  w_conversations : list Conversation;     (* table conversations *)
  w_messages : list Message;               (* table messages *)
  w_next_id : N;                           (* server-side id generator *)
  w_cache : gmap string CacheEntry;        (* the cache singleton *)
  w_db_script : list DbOutcome;            (* fate of the next data calls *)
  w_ai_script : list Completion;           (* fate of the next completions *)
  w_random : list Q;                       (* next values of Math.random() *)
  w_deferred : list (string * N);          (* un-awaited timestamp updates *)
  w_log : list Event
}.

Definition set_now (t : N) (w : World) : World :=
  mkWorld t (w_session w) (w_conversations w) (w_messages w) (w_next_id w)
    (w_cache w) (w_db_script w) (w_ai_script w) (w_random w) (w_deferred w)
    (w_log w).

Definition set_session (u : option string) (w : World) : World :=
  mkWorld (w_now w) u (w_conversations w) (w_messages w) (w_next_id w)
    (w_cache w) (w_db_script w) (w_ai_script w) (w_random w) (w_deferred w)
    (w_log w).

Definition set_conversations (cs : list Conversation) (w : World) : World :=
  mkWorld (w_now w) (w_session w) cs (w_messages w) (w_next_id w)
    (w_cache w) (w_db_script w) (w_ai_script w) (w_random w) (w_deferred w)
    (w_log w).

Definition set_messages (ms : list Message) (w : World) : World :=
  mkWorld (w_now w) (w_session w) (w_conversations w) ms (w_next_id w)
    (w_cache w) (w_db_script w) (w_ai_script w) (w_random w) (w_deferred w)
    (w_log w).

Definition set_next_id (n : N) (w : World) : World :=
  mkWorld (w_now w) (w_session w) (w_conversations w) (w_messages w) n
    (w_cache w) (w_db_script w) (w_ai_script w) (w_random w) (w_deferred w)
    (w_log w).

Definition set_cache (c : gmap string CacheEntry) (w : World) : World :=
  mkWorld (w_now w) (w_session w) (w_conversations w) (w_messages w)
    (w_next_id w) c (w_db_script w) (w_ai_script w) (w_random w)
    (w_deferred w) (w_log w).

Definition set_db_script (l : list DbOutcome) (w : World) : World :=
  mkWorld (w_now w) (w_session w) (w_conversations w) (w_messages w)
    (w_next_id w) (w_cache w) l (w_ai_script w) (w_random w) (w_deferred w)
    (w_log w).

Definition set_ai_script (l : list Completion) (w : World) : World :=
  mkWorld (w_now w) (w_session w) (w_conversations w) (w_messages w)
    (w_next_id w) (w_cache w) (w_db_script w) l (w_random w) (w_deferred w)
    (w_log w).

Definition set_random (l : list Q) (w : World) : World :=
  mkWorld (w_now w) (w_session w) (w_conversations w) (w_messages w)
    (w_next_id w) (w_cache w) (w_db_script w) (w_ai_script w) l
    (w_deferred w) (w_log w).

Definition set_deferred (l : list (string * N)) (w : World) : World :=
  mkWorld (w_now w) (w_session w) (w_conversations w) (w_messages w)
    (w_next_id w) (w_cache w) (w_db_script w) (w_ai_script w) (w_random w)
    l (w_log w).

Definition set_log (l : list Event) (w : World) : World :=
  mkWorld (w_now w) (w_session w) (w_conversations w) (w_messages w)
    (w_next_id w) (w_cache w) (w_db_script w) (w_ai_script w) (w_random w)
    (w_deferred w) l.

(** ** The monad of asynchronous computations *)

Inductive outcome (A : Type) :=
  | Ok (a : A)
  | Throw (e : thrown).
Arguments Ok {A} _.
Arguments Throw {A} _.

Definition M (A : Type) : Type := World -> outcome A * World.

Global Instance M_ret : MRet M := fun A a w => (Ok a, w).

Global Instance M_bind : MBind M := fun A B f m w =>
  match m w with
  | (Ok a, w') => f a w'
  | (Throw e, w') => (Throw e, w')
  end.

Definition throw {A : Type} (e : thrown) : M A := fun w => (Throw e, w).

(** [try { body } catch (e) { handler e }] *)
Definition try_catch {A : Type} (body : M A) (handler : thrown -> M A) : M A :=
  fun w =>
    match body w with
    | (Ok a, w') => (Ok a, w')
    | (Throw e, w') => handler e w'
    end.

Definition log_event (ev : Event) : M unit :=
  fun w => (Ok tt, set_log (w_log w ++ [ev]) w).

Definition advance (dt : N) : M unit :=
  fun w => (Ok tt, set_now (w_now w + dt)%N w).

(** Time passing between two calls of the client. *)
Definition tick (dt : N) (w : World) : World := set_now (w_now w + dt)%N w.

Definition cache_get (key : string) : M (option CacheValue) :=
  fun w => (Ok (cache_get_at (w_now w) key (w_cache w)), w).

Definition cache_set (key : string) (v : CacheValue) (ttl : N) : M unit :=
  fun w => (Ok tt, set_cache (cache_set_at (w_now w) key v ttl (w_cache w)) w).

Definition cache_delete (key : string) : M unit :=
  fun w => (Ok tt, set_cache (cache_delete_at key (w_cache w)) w).

(** ** The backend data service (external collaborator)

    An in-memory stand-in for the hosted database: two tables, server-side
    ids and timestamps, and a script that decides which requests fail. *)

Record DbReply (A : Type) := mkDbReply {
  r_data : option A;
  r_error : option thrown
}.
Arguments mkDbReply {A} _ _.
Arguments r_data {A} _.
Arguments r_error {A} _.

Definition next_db_outcome : M DbOutcome :=
  fun w =>
    match w_db_script w with
    | [] => (Ok Served, w)
    | o :: rest => (Ok o, set_db_script rest w)
    end.

(** A request to the data service: logged, then served by [serve], refused
    with an error reply, or rejected, as the script says. *)
Definition db_request {A : Type} (ev : Event) (serve : M A) : M (DbReply A) :=
  log_event ev;;
  o ← next_db_outcome;
  match o with
  | Served => a ← serve; mret (mkDbReply (Some a) None)
  | ReplyError e => mret (mkDbReply None (Some e))
  | Rejected e => throw e
  end.

Definition current_session : M (option string) :=
  fun w => (Ok (w_session w), w).

(** [supabase.auth.getUser()]: the user of the current session, or null. *)
Definition auth_getUser : M (option string) :=
  log_event EvAuthGetUser;;
  o ← next_db_outcome;
  match o with
  | Served => current_session
  | ReplyError _ => mret None
  | Rejected e => throw e
  end.

Definition created_at_le (a b : Message) : Prop :=
  (m_created_at a <= m_created_at b)%N.

Global Instance created_at_le_dec : RelDecision created_at_le.
Proof. intros a b. unfold created_at_le. apply _. Defined.

Definition updated_at_ge (a b : Conversation) : Prop :=
  (c_updated_at b <= c_updated_at a)%N.

Global Instance updated_at_ge_dec : RelDecision updated_at_ge.
Proof. intros a b. unfold updated_at_ge. apply _. Defined.

(** [from('messages').select('*').eq('conversation_id', cid)
      .order('created_at', {ascending: true}).range(offset, offset+limit-1)] *)
Definition query_messages (cid : string) (offset limit : nat)
    (table : list Message) : list Message :=
  take limit (drop offset
    (merge_sort created_at_le
       (filter (fun m => m_conversation_id m = cid) table))).

(** [from('conversations').select('*').eq('user_id', uid)
      .order('updated_at', {ascending: false}).limit(30)] *)
Definition query_conversations (uid : string)
    (table : list Conversation) : list Conversation :=
  take 30 (merge_sort updated_at_ge
             (filter (fun c => c_user_id c = uid) table)).

Definition db_select_messages (cid : string) (offset limit : nat)
    : M (DbReply (list Message)) :=
  db_request (EvSelectMessages cid offset limit)
    (fun w => (Ok (query_messages cid offset limit (w_messages w)), w)).

Definition db_select_conversations (uid : string)
    : M (DbReply (list Conversation)) :=
  db_request (EvSelectConversations uid)
    (fun w => (Ok (query_conversations uid (w_conversations w)), w)).

(** [insert([...]).select().single()]: the row gets a server-issued id and
    the server's timestamp, and is returned. *)
Definition db_insert_message (cid content : string) (role : Role)
    : M (DbReply Message) :=
  db_request (EvInsertMessage cid content role)
    (fun w =>
       let row := mkMessage ("msg-" +:+ pretty (w_next_id w)) cid content role
                    (w_now w) in
       (Ok row,
        set_next_id (w_next_id w + 1)%N (set_messages (w_messages w ++ [row]) w))).

Definition db_insert_conversation (uid title : string)
    : M (DbReply Conversation) :=
  db_request (EvInsertConversation uid title)
    (fun w =>
       let row := mkConversation ("conv-" +:+ pretty (w_next_id w)) uid title
                    (w_now w) (w_now w) in
       (Ok row,
        set_next_id (w_next_id w + 1)%N
          (set_conversations (w_conversations w ++ [row]) w))).

Definition touch_conversation (cid : string) (t : N) (c : Conversation)
    : Conversation :=
  if decide (c_id c = cid)
  then mkConversation (c_id c) (c_user_id c) (c_title c) (c_created_at c) t
  else c.

(** [from('conversations').update({updated_at: new Date().toISOString()})
      .eq('id', cid).then(callback)], not awaited: the request is issued
    with the timestamp of that moment and stays pending. *)
Definition issue_update (cid : string) : M unit :=
  log_event (EvUpdateConversation cid);;
  (fun w => (Ok tt, set_deferred (w_deferred w ++ [(cid, w_now w)]) w)) : M unit.

(** ** The remote completion endpoint (external collaborator) *)

(** The value a [fetch] rejects with once its signal is aborted. *)
Definition abortError : thrown := ErrorObj "The operation was aborted.".

Definition request_timeout : N := 30000.

Definition http_ok (status : N) : bool :=
  (200 <=? status)%N && (status <=? 299)%N.

(** [fetch(url, {..., signal})] under [setTimeout(() => controller.abort(),
    30000)]: a reply that takes the timeout or longer never arrives, the
    abort rejects the call instead.  With an empty script the endpoint does
    not answer at all. *)
Definition await_completion : M (N * HttpBody) :=
  fun w =>
    match w_ai_script w with
    | [] => (Throw abortError, set_now (w_now w + request_timeout)%N w)
    | c :: rest =>
        let w1 := set_ai_script rest w in
        if (request_timeout <=? cp_elapsed c)%N
        then (Throw abortError, set_now (w_now w1 + request_timeout)%N w1)
        else
          let w2 := set_now (w_now w1 + cp_elapsed c)%N w1 in
          match cp_result c with
          | NetworkFailure e => (Throw e, w2)
          | HttpResponse status body => (Ok (status, body), w2)
          end
    end.

Definition fetch_completion (cid content : string) : M (N * HttpBody) :=
  log_event (EvFetchCompletion cid content);;
  await_completion.

(** [await aiResponse.json()] *)
Definition response_json (body : HttpBody) : M string :=
  match body with
  | BadJson e => throw e
  | JsonReply response => mret response
  end.

(** ** Request queue and retry helper, as the facade sees them *)

(** [requestQueue.add(task)] seen from one caller: the task is handed to
    the queue and the returned promise settles with the task's outcome.
    The scheduling discipline of the queue itself is the subject of
    [Module RequestQueue] below. *)
Definition requestQueue_add {A : Type} (task : M A) : M A :=
  log_event EvQueueAdd;;
  task.

(** [Math.random()], a number in [0, 1).  Numbers are taken as rationals:
    the rounding of floating-point arithmetic is not modelled, so a value
    computed here may differ from the code's in the last place. *)
Definition math_random : M Q :=
  fun w =>
    match w_random w with
    | [] => (Ok 0%Q, w)
    | r :: rest => (Ok r, set_random rest w)
    end.

(** [await new Promise(resolve => setTimeout(resolve, delay))] *)
Definition sleep (delay : Q) : M unit :=
  log_event (EvSleep delay);;
  advance (Z.to_N (Qfloor delay)).

(** [baseDelay * Math.pow(1.5, attempt) + Math.random() * 200], without
    rounding: the code's sum can round up to the next number, so of its
    jitter only [<= 200] holds, not [< 200]. *)
Definition retry_delay (baseDelay : Q) (attempt : nat) (r : Q) : Q :=
  (baseDelay * Qpower (3 # 2) (Z.of_nat attempt) + r * 200)%Q.

(** The pause between two attempts. *)
Definition backoff (baseDelay : Q) (attempt : nat) : M unit :=
  r ← math_random;
  sleep (retry_delay baseDelay attempt r).

(** The loop of [withRetry], entered at [attempt] with [remaining] retries
    left ([remaining = maxRetries - attempt]). *)
Fixpoint retry_loop {A : Type} (operation : M A) (baseDelay : Q)
    (remaining attempt : nat) : M A :=
  fun w =>
    match operation w with
    | (Ok a, w') => (Ok a, w')
    | (Throw e, w') =>
        match remaining with
        | O => (Throw e, w')
        | S remaining' =>
            (backoff baseDelay attempt;;
             retry_loop operation baseDelay remaining' (S attempt)) w'
        end
    end.

(** The defaults of the source are [maxRetries = 2] and [baseDelay = 500]. *)
Definition withRetry {A : Type} (operation : M A) (maxRetries : nat)
    (baseDelay : Q) : M A :=
  retry_loop operation baseDelay maxRetries 0.

(** ** The API facade ([api] in [src/lib/api.ts]) *)

Module api.
Section Facade.

Context (keys : CacheKeys).

Definition not_authenticated : thrown := ErrorObj "User not authenticated".

Definition createConversation_task (title : string)
    : M (option Conversation) :=
  u ← auth_getUser;
  match u with
  | None => throw not_authenticated
  | Some uid =>
      reply ← db_insert_conversation uid title;
      match r_error reply with
      | Some e => throw e
      | None =>
          cache_delete (ck_conversations keys uid);;
          mret (r_data reply)
      end
  end.

Definition createConversation (title : string)
    : M (ApiResponse (option Conversation)) :=
  try_catch
    (result ← requestQueue_add (createConversation_task title);
     mret (mkApiResponse result None true))
    (fun e =>
       mret (mkApiResponse None
               (Some (error_message e "Failed to create conversation")) false)).

Definition getConversations_task (uid : string) : M (list Conversation) :=
  reply ← db_select_conversations uid;
  match r_error reply with
  | Some e => throw e
  | None => mret (default [] (r_data reply))
  end.

(** [cache.get<T>] is an unchecked cast in the source; the payload is typed
    here, and a payload of the other kind counts as absent. *)
Definition getConversations : M (ApiResponse (list Conversation)) :=
  try_catch
    (u ← auth_getUser;
     match u with
     | None => throw not_authenticated
     | Some uid =>
         let cacheKey := ck_conversations keys uid in
         cached ← cache_get cacheKey;
         match cached with
         | Some (VConversations l) => mret (mkApiResponse l None true)
         | _ =>
             result ← requestQueue_add (getConversations_task uid);
             cache_set cacheKey (VConversations result) (3 * 60 * 1000);;
             mret (mkApiResponse result None true)
         end
     end)
    (fun e =>
       mret (mkApiResponse []
               (Some (error_message e "Failed to fetch conversations")) false)).

Definition page_key (conversationId : string) (limit offset : nat) : string :=
  ck_messages keys conversationId +:+ ":" +:+ pretty limit
    +:+ ":" +:+ pretty offset.

Definition getMessages_task (conversationId : string) (limit offset : nat)
    : M (list Message) :=
  reply ← db_select_messages conversationId offset limit;
  match r_error reply with
  | Some e => throw e
  | None => mret (default [] (r_data reply))
  end.

Definition getMessages (conversationId : string) (limit offset : nat)
    : M (ApiResponse (list Message)) :=
  try_catch
    (let cacheKey := page_key conversationId limit offset in
     cached ← cache_get cacheKey;
     match cached with
     | Some (VMessages l) => mret (mkApiResponse l None true)
     | _ =>
         result ← requestQueue_add
                    (getMessages_task conversationId limit offset);
         cache_set cacheKey (VMessages result) (60 * 1000);;
         mret (mkApiResponse result None true)
     end)
    (fun e =>
       mret (mkApiResponse []
               (Some (error_message e "Failed to fetch messages")) false)).

(** The inner [try { ... } catch (error) { clearTimeout(timeoutId); throw
    error; }] of [sendMessage]: the handler only clears the timer and
    rethrows. *)
Definition sendMessage_completion (conversationId content : string)
    : M (option Message) :=
  try_catch
    ('(status, body) ← fetch_completion conversationId content;
     if negb (http_ok status)
     then throw (ErrorObj ("AI service error: " +:+ pretty status))
     else
       response ← response_json body;
       aiReply ← db_insert_message conversationId response assistant;
       match r_error aiReply with
       | Some e => throw e
       | None =>
           issue_update conversationId;;
           mret (r_data aiReply)
       end)
    (fun e => throw e).

Definition sendMessage_task (conversationId content : string)
    : M (option Message) :=
  userReply ← db_insert_message conversationId content user;
  match r_error userReply with
  | Some e => throw e
  | None => sendMessage_completion conversationId content
  end.

Definition sendMessage (conversationId content : string)
    : M (ApiResponse (option Message)) :=
  try_catch
    (result ← requestQueue_add (sendMessage_task conversationId content);
     mret (mkApiResponse result None true))
    (fun e =>
       mret (mkApiResponse None
               (Some (error_message e "Failed to send message")) false)).

(** The pending timestamp update of [sendMessage] completes: the row is
    touched if the service serves the request, and the [then] callback
    deletes the cache entry under the base key [cacheKeys.messages(cid)]
    unless the request promise rejected. *)
Definition settle_update (w : World) : World :=
  match w_deferred w with
  | [] => w
  | (cid, t) :: rest =>
      let w1 := set_deferred rest w in
      match next_db_outcome w1 with
      | (Ok Served, w2) =>
          set_cache (cache_delete_at (ck_messages keys cid) (w_cache w2))
            (set_conversations
               (map (touch_conversation cid t) (w_conversations w2)) w2)
      | (Ok (ReplyError _), w2) =>
          set_cache (cache_delete_at (ck_messages keys cid) (w_cache w2)) w2
      | (_, w2) => w2
      end
  end.

End Facade.
End api.

(** ** The chat store ([useChatStore])

    Each action is cut at its [await]: the [_begin] piece runs when the
    action is called, the [_resume] piece when the awaited facade call
    settles, with the values the closure captured in between. *)

Record ChatState := mkChatState {
  s_conversations : list Conversation;
  s_currentConversation : option Conversation;
  s_messages : list Message;
  s_isLoading : bool;
  s_isTyping : bool;
  s_error : option string;
  s_hasMoreMessages : bool;
  s_messageOffset : nat;
  s_optimisticMessages : list Message
}.

Definition initialState : ChatState :=
  mkChatState [] None [] false false None false 0 [].

Definition set_isLoading (b : bool) (s : ChatState) : ChatState :=
  mkChatState (s_conversations s) (s_currentConversation s) (s_messages s) b
    (s_isTyping s) (s_error s) (s_hasMoreMessages s) (s_messageOffset s)
    (s_optimisticMessages s).

Definition set_isTyping (b : bool) (s : ChatState) : ChatState :=
  mkChatState (s_conversations s) (s_currentConversation s) (s_messages s)
    (s_isLoading s) b (s_error s) (s_hasMoreMessages s) (s_messageOffset s)
    (s_optimisticMessages s).

Definition set_error (e : option string) (s : ChatState) : ChatState :=
  mkChatState (s_conversations s) (s_currentConversation s) (s_messages s)
    (s_isLoading s) (s_isTyping s) e (s_hasMoreMessages s) (s_messageOffset s)
    (s_optimisticMessages s).

(** [set({messages, messageOffset, hasMoreMessages})] *)
Definition set_page (ms : list Message) (offset : nat) (more : bool)
    (s : ChatState) : ChatState :=
  mkChatState (s_conversations s) (s_currentConversation s) ms
    (s_isLoading s) (s_isTyping s) (s_error s) more offset
    (s_optimisticMessages s).

(** [set({messages, optimisticMessages})] *)
Definition set_sequences (ms optimistic : list Message) (s : ChatState)
    : ChatState :=
  mkChatState (s_conversations s) (s_currentConversation s) ms
    (s_isLoading s) (s_isTyping s) (s_error s) (s_hasMoreMessages s)
    (s_messageOffset s) optimistic.

(** The [set] of [setCurrentConversation]. *)
Definition select_conversation (conversation : option Conversation)
    (s : ChatState) : ChatState :=
  mkChatState (s_conversations s) conversation [] (s_isLoading s)
    (s_isTyping s) (s_error s) false 0 [].

(** [set({ isLoading: true, error: null, messageOffset: 0 })] *)
Definition loadMessages_begin (s : ChatState) : ChatState :=
  mkChatState (s_conversations s) (s_currentConversation s) (s_messages s)
    true (s_isTyping s) None (s_hasMoreMessages s) 0
    (s_optimisticMessages s).

Definition loadMessages_resume (r : outcome (ApiResponse (list Message)))
    (s : ChatState) : ChatState :=
  set_isLoading false
    match r with
    | Ok resp =>
        if success resp
        then set_page (data resp) (length (data resp))
               (length (data resp) =? 50) s
        else set_error (error resp) s
    | Throw _ => set_error (Some "Failed to load messages") s
    end.

(** [setCurrentConversation] up to the first [await]: the selection is
    stored and, for a non-null conversation, [loadMessages] is started. *)
Definition setCurrentConversation (conversation : option Conversation)
    (s : ChatState) : ChatState :=
  let s1 := select_conversation conversation s in
  match conversation with
  | Some _ => loadMessages_begin s1
  | None => s1
  end.

(** [loadMoreMessages] reads [messageOffset] and [messages] once, before
    the call, and uses these captured values when it resumes. *)
Definition loadMoreMessages_begin (s : ChatState)
    : option (nat * list Message * ChatState) :=
  if s_isLoading s then None
  else Some (s_messageOffset s, s_messages s, set_isLoading true s).

Definition loadMoreMessages_resume (messageOffset : nat)
    (messages : list Message) (r : outcome (ApiResponse (list Message)))
    (s : ChatState) : ChatState :=
  set_isLoading false
    match r with
    | Ok resp =>
        if success resp
        then set_page (data resp ++ messages)
               (messageOffset + length (data resp))
               (length (data resp) =? 50) s
        else set_error (error resp) s
    | Throw _ => set_error (Some "Failed to load more messages") s
    end.

(** The optimistic message: id [`temp-user-${Date.now()}`]. *)
Definition tempUserMessage (now : N) (conversationId content : string)
    : Message :=
  mkMessage ("temp-user-" +:+ pretty now) conversationId content user now.

Definition sendMessage_begin (temp : Message) (s : ChatState) : ChatState :=
  let s1 := set_error None (set_isTyping true s) in
  set_sequences (s_messages s1 ++ [temp]) (s_optimisticMessages s1 ++ [temp])
    s1.

(** [list.filter(msg => msg.id !== tempUserMessage.id)] *)
Definition without_id (tempId : string) (l : list Message) : list Message :=
  filter (fun msg => m_id msg <> tempId) l.

(** The payload of a send as the store inspects it: null, one message, or
    an array holding the persisted user message and the reply. *)
Inductive SendData :=
  | DNull
  | DSingle (aiMessage : Message)
  | DPair (userMessage aiMessage : Message).

Definition rollback (temp : Message) (s : ChatState) : ChatState :=
  set_sequences (without_id (m_id temp) (s_messages s))
    (without_id (m_id temp) (s_optimisticMessages s)) s.

Definition sendMessage_resume (temp : Message)
    (r : outcome (ApiResponse SendData)) (s : ChatState) : ChatState :=
  set_isTyping false
    match r with
    | Ok resp =>
        match success resp, data resp with
        | true, DPair userMessage aiMessage =>
            set_sequences
              (without_id (m_id temp) (s_messages s)
                 ++ [userMessage; aiMessage])
              (without_id (m_id temp) (s_optimisticMessages s)) s
        | true, DSingle aiMessage =>
            set_sequences (s_messages s ++ [aiMessage])
              (without_id (m_id temp) (s_optimisticMessages s)) s
        | _, _ => rollback temp (set_error (error resp) s)
        end
    | Throw _ => rollback temp (set_error (Some "Failed to send message") s)
    end.

(** *** The actions run to completion, nothing interleaved *)

Section Store.

Context (keys : CacheKeys).

Definition loadMessages (conversationId : string) (s : ChatState) (w : World)
    : ChatState * World :=
  let s1 := loadMessages_begin s in
  let '(r, w') := api.getMessages keys conversationId 50 0 w in
  (loadMessages_resume r s1, w').

Definition loadMoreMessages (conversationId : string) (s : ChatState)
    (w : World) : ChatState * World :=
  match loadMoreMessages_begin s with
  | None => (s, w)
  | Some (messageOffset, messages, s1) =>
      let '(r, w') := api.getMessages keys conversationId 50 messageOffset w in
      (loadMoreMessages_resume messageOffset messages r s1, w')
  end.

(** The facade types its payload as one message (or null). *)
Definition send_data (d : option Message) : SendData :=
  match d with
  | None => DNull
  | Some m => DSingle m
  end.

Definition send_response (r : outcome (ApiResponse (option Message)))
    : outcome (ApiResponse SendData) :=
  match r with
  | Ok resp => Ok (mkApiResponse (send_data (data resp)) (error resp)
                     (success resp))
  | Throw e => Throw e
  end.

Definition sendMessage (conversationId content : string) (s : ChatState)
    (w : World) : ChatState * World :=
  let temp := tempUserMessage (w_now w) conversationId content in
  let s1 := sendMessage_begin temp s in
  let '(r, w') := api.sendMessage conversationId content w in
  (sendMessage_resume temp (send_response r) s1, w').

End Store.

(** ** The request queue ([class RequestQueue])

    The fields of the class are [queue], [processing], [maxConcurrent] and
    [currentRequests].  The promises the class creates live in the
    runtime; they are made explicit here: [executing] holds the requests
    that were started and whose promise is pending, [finishing] those
    whose wrapper has settled the caller's handle while the [finally]
    callback has not run yet, and [settled] records every call of
    [resolve] or [reject] on a handle, in order.  Tasks are numbered in
    the order of the [add] calls. *)
Module RequestQueue.

Definition maxConcurrent : nat := 5.

Inductive settlement :=
  | resolve (result : string)
  | reject (error : thrown).

Record state := mkState {
  queue : list nat;
  processing : bool;
  currentRequests : nat;
  executing : list nat;
  finishing : list nat;
  settled : list (nat * settlement);
  submitted : nat
}.

Definition init : state := mkState [] false 0 [] [] [] 0.

(** The [while] loop of [process]: [queue.shift()], [currentRequests++],
    and the request is started. *)
Fixpoint start_requests (q : list nat) (cur : nat) (exe : list nat)
    : list nat * nat * list nat :=
  match q with
  | [] => (q, cur, exe)
  | request :: rest =>
      if cur <? maxConcurrent
      then start_requests rest (S cur) (exe ++ [request])
      else (q, cur, exe)
  end.

(** [process] has no [await]: it runs to its end without interruption, and
    leaves [processing] false. *)
Definition process (s : state) : state :=
  if processing s || (maxConcurrent <=? currentRequests s) then s
  else
    let '(q, cur, exe) := start_requests (queue s) (currentRequests s) (executing s) in
    mkState q false cur exe (finishing s) (settled s) (submitted s).

Fixpoint remove_first (t : nat) (l : list nat) : option (list nat) :=
  match l with
  | [] => None
  | x :: rest =>
      if decide (x = t) then Some rest
      else match remove_first t rest with
           | Some k => Some (x :: k)
           | None => None
           end
  end.

(** What can happen to the queue:
    - [Add]: a caller invokes [add(task)];
    - [Settle t o]: the promise of the started task [t] settles with [o],
      and the wrapper passes [o] to the handle of [t];
    - [Finally t]: the [finally] callback of [t] runs. *)
Inductive event :=
  | Add
  | Settle (t : nat) (o : settlement)
  | Finally (t : nat).

Definition step (e : event) (s : state) : option state :=
  match e with
  | Add =>
      Some (process
              (mkState (queue s ++ [submitted s]) (processing s)
                 (currentRequests s) (executing s) (finishing s) (settled s)
                 (S (submitted s))))
  | Settle t o =>
      match remove_first t (executing s) with
      | Some exe =>
          Some (mkState (queue s) (processing s) (currentRequests s) exe
                  (finishing s ++ [t]) (settled s ++ [(t, o)]) (submitted s))
      | None => None
      end
  | Finally t =>
      match remove_first t (finishing s) with
      | Some fin =>
          Some (process
                  (mkState (queue s) (processing s)
                     (Nat.pred (currentRequests s)) (executing s) fin
                     (settled s) (submitted s)))
      | None => None
      end
  end.

Fixpoint run (evs : list event) (s : state) : option state :=
  match evs with
  | [] => Some s
  | e :: rest =>
      match step e s with
      | Some s' => run rest s'
      | None => None
      end
  end.

(** An event of the runtime, as opposed to a call of [add]. *)
Definition internal (e : event) : Prop :=
  match e with
  | Add => False
  | _ => True
  end.

Definition handle_settlements (t : nat) (s : state) : list settlement :=
  map snd (filter (fun p => fst p = t) (settled s)).

(** Steps still owed by the runtime in state [s]. *)
Definition pending_steps (s : state) : nat :=
  2 * (length (queue s) + length (executing s)) + length (finishing s).

(** A sample history: seven calls of [add], then the first task resolves
    and its [finally] callback runs. *)
Definition sample_history : list event :=
  repeat Add 7 ++ [Settle 0 (resolve "ok"); Finally 0].

Definition sample_state : state :=
  mkState [6] false 5 [1; 2; 3; 4; 5] [] [(0, resolve "ok")] 7.

(** What holds of the queue after any sequence of events. *)
Record inv (s : state) : Prop := mkInv {
  inv_processing : processing s = false;
  inv_count : currentRequests s = length (executing s) + length (finishing s);
  inv_bound : currentRequests s <= maxConcurrent;
  inv_full : queue s = [] \/ maxConcurrent <= currentRequests s;
  inv_tasks :
    queue s ++ executing s ++ map fst (settled s) ≡ₚ seq 0 (submitted s)
}.

End RequestQueue.

(** ** Vocabulary of the properties *)

(** The uniform result shape: success without an error, or failure with an
    error string. *)
Definition well_shaped {T : Type} (r : ApiResponse T) : Prop :=
  (success r = true /\ error r = None) \/
  (success r = false /\ exists msg, error r = Some msg).

(** Every value the computation can return satisfies [P]. *)
Definition returns {A : Type} (P : A -> Prop) (m : M A) : Prop :=
  forall w a w', m w = (Ok a, w') -> P a.


Definition is_sleep (ev : Event) : bool :=
  match ev with EvSleep _ => true | _ => false end.



(** A request the data service does not serve, and the value it fails
    with. *)
Definition failure_of (o : DbOutcome) : option thrown :=
  match o with
  | Served => None
  | ReplyError e => Some e
  | Rejected e => Some e
  end.




(** Both sequences of [s'] are those of [s] without the messages carrying
    the id of [temp]. *)
Definition both_filtered (temp : Message) (s s' : ChatState) : Prop :=
  s_messages s' = without_id (m_id temp) (s_messages s) /\
  s_optimisticMessages s' = without_id (m_id temp) (s_optimisticMessages s).

(** The completion call fails: no answer within the timeout, a network
    failure, a status outside 200-299, or a body that is not JSON. *)
Definition completion_fails (c : option Completion) : bool :=
  match c with
  | None => true
  | Some c =>
      (request_timeout <=? cp_elapsed c)%N ||
      match cp_result c with
      | NetworkFailure _ => true
      | HttpResponse status body =>
          negb (http_ok status) ||
          match body with BadJson _ => true | JsonReply _ => false end
      end
  end.

(** The data service serves the next request. *)
Definition next_served (w : World) : bool :=
  match w_db_script w with
  | [] | Served :: _ => true
  | _ => false
  end.

(** A send in which the user message is stored and then the completion
    call fails, or the completion succeeds and storing the reply fails. *)
Definition fails_after_user_insert (w : World) : bool :=
  next_served w &&
  (completion_fails (head (w_ai_script w)) ||
   match w_db_script w with
   | _ :: (ReplyError _ | Rejected _) :: _ => true
   | _ => false
   end).

(** The row the data service creates for the user message. *)
Definition user_row (conversationId content : string) (w : World) : Message :=
  mkMessage ("msg-" +:+ pretty (w_next_id w)) conversationId content user
    (w_now w).

(** ** Sample worlds *)

Definition sample_keys : CacheKeys :=
  mkCacheKeys (fun uid => "conversations:" +:+ uid)
              (fun cid => "messages:" +:+ cid).

(** Nobody signed in, empty tables, empty cache. *)
Definition signed_out : World :=
  mkWorld 1000 None [] [] 1 ∅ [] [] [] [] [].

Definition signed_in : World :=
  mkWorld 1000 (Some "u1") [] [] 1 ∅ [] [] [] [] [].

(** The data service refuses the next request and serves the following
    ones. *)
Definition one_outage : World :=
  set_db_script [ReplyError (ErrorObj "connection reset")] signed_in.

(** One message in conversation "c1"; the completion endpoint answers the
    next request after 800 ms. *)
Definition first_message : Message :=
  mkMessage "msg-0" "c1" "Hi" user 500.

Definition chatting : World :=
  mkWorld 1000 (Some "u1")
    [mkConversation "c1" "u1" "Chat" 400 500] [first_message] 1 ∅ []
    [mkCompletion 800 (HttpResponse 200 (JsonReply "Hello! How can I help?"))]
    [] [] [].

(** The page of "c1" is loaded (and cached), "Hello" is sent, the pending
    timestamp update completes, and five seconds later the page is asked
    for again. *)
Definition page_loaded : World :=
  snd (api.getMessages sample_keys "c1" 50 0 chatting).

Definition hello_sent : World :=
  snd (api.sendMessage "c1" "Hello" page_loaded).

Definition five_seconds_later : World :=
  tick 5000 (api.settle_update sample_keys hello_sent).

(** Two conversations with one message each. *)
Definition chatA : Conversation := mkConversation "A" "u1" "First" 100 200.
Definition chatB : Conversation := mkConversation "B" "u1" "Second" 300 400.
Definition messageA : Message := mkMessage "msg-a" "A" "in A" user 200.
Definition messageB : Message := mkMessage "msg-b" "B" "in B" user 400.

Definition two_chats : World :=
  mkWorld 1000 (Some "u1") [chatA; chatB] [messageA; messageB] 1 ∅ [] [] []
    [] [].

(** The user opens A and, before its messages have arrived, opens B; both
    queries are served, and B's answer reaches the store before A's. *)
Definition responseA : outcome (ApiResponse (list Message)) :=
  fst (api.getMessages sample_keys "A" 50 0 two_chats).

Definition responseB : outcome (ApiResponse (list Message)) :=
  fst (api.getMessages sample_keys "B" 50 0
         (snd (api.getMessages sample_keys "A" 50 0 two_chats))).

Definition switched_to_B : ChatState :=
  setCurrentConversation (Some chatB)
    (setCurrentConversation (Some chatA) initialState).

Definition late_answer_for_A : ChatState :=
  loadMessages_resume responseA (loadMessages_resume responseB switched_to_B).

(** A send that fails while an earlier send of the same millisecond is
    still in flight: the data service is unreachable. *)
Definition unreachable : World :=
  mkWorld 1000 (Some "u1") [] [] 1 ∅
    [Rejected (ErrorObj "Failed to fetch")] [] [] [] [].

Definition first_pending : ChatState :=
  sendMessage_begin (tempUserMessage 1000 "c1" "first") initialState.

(** A conversation of 51 messages, created at times 1 to 51. *)
Definition numbered (i : nat) : Message :=
  mkMessage ("msg-" +:+ pretty i) "c1" "text" user (N.of_nat i).

Definition long_chat : World :=
  mkWorld 1000 (Some "u1") [] (map numbered (seq 1 51)) 100 ∅ [] [] [] [] [].

(** Oldest first. *)
Definition oldest_first (l : list Message) : Prop := Sorted created_at_le l.

(** Conversation "c1" is opened (its page is cached for a minute), then
    "Hello" is sent while the completion endpoint does not answer, and
    after the rollback the conversation is loaded again. *)
Definition no_answer : World := set_ai_script [] chatting.

Definition opened : ChatState * World :=
  loadMessages sample_keys "c1" initialState no_answer.

Definition send_timed_out : ChatState * World :=
  sendMessage "c1" "Hello" (fst opened) (snd opened).

Definition reloaded : ChatState * World :=
  loadMessages sample_keys "c1" (fst send_timed_out) (snd send_timed_out).

(** ** Further vocabulary: the request queue *)

(** The waiting requests are the latest submissions, in the order of
    their [add] calls: tasks [0 .. k-1] have been started, tasks
    [k .. submitted-1] wait. *)
Definition waiting_in_order (s : RequestQueue.state) : Prop :=
  exists k,
    RequestQueue.submitted s = k + length (RequestQueue.queue s) /\
    RequestQueue.queue s = seq k (length (RequestQueue.queue s)).

(** ** Further vocabulary: the facade *)


(** The key under which [getMessages] finds no page, or an expired one. *)
Definition page_missing (keys : CacheKeys) (conversationId : string)
    (limit offset : nat) (w : World) : Prop :=
  forall l,
    cache_get_at (w_now w) (api.page_key keys conversationId limit offset)
      (w_cache w) <> Some (VMessages l).


(** The data service serves the next [n] requests. *)
Definition serves (n : nat) (w : World) : bool :=
  forallb (fun o => match o with Served => true | _ => false end)
    (take n (w_db_script w)).

(** The row the data service creates for a new conversation. *)
Definition conversation_row (uid title : string) (w : World) : Conversation :=
  mkConversation ("conv-" +:+ pretty (w_next_id w)) uid title (w_now w)
    (w_now w).

(** The row the data service creates for the assistant's reply, after the
    user's row and once the completion has taken [elapsed] ms. *)
Definition reply_row (conversationId response : string) (elapsed : N)
    (w : World) : Message :=
  mkMessage ("msg-" +:+ pretty (w_next_id w + 1)%N) conversationId response
    assistant (w_now w + elapsed)%N.

(** [from('conversations').select(`*, messages(count)`).eq('user_id', uid)
      .order('updated_at', {ascending: false}).limit(30)]: every row
    carries the embedded aggregate [messages: [{count}]]. *)
Definition db_select_conversations_with_counts (uid : string)
    : M (DbReply (list (Conversation * list nat))) :=
  db_request (EvSelectConversations uid)
    (fun w =>
       (Ok (map (fun c =>
                   (c, [length (filter (fun m => m_conversation_id m = c_id c)
                                  (w_messages w))]))
              (query_conversations uid (w_conversations w))),
        w)).

(** [conv.messages?.[0]?.count || 0] *)
Definition message_count (embedded : list nat) : nat :=
  default 0 (head embedded).

Definition getConversationsWithMessageCounts_task (uid : string)
    : M (list (Conversation * nat)) :=
  reply ← db_select_conversations_with_counts uid;
  match r_error reply with
  | Some e => throw e
  | None =>
      mret (map (fun conv => (fst conv, message_count (snd conv)))
              (default [] (r_data reply)))
  end.

(** [api.getConversationsWithMessageCounts] *)
Definition getConversationsWithMessageCounts
    : M (ApiResponse (list (Conversation * nat))) :=
  try_catch
    (u ← auth_getUser;
     match u with
     | None => throw api.not_authenticated
     | Some uid =>
         result ← requestQueue_add
                    (getConversationsWithMessageCounts_task uid);
         mret (mkApiResponse result None true)
     end)
    (fun e =>
       mret (mkApiResponse []
               (Some (error_message e
                        "Failed to fetch conversations with counts"))
               false)).

(** Number of events of a kind in a trace. *)
Definition occurrences (p : Event -> bool) (l : list Event) : nat :=
  length (List.filter p l).

Definition is_select_messages (ev : Event) : bool :=
  match ev with EvSelectMessages _ _ _ => true | _ => false end.

(** ** The chat store, continued: conversations, the reloading variant of
    [sendMessage], and the caller in [ChatArea] *)


(** [set({ isLoading: true, error: null })] *)
Definition begin_loading (s : ChatState) : ChatState :=
  set_error None (set_isLoading true s).



(** The [set] of the store's [createConversation] on success: the new
    conversation is put in front and selected, the message view is
    reset. *)
Definition open_created (c : Conversation) (s : ChatState) : ChatState :=
  mkChatState (c :: s_conversations s) (Some c) [] (s_isLoading s)
    (s_isTyping s) (s_error s) false 0 [].

Definition createConversation_resume
    (r : outcome (ApiResponse (option Conversation))) (s : ChatState)
    : option Conversation * ChatState :=
  let '(result, s1) :=
    match r with
    | Ok resp =>
        match success resp, data resp with
        | true, Some c => (Some c, open_created c s)
        | _, _ => (None, set_error (error resp) s)
        end
    | Throw _ => (None, set_error (Some "Failed to create conversation") s)
    end in
  (result, set_isLoading false s1).

(** The store's [createConversation(title = 'New Conversation')]. *)
Definition createConversation (keys : CacheKeys) (title : option string)
    (s : ChatState) (w : World) : option Conversation * ChatState * World :=
  let s1 := begin_loading s in
  let '(r, w') :=
    api.createConversation keys (default "New Conversation" title) w in
  (createConversation_resume r s1, w').

(** The second [useChatStore] of the source: its [sendMessage] does not
    patch the list on success but reloads the conversation's first page,
    [api.getMessages(conversationId)] with the defaults [limit = 50] and
    [offset = 0], and clears the optimistic list. *)
Module ReloadingStore.

Definition sendMessage (keys : CacheKeys) (conversationId content : string)
    (s : ChatState) (w : World) : ChatState * World :=
  let temp := tempUserMessage (w_now w) conversationId content in
  let s1 := sendMessage_begin temp s in
  let '(r, w1) := api.sendMessage conversationId content w in
  match r with
  | Ok resp =>
      if success resp then
        let '(r2, w2) := api.getMessages keys conversationId 50 0 w1 in
        match r2 with
        | Ok resp2 =>
            (set_isTyping false (set_sequences (data resp2) [] s1), w2)
        | Throw _ =>
            (set_isTyping false
               (rollback temp
                  (set_error (Some "Failed to send message") s1)), w2)
        end
      else (set_isTyping false (rollback temp (set_error (error resp) s1)), w1)
  | Throw _ =>
      (set_isTyping false
         (rollback temp (set_error (Some "Failed to send message") s1)), w1)
  end.

End ReloadingStore.

(** [content.slice(0, 50) + (content.length > 50 ? '...' : '')]; the
    characters of a string stand for the code units of the source's
    strings. *)
Definition conversation_title (content : string) : string :=
  substring 0 50 content
    +:+ (if 50 <? String.length content then "..." else EmptyString).

(** [handleSendMessage] of [ChatArea]: with no conversation selected, one
    is created first, titled after the message, and the message is sent
    only if that succeeded. *)
Definition handleSendMessage (keys : CacheKeys) (content : string)
    (s : ChatState) (w : World) : ChatState * World :=
  match s_currentConversation s with
  | None =>
      let '(newConversation, s1, w1) :=
        createConversation keys (Some (conversation_title content)) s w in
      match newConversation with
      | Some c => sendMessage (c_id c) content s1 w1
      | None => (s1, w1)
      end
  | Some c => sendMessage (c_id c) content s w
  end.

(** The user scrolls up [n] times: [loadMoreMessages] called [n] times in
    a row, each call after the previous one has finished. *)
Fixpoint load_more_times (n : nat) (keys : CacheKeys) (conversationId : string)
    (s : ChatState) (w : World) : ChatState * World :=
  match n with
  | O => (s, w)
  | S n' =>
      let '(s1, w1) := load_more_times n' keys conversationId s w in
      loadMoreMessages keys conversationId s1 w1
  end.

(** All messages of a conversation, as the data service orders them. *)
Definition conversation_messages (conversationId : string)
    (table : list Message) : list Message :=
  merge_sort created_at_le
    (filter (fun m => m_conversation_id m = conversationId) table).

(** Every page of the conversation that the cache would serve now agrees
    with the table. *)
Definition pages_current (keys : CacheKeys) (conversationId : string)
    (w : World) : Prop :=
  forall offset l,
    cache_get_at (w_now w) (api.page_key keys conversationId 50 offset)
      (w_cache w) = Some (VMessages l) ->
    l = query_messages conversationId offset 50 (w_messages w).

(** ** The performance monitor ([PerformanceMonitor] in [lib/performance])

    [metrics] is a [Map<string, number[]>].  A JavaScript number is an IEEE
    754 double, here the kernel's primitive [float] with its rounding. *)
Module PerformanceMonitor.

Definition number : Set := PrimFloat.float.

(** [values.push(value); if (values.length > 100) values.shift();] *)
Definition push_bounded (values : list number) (value : number)
    : list number :=
  let values' := values ++ [value] in
  if 100 <? length values' then tail values' else values'.

(** [recordMetric(label, value)]: a missing label starts with the empty
    array. *)
Definition recordMetric (label : string) (value : number)
    (metrics : gmap string (list number)) : gmap string (list number) :=
  <[ label := push_bounded (default [] (metrics !! label)) value ]> metrics.

(** The closure returned by [startTimer(label)], called at time [end_]:
    [recordMetric(label, end - start)]. *)
Definition endTimer (label : string) (start end_ : number)
    (metrics : gmap string (list number)) : gmap string (list number) :=
  recordMetric label (PrimFloat.sub end_ start) metrics.

Record Summary := mkSummary {
  avg : number;
  min : number;
  max : number;
  count : nat
}.

(** [values.reduce((sum, val) => sum + val, 0)] *)
Definition sum (values : list number) : number :=
  fold_left PrimFloat.add values PrimFloat.zero.

(** An array length as a number (exact below 2^53). *)
Fixpoint number_of_nat (n : nat) : number :=
  match n with
  | O => PrimFloat.zero
  | S n => PrimFloat.add (number_of_nat n) PrimFloat.one
  end.

Definition is_negative_zero (x : number) : bool :=
  PrimFloat.is_zero x && PrimFloat.get_sign x.

Definition is_positive_zero (x : number) : bool :=
  PrimFloat.is_zero x && negb (PrimFloat.get_sign x).

(** [Math.min(...values)] as ECMA-262 gives it, entered with [lowest] at
    [+Infinity]: a NaN makes the result NaN, [-0] is below [+0]. *)
Fixpoint math_min (lowest : number) (values : list number) : number :=
  match values with
  | [] => lowest
  | x :: rest =>
      if PrimFloat.is_nan x then PrimFloat.nan
      else
        let lowest :=
          if is_negative_zero x && is_positive_zero lowest then x
          else lowest in
        math_min (if PrimFloat.ltb x lowest then x else lowest) rest
  end.

(** [Math.max(...values)], entered with [highest] at [-Infinity]. *)
Fixpoint math_max (highest : number) (values : list number) : number :=
  match values with
  | [] => highest
  | x :: rest =>
      if PrimFloat.is_nan x then PrimFloat.nan
      else
        let highest :=
          if is_positive_zero x && is_negative_zero highest then x
          else highest in
        math_max (if PrimFloat.ltb highest x then x else highest) rest
  end.

(** [getMetrics(label)]: null when the label is missing or its array is
    empty. *)
Definition getMetrics (label : string) (metrics : gmap string (list number))
    : option Summary :=
  match metrics !! label with
  | Some (v :: vs) =>
      let values := v :: vs in
      Some (mkSummary
              (PrimFloat.div (sum values) (number_of_nat (length values)))
              (math_min PrimFloat.infinity values)
              (math_max PrimFloat.neg_infinity values)
              (length values))
  | _ => None
  end.

(** A series of [recordMetric] calls, in order. *)
Definition record_all (records : list (string * number))
    (metrics : gmap string (list number)) : gmap string (list number) :=
  foldl (fun m r => recordMetric (fst r) (snd r) m) metrics records.

(** The values recorded under a label, in order. *)
Definition recorded (label : string) (records : list (string * number))
    : list number :=
  map snd (filter (fun r => fst r = label) records).

(** The last 100 elements. *)
Definition last_hundred (values : list number) : list number :=
  drop (length values - 100) values.

End PerformanceMonitor.

(** ** The authentication helpers ([auth] in [lib/supabase])

    The helpers talk to the authentication service and to the [users]
    table.  Both are outside the [World] of the chat data, so they get a
    state of their own: the table, the scripted outcomes of the coming
    table requests, and what was written to the console. *)
Module auth.

Record Profile := mkProfile {
  p_id : string;
  p_email : string;
  p_name : string
}.

Inductive TableRequest :=
  | SelectProfile (userId : string)
  | InsertProfile (row : Profile).

Record Accounts := mkAccounts {
  a_users : list Profile;
  a_script : list DbOutcome;
  a_requests : list TableRequest;
  a_console : list string
}.

(** [data.user] of the authentication service: [email] may be missing. *)
Record AuthUser := mkAuthUser {
  u_id : string;
  u_email : option string
}.

(** What [supabase.auth.signUp] / [signInWithPassword] does: it answers
    [{data: {user}, error}], or the promise rejects. *)
Inductive AuthOutcome :=
  | AuthReply (usr : option AuthUser) (err : option thrown)
  | AuthRejected (e : thrown).

(** The [{data, error}] the helpers return; [data] is null after a
    rejection, and otherwise carries [data.user]. *)
Record AuthResult := mkAuthResult {
  r_data : option (option AuthUser);
  r_error : option thrown
}.

Definition at_sign : Ascii.ascii := Ascii.ascii_of_nat 64.

(** [email.split('@')[0]] *)
Fixpoint before_at (email : string) : string :=
  match email with
  | EmptyString => EmptyString
  | String c rest =>
      if Ascii.eqb c at_sign then EmptyString else String c (before_at rest)
  end.

(** [a || b] on strings: the empty string and undefined are falsy. *)
Definition or_else (a : option string) (b : string) : string :=
  match a with
  | Some (String c rest) => String c rest
  | _ => b
  end.

Definition next_outcome (acc : Accounts) : DbOutcome * Accounts :=
  match a_script acc with
  | [] => (Served, acc)
  | o :: rest =>
      (o, mkAccounts (a_users acc) rest (a_requests acc) (a_console acc))
  end.

Definition request (r : TableRequest) (acc : Accounts) : Accounts :=
  mkAccounts (a_users acc) (a_script acc) (a_requests acc ++ [r])
    (a_console acc).

Definition console_error (line : string) (acc : Accounts) : Accounts :=
  mkAccounts (a_users acc) (a_script acc) (a_requests acc)
    (a_console acc ++ [line]).

Definition insert_row (row : Profile) (acc : Accounts) : Accounts :=
  mkAccounts (a_users acc ++ [row]) (a_script acc) (a_requests acc)
    (a_console acc).

(** [.select('id').eq('id', userId).maybeSingle()] on served rows:
    the row if there is exactly one, null otherwise. *)
Definition maybeSingle (userId : string) (rows : list Profile)
    : option Profile :=
  match filter (fun p => p_id p = userId) rows with
  | [p] => Some p
  | _ => None
  end.

(** [ensureUserProfile(userId, email, name?)]: every failure is caught
    and logged, the promise always resolves. *)
Definition ensureUserProfile (userId email : string) (name : option string)
    (acc : Accounts) : Accounts :=
  let '(o, acc) := next_outcome (request (SelectProfile userId) acc) in
  match o with
  | Rejected e => console_error "Error ensuring user profile:" acc
  | Served | ReplyError _ =>
      let existingProfile :=
        match o with
        | Served => maybeSingle userId (a_users acc)
        | _ => None
        end in
      match existingProfile with
      | Some _ => acc
      | None =>
          let row := mkProfile userId email (or_else name (before_at email)) in
          let '(o, acc) := next_outcome (request (InsertProfile row) acc) in
          match o with
          | Served => insert_row row acc
          | ReplyError e => console_error "Error creating user profile:" acc
          | Rejected e => console_error "Error ensuring user profile:" acc
          end
      end
  end.


(** [signIn(email, password)]: the profile is made from
    [data.user.email || email], without a name. *)
Definition signIn (email password : string) (service : AuthOutcome)
    (acc : Accounts) : AuthResult * Accounts :=
  match service with
  | AuthRejected e =>
      (mkAuthResult None (Some e), console_error "Signin error:" acc)
  | AuthReply usr err =>
      let acc :=
        match usr, err with
        | Some u, None =>
            ensureUserProfile (u_id u) (or_else (u_email u) email) None acc
        | _, _ => acc
        end in
      (mkAuthResult (Some usr) err, acc)
  end.

(** The table answers the next [n] requests. *)
Definition answers (n : nat) (acc : Accounts) : bool :=
  forallb (fun o => match o with Served => true | _ => false end)
    (take n (a_script acc)).

Definition profiles_of (userId : string) (acc : Accounts) : list Profile :=
  filter (fun p => p_id p = userId) (a_users acc).

End auth.

(** ** The chat function ([supabase/functions/chat])

    The server side of [fetch_completion].  The function keeps a
    module-level [historyCache], reads the conversation's latest messages,
    and asks the completion provider for an answer.  What the data service
    and the provider do with a request is given to each call; the
    [response_time] of the metadata is not modelled. *)
Module edge.

Record CachedHistory := mkCached {
  h_data : list Message;
  h_timestamp : N
}.

(** A JavaScript [Map]: one entry per key, in insertion order. *)
Definition HistoryCache := list (string * CachedHistory).

Fixpoint map_get (key : string) (m : HistoryCache) : option CachedHistory :=
  match m with
  | [] => None
  | (k, v) :: rest => if decide (k = key) then Some v else map_get key rest
  end.

(** [Map.set]: an existing key keeps its place. *)
Fixpoint map_set (key : string) (value : CachedHistory) (m : HistoryCache)
    : HistoryCache :=
  match m with
  | [] => [(key, value)]
  | (k, v) :: rest =>
      if decide (k = key) then (key, value) :: rest
      else (k, v) :: map_set key value rest
  end.

Definition CACHE_TTL : Z := 30000.

Record Server := mkServer {
  e_now : N;
  e_historyCache : HistoryCache;
  e_queries : nat;
  e_console : list string
}.

Definition console_error (line : string) (st : Server) : Server :=
  mkServer (e_now st) (e_historyCache st) (e_queries st)
    (e_console st ++ [line]).

Definition created_at_ge (a b : Message) : Prop :=
  (m_created_at b <= m_created_at a)%N.

Global Instance created_at_ge_dec : RelDecision created_at_ge.
Proof. intros a b. unfold created_at_ge. apply _. Defined.

(** [from('messages').select(...).eq('conversation_id', cid)
      .order('created_at', {ascending: false}).limit(limit)] *)
Definition latest_messages (cid : string) (limit : nat)
    (table : list Message) : list Message :=
  take limit
    (merge_sort created_at_ge
       (filter (fun m => m_conversation_id m = cid) table)).

(** [cached && Date.now() - cached.timestamp < CACHE_TTL] *)
Definition fresh_entry (conversationId : string) (st : Server)
    : option CachedHistory :=
  match map_get conversationId (e_historyCache st) with
  | Some cached =>
      if (Z.of_N (e_now st) - Z.of_N (h_timestamp cached) <? CACHE_TTL)%Z
      then Some cached else None
  | None => None
  end.

(** [getConversationHistory(conversationId, limit)] against the [table],
    when the data service takes [latency] ms and answers with [o]. *)
Definition getConversationHistory (conversationId : string) (limit : nat)
    (table : list Message) (latency : N) (o : DbOutcome) (st : Server)
    : list Message * Server :=
  match fresh_entry conversationId st with
  | Some cached => (h_data cached, st)
  | None =>
      let st :=
        mkServer (e_now st + latency)%N (e_historyCache st)
          (S (e_queries st)) (e_console st) in
      match o with
      | Rejected e => ([], console_error "Error in getConversationHistory:" st)
      | ReplyError e =>
          ([], console_error "Error fetching conversation history:" st)
      | Served =>
          let messages := rev (latest_messages conversationId limit table) in
          let cache :=
            map_set conversationId (mkCached messages (e_now st))
              (e_historyCache st) in
          let cache := if 100 <? length cache then tail cache else cache in
          (messages, mkServer (e_now st) cache (e_queries st) (e_console st))
      end
  end.

(** One message of the provider request. *)
Record ChatMessage := mkChat {
  cm_role : string;
  cm_content : string
}.

Definition system_prompt (with_context : bool) : string :=
  "You are a helpful AI assistant. Provide clear, natural responses without any markdown formatting. Do not use bold, italic, headers, code blocks, lists with bullets or numbers, or any other markdown syntax. Write in plain text only, using natural language and proper punctuation. "
  +:+ (if with_context
       then "You have conversation context - reference it when relevant."
       else EmptyString).

(** [msg.content.length > 500 ? msg.content.substring(0, 500) + '...'
                                : msg.content] *)
Definition truncate (content : string) : string :=
  if 500 <? String.length content
  then substring 0 500 content +:+ "..."
  else content.

Definition history_entry (msg : Message) : ChatMessage :=
  mkChat (match m_role msg with user => "user" | assistant => "assistant" end)
    (truncate (m_content msg)).

(** The [messages] array of [getAIResponse]: the system prompt,
    [conversationHistory.slice(-6)], and the prompt. *)
Definition context (prompt : string) (conversationHistory : list Message)
    : list ChatMessage :=
  [mkChat "system" (system_prompt (0 <? length conversationHistory))]
  ++ map history_entry
       (drop (length conversationHistory - 6) conversationHistory)
  ++ [mkChat "user" prompt].

(** What the completion provider does with the request. *)
Inductive Upstream :=
  | FetchFails (e : thrown)
  | NotOk (status : N)
  | BodyUnreadable (e : thrown)
  | NoChoice
  | Choice (content : option string).

Definition fallback : string :=
  "I'm experiencing some technical difficulties. Please try again in a moment.".

Definition apology : string :=
  "I apologize, but I was unable to generate a response. Please try again.".

(** The white space and line terminators [String.prototype.trim] strips.
    A character stands for one code unit of the source's strings, and the
    strings considered are those of code units below 256; of these the
    stripped ones are TAB, LF, VT, FF, CR (9 to 13), SPACE (32) and the
    no-break space U+00A0 (160).  The others (U+1680, U+2000 to U+200A,
    U+2028, U+2029, U+202F, U+205F, U+3000, U+FEFF) lie above 255. *)
Definition is_space (c : Ascii.ascii) : bool :=
  let n := Ascii.nat_of_ascii c in
  ((9 <=? n) && (n <=? 13)) || (n =? 32) || (n =? 160).

Fixpoint trim_start (l : list Ascii.ascii) : list Ascii.ascii :=
  match l with
  | c :: rest => if is_space c then trim_start rest else l
  | [] => []
  end.

Definition trim (s : string) : string :=
  string_of_list_ascii
    (rev (trim_start (rev (trim_start (list_ascii_of_string s))))).

(** A JSON value as the validation sees it: a string, nothing, or
    something else. *)
Inductive JsonValue :=
  | JUndefined
  | JString (s : string)
  | JOther (truthy : bool).

(** [await req.json()] followed by the destructuring: it throws, or gives
    the two fields.  A [conversationId] that is present is a string. *)
Inductive Body :=
  | Unreadable
  | Fields (message : JsonValue) (conversationId : option string).

Inductive ResponseBody :=
  | PlainOk
  | ErrorBody (error : string)
  | Reply (response : string) (conversation_id : option string)
      (context_messages : nat).

Record Response := mkResponse {
  status : N;
  body : ResponseBody
}.

Section Handler.
(** [cleanMarkdownFormatting] is a chain of regular-expression
    replacements on the answer; nothing below depends on what it does. *)
Context (cleanMarkdownFormatting : string -> string).

(** [getAIResponse(prompt, conversationHistory)]: the request sent, and
    the text returned.  Every failure gives the fallback text. *)
Definition getAIResponse (prompt : string)
    (conversationHistory : list Message) (up : Upstream) (st : Server)
    : list ChatMessage * string * Server :=
  let sent := context prompt conversationHistory in
  match up with
  | Choice content =>
      (sent, cleanMarkdownFormatting (auth.or_else content apology), st)
  | NotOk _ =>
      (sent, fallback,
       console_error "Error calling OpenRouter API:"
         (console_error "OpenRouter API error:" st))
  | NoChoice =>
      (sent, fallback,
       console_error "Error calling OpenRouter API:"
         (console_error "Invalid response structure:" st))
  | FetchFails _ | BodyUnreadable _ =>
      (sent, fallback, console_error "Error calling OpenRouter API:" st)
  end.

(** The handler given to [Deno.serve].  The result carries the request
    sent to the provider, if one was sent. *)
Definition serve (method : string) (request : Body) (table : list Message)
    (latency : N) (o : DbOutcome) (up : Upstream) (st : Server)
    : Response * option (list ChatMessage) * Server :=
  if decide (method = "OPTIONS") then (mkResponse 200 PlainOk, None, st)
  else
    match request with
    | Unreadable =>
        (mkResponse 500
           (ErrorBody "Internal server error. Please try again later."),
         None, console_error "Error in chat function:" st)
    | Fields (JString message) conversationId =>
        if String.length (trim message) =? 0
        then (mkResponse 400 (ErrorBody "Valid message is required"), None, st)
        else if 4000 <? String.length message
        then (mkResponse 400
                (ErrorBody "Message too long. Please limit to 4000 characters."),
              None, st)
        else
          let '(conversationHistory, st) :=
            match conversationId with
            | Some (String c id) =>
                getConversationHistory (String c id) 6 table latency o st
            | _ => ([], st)
            end in
          let '(sent, response, st) :=
            getAIResponse (trim message) conversationHistory up st in
          (mkResponse 200
             (Reply response conversationId (length conversationHistory)),
           Some sent, st)
    | Fields _ _ =>
        (mkResponse 400 (ErrorBody "Valid message is required"), None, st)
    end.

End Handler.

(** One call of [getConversationHistory], with what the data service
    held and did, [wait] ms after the call before. *)
Record HistoryCall := mkCall {
  hc_wait : N;
  hc_conversationId : string;
  hc_limit : nat;
  hc_table : list Message;
  hc_latency : N;
  hc_outcome : DbOutcome
}.

Definition later (wait : N) (st : Server) : Server :=
  mkServer (e_now st + wait)%N (e_historyCache st) (e_queries st)
    (e_console st).

Definition history_calls (calls : list HistoryCall) (st : Server) : Server :=
  foldl (fun st c =>
           snd (getConversationHistory (hc_conversationId c) (hc_limit c)
                  (hc_table c) (hc_latency c) (hc_outcome c)
                  (later (hc_wait c) st)))
    st calls.

Definition keys_of (m : HistoryCache) : list string := map fst m.

(** The time a series of calls takes at most: the waits, and the latency
    of each query. *)
Definition duration (calls : list HistoryCall) : N :=
  foldr (fun c t => (hc_wait c + hc_latency c + t)%N) 0%N calls.

End edge.

(** ** Success paths of the facade

    What decides a facade call is read off the world it starts in: the
    session, the cache, what the data service does with the requests the
    operation makes, and what the completion endpoint does.  A call is on
    its success path when none of these fails it. *)

Definition has_session (w : World) : bool :=
  match w_session w with Some _ => true | None => false end.

(** The user's conversation list is in the cache and has not expired. *)
Definition conversations_cached (keys : CacheKeys) (w : World) : bool :=
  match w_session w with
  | Some uid =>
      match cache_get_at (w_now w) (ck_conversations keys uid) (w_cache w) with
      | Some (VConversations _) => true
      | _ => false
      end
  | None => false
  end.

(** The page is in the cache and has not expired. *)
Definition page_cached (keys : CacheKeys) (conversationId : string)
    (limit offset : nat) (w : World) : bool :=
  match cache_get_at (w_now w) (api.page_key keys conversationId limit offset)
          (w_cache w) with
  | Some (VMessages _) => true
  | _ => false
  end.

(** The session lookup and the insert are served, for a signed-in user. *)
Definition createConversation_succeeds (w : World) : bool :=
  has_session w && serves 2 w.

(** The session lookup is served for a signed-in user, and the list is
    cached or the query is served. *)
Definition getConversations_succeeds (keys : CacheKeys) (w : World) : bool :=
  has_session w && serves 1 w && (conversations_cached keys w || serves 2 w).

(** The page is cached or the query is served. *)
Definition getMessages_succeeds (keys : CacheKeys) (conversationId : string)
    (limit offset : nat) (w : World) : bool :=
  page_cached keys conversationId limit offset w || serves 1 w.

(** Both inserts are served and the completion call does not fail. *)
Definition sendMessage_succeeds (w : World) : bool :=
  serves 2 w && negb (completion_fails (head (w_ai_script w))).

(** Two sends in the millisecond 1000, both pending; the facade then
    answers the first one with the assistant's reply. *)
Definition twin_first : Message := tempUserMessage 1000 "c1" "one".
Definition twin_second : Message := tempUserMessage 1000 "c1" "two".

Definition twins_pending : ChatState :=
  sendMessage_begin twin_second (sendMessage_begin twin_first initialState).

Definition twin_response : outcome (ApiResponse (option Message)) :=
  fst (api.sendMessage "c1" "one" chatting).

Definition twins_reconciled : ChatState :=
  sendMessage_resume twin_first (send_response twin_response) twins_pending.

(** * Properties

    The properties of the specification are numbered C1 to C10; the
    statement that settles each carries its number:
    - C1  cache invalidation after a send;
    - C2  retry around backend calls;
    - C3  bounded concurrency and one settlement per task;
    - C4  conversation switch during a load;
    - C5  rollback of a failed send;
    - C6  order of the loaded messages;
    - C7  calls without a session;
    - C8  uniform results, no exception;
    - C9  user message left behind by a failed send;
    - C10 temporary ids issued in the same millisecond. *)

(** ** The request queue *)

Section RequestQueueProperties.
Import RequestQueue.

Lemma remove_first_length t l k :
  remove_first t l = Some k -> length l = S (length k).
Proof.
  revert k. induction l as [|x l IH]; intros k H; simpl in H; [discriminate|].
  destruct (decide (x = t)).
  - injection H as <-. reflexivity.
  - destruct (remove_first t l) as [k'|]; [|discriminate].
    injection H as <-. simpl. f_equal. apply IH. reflexivity.
Qed.

Lemma remove_first_perm t l k :
  remove_first t l = Some k -> l ≡ₚ t :: k.
Proof.
  revert k. induction l as [|x l IH]; intros k H; simpl in H; [discriminate|].
  destruct (decide (x = t)) as [->|].
  - injection H as <-. reflexivity.
  - destruct (remove_first t l) as [k'|]; [|discriminate].
    injection H as <-. rewrite (IH k' eq_refl). apply Permutation_swap.
Qed.

Lemma start_requests_spec q : forall cur exe q' cur' exe',
  start_requests q cur exe = (q', cur', exe') ->
  exists moved,
    q = moved ++ q' /\ exe' = exe ++ moved /\ cur' = cur + length moved /\
    (cur <= maxConcurrent -> cur' <= maxConcurrent) /\
    (q' = [] \/ maxConcurrent <= cur').
Proof.
  induction q as [|request rest IH]; intros cur exe q' cur' exe' H; simpl in H.
  - injection H as <- <- <-. exists []. simpl.
    repeat split; rewrite ?app_nil_r; auto with lia.
  - destruct (cur <? maxConcurrent) eqn:Hlt.
    + apply Nat.ltb_lt in Hlt.
      destruct (IH _ _ _ _ _ H) as (moved & -> & -> & -> & Hb & Hf).
      exists (request :: moved). rewrite <- app_assoc. simpl.
      repeat split; auto with lia.
    + apply Nat.ltb_ge in Hlt. injection H as <- <- <-.
      exists []. simpl. repeat split; rewrite ?app_nil_r; auto with lia.
Qed.

Lemma process_inv s :
  processing s = false ->
  currentRequests s = length (executing s) + length (finishing s) ->
  currentRequests s <= maxConcurrent ->
  queue s ++ executing s ++ map fst (settled s) ≡ₚ seq 0 (submitted s) ->
  inv (process s).
Proof.
  intros Hp Hc Hb Ht. unfold process. rewrite Hp. cbn [orb].
  destruct (maxConcurrent <=? currentRequests s) eqn:Hfull.
  - apply Nat.leb_le in Hfull. constructor; auto.
  - destruct (start_requests (queue s) (currentRequests s) (executing s))
      as [[q cur] exe] eqn:Ha.
    destruct (start_requests_spec _ _ _ _ _ _ Ha) as (moved & Hq & -> & -> & Hb' & Hf).
    constructor; simpl; auto.
    + rewrite length_app. lia.
    + rewrite <- Ht, Hq. solve_Permutation.
Qed.

Lemma init_inv : inv init.
Proof. constructor; simpl; auto. unfold maxConcurrent. lia. Qed.

Lemma step_inv e s s' : inv s -> step e s = Some s' -> inv s'.
Proof.
  intros [Hp Hc Hb Hf Ht] H. destruct e as [|t o|t]; simpl in H.
  - injection H as <-. apply process_inv; simpl; auto.
    change (0 :: seq 1 (submitted s)) with (seq 0 (S (submitted s))).
    rewrite seq_S. simpl. rewrite <- Ht. solve_Permutation.
  - destruct (remove_first t (executing s)) as [exe|] eqn:Hr; [|discriminate].
    injection H as <-.
    pose proof (remove_first_length _ _ _ Hr) as Hl.
    pose proof (remove_first_perm _ _ _ Hr) as Hperm.
    constructor; simpl; auto.
    + rewrite length_app. simpl. lia.
    + rewrite map_app. simpl. rewrite <- Ht, Hperm. solve_Permutation.
  - destruct (remove_first t (finishing s)) as [fin|] eqn:Hr; [|discriminate].
    injection H as <-.
    pose proof (remove_first_length _ _ _ Hr) as Hl.
    apply process_inv; simpl; auto; lia.
Qed.

Lemma run_inv evs : forall s s', inv s -> run evs s = Some s' -> inv s'.
Proof.
  induction evs as [|e evs IH]; intros s s' Hi H; simpl in H.
  - injection H as <-. exact Hi.
  - destruct (step e s) as [s1|] eqn:Hs; [|discriminate].
    eapply IH; [|exact H]. eapply step_inv; eauto.
Qed.

(** [process] only moves requests from the queue to the started ones. *)
Lemma process_moves s :
  length (queue (process s)) + length (executing (process s))
    = length (queue s) + length (executing s) /\
  finishing (process s) = finishing s /\
  settled (process s) = settled s /\
  submitted (process s) = submitted s.
Proof.
  unfold process.
  destruct (processing s || (maxConcurrent <=? currentRequests s)); [auto|].
  destruct (start_requests (queue s) (currentRequests s) (executing s))
    as [[q cur] exe] eqn:Ha.
  destruct (start_requests_spec _ _ _ _ _ _ Ha) as (moved & Hq & -> & -> & _ & _).
  simpl. rewrite Hq, !length_app. repeat split; lia.
Qed.

(** Every event of the runtime uses up one of the pending steps, keeps the
    settlements made so far and adds no task. *)
Lemma internal_step e s s' :
  internal e -> step e s = Some s' ->
  pending_steps s = S (pending_steps s') /\
  submitted s' = submitted s /\
  exists more, settled s' = settled s ++ more.
Proof.
  intros Hi H. destruct e as [|t o|t]; simpl in H; [destruct Hi| |].
  - destruct (remove_first t (executing s)) as [exe|] eqn:Hr; [|discriminate].
    injection H as <-. apply remove_first_length in Hr.
    unfold pending_steps. simpl. rewrite length_app. simpl.
    split; [lia|]. split; [reflexivity|]. eauto.
  - destruct (remove_first t (finishing s)) as [fin|] eqn:Hr; [|discriminate].
    injection H as <-. apply remove_first_length in Hr.
    match goal with |- context [process ?x] =>
      destruct (process_moves x) as (Hm & Hfin & Hset & Hsub) end.
    unfold pending_steps. rewrite Hfin, Hset, Hsub. simpl in *.
    split; [lia|]. split; [reflexivity|]. exists []. by rewrite app_nil_r.
Qed.

Lemma internal_run evs : forall s s',
  Forall internal evs -> run evs s = Some s' ->
  pending_steps s = length evs + pending_steps s' /\
  submitted s' = submitted s /\
  exists more, settled s' = settled s ++ more.
Proof.
  induction evs as [|e evs IH]; intros s s' Hall H; simpl in H.
  - injection H as <-. simpl. repeat split; auto. exists [].
    by rewrite app_nil_r.
  - destruct (step e s) as [s1|] eqn:Hs; [|discriminate].
    inversion Hall as [|? ? He Hrest]; subst.
    destruct (internal_step _ _ _ He Hs) as (Hm & Hsub & more1 & Hset).
    destruct (IH _ _ Hrest H) as (Hm' & Hsub' & more2 & Hset').
    simpl. split; [lia|]. split; [congruence|].
    exists (more1 ++ more2). rewrite Hset', Hset. by rewrite app_assoc.
Qed.

(** When no event of the runtime is possible, nothing is started or
    waiting for its [finally] callback. *)
Lemma quiescent_idle s :
  (forall e, internal e -> step e s = None) ->
  executing s = [] /\ finishing s = [].
Proof.
  intros Hq. split.
  - destruct (executing s) as [|t exe] eqn:He; [reflexivity|].
    specialize (Hq (Settle t (resolve "done")) I). simpl in Hq.
    rewrite He in Hq. simpl in Hq. by rewrite decide_True in Hq.
  - destruct (finishing s) as [|t fin] eqn:He; [reflexivity|].
    specialize (Hq (Finally t) I). simpl in Hq.
    rewrite He in Hq. simpl in Hq. by rewrite decide_True in Hq.
Qed.

Lemma settlements_NoDup s : inv s -> NoDup (map fst (settled s)).
Proof.
  intros Hi. pose proof (inv_tasks _ Hi) as Ht.
  assert (Hnd : NoDup (queue s ++ executing s ++ map fst (settled s))).
  { rewrite Ht. apply NoDup_seq. }
  apply NoDup_app in Hnd as (_ & _ & Hnd).
  apply NoDup_app in Hnd as (_ & _ & Hnd). exact Hnd.
Qed.

Lemma settlements_unique (l : list (nat * settlement)) t :
  NoDup (map fst l) -> length (filter (fun p => fst p = t) l) <= 1.
Proof.
  induction l as [|[t' o] l IH]; intros Hnd; simpl; [lia|].
  apply NoDup_cons in Hnd as [Hnotin Hnd].
  rewrite filter_cons. simpl. destruct (decide (t' = t)) as [->|].
  - simpl. assert (filter (fun p => fst p = t) l = []) as ->; [|simpl; lia].
    destruct (filter (fun p => fst p = t) l) as [|[t1 o1] k] eqn:Hfil;
      [reflexivity|].
    assert (Hin : (t1, o1) ∈ filter (fun p : nat * settlement => fst p = t) l)
      by (rewrite Hfil; left).
    apply list_elem_of_filter in Hin as [Heq Hin]. simpl in Heq. subst.
    exfalso. apply Hnotin. apply list_elem_of_fmap. exists (t, o1). auto.
  - auto.
Qed.

Lemma settlements_present (l : list (nat * settlement)) t :
  t ∈ map fst l -> 1 <= length (filter (fun p => fst p = t) l).
Proof.
  induction l as [|[t' o] l IH]; intros Hin; simpl in *.
  - inversion Hin.
  - rewrite filter_cons. simpl. destruct (decide (t' = t)); simpl; [lia|].
    apply elem_of_cons in Hin as [->|Hin]; [congruence|]. auto.
Qed.

Lemma settle_records t o s s1 :
  inv s -> step (Settle t o) s = Some s1 -> handle_settlements t s1 = [o].
Proof.
  intros Hi H. simpl in H.
  destruct (remove_first t (executing s)) as [exe|] eqn:Hr; [|discriminate].
  injection H as <-. unfold handle_settlements. simpl.
  rewrite filter_app, filter_cons_True, filter_nil by reflexivity.
  assert (filter (fun p => fst p = t) (settled s) = []) as ->; [|reflexivity].
  destruct (filter (fun p => fst p = t) (settled s)) as [|[t1 o1] k] eqn:Hfil;
    [reflexivity|].
  assert (Hin : (t1, o1) ∈ filter (fun p : nat * settlement => fst p = t)
                  (settled s)) by (rewrite Hfil; left).
  apply list_elem_of_filter in Hin as [Heq Hin]. simpl in Heq. subst.
  exfalso.
  assert (Hnd : NoDup (queue s ++ executing s ++ map fst (settled s))).
  { rewrite (inv_tasks _ Hi). apply NoDup_seq. }
  apply NoDup_app in Hnd as (_ & _ & Hnd).
  apply NoDup_app in Hnd as (_ & Hdisj & _).
  apply (Hdisj t).
  - rewrite (remove_first_perm _ _ _ Hr). left.
  - apply list_elem_of_fmap. exists (t, o1). auto.
Qed.

(** C3.  After any sequence of [add] calls and runtime events, at most
    [maxConcurrent = 5] submitted tasks are executing, and no handle has
    been settled more than once; a task whose promise settles with [o]
    has its handle settled with that [o].  From there on the runtime can
    take at most [pending_steps] further steps (each started task's
    promise settling, each [finally] callback running), and once none is
    left to take, the handle of every submitted task has been settled
    exactly once. *)
Theorem queue_bounded_and_settles_once (evs : list event) (s : state) :
  run evs init = Some s ->
  length (executing s) <= maxConcurrent /\
  (forall t, length (handle_settlements t s) <= 1) /\
  (forall t o s1,
     step (Settle t o) s = Some s1 -> handle_settlements t s1 = [o]) /\
  (forall evs' s',
     Forall internal evs' -> run evs' s = Some s' ->
     length evs' <= pending_steps s /\
     ((forall e, internal e -> step e s' = None) ->
      forall t, t < submitted s -> length (handle_settlements t s') = 1)).
Proof.
  intros Hrun. pose proof (run_inv _ _ _ init_inv Hrun) as Hi.
  split; [|split; [|split]].
  - pose proof (inv_count _ Hi). pose proof (inv_bound _ Hi). lia.
  - intros t. unfold handle_settlements. rewrite length_map.
    apply settlements_unique, settlements_NoDup, Hi.
  - intros t o s1. by apply settle_records.
  - intros evs' s' Hall Hrun'.
    destruct (internal_run _ _ _ Hall Hrun') as (Hm & Hsub & _).
    split; [lia|]. intros Hq t Ht.
    pose proof (run_inv _ _ _ Hi Hrun') as Hi'.
    destruct (quiescent_idle _ Hq) as [He Hf].
    pose proof (inv_count _ Hi') as Hc. rewrite He, Hf in Hc. simpl in Hc.
    pose proof (inv_tasks _ Hi') as Hperm.
    destruct (inv_full _ Hi') as [Hqe|Hfull];
      [|unfold maxConcurrent in Hfull; lia].
    rewrite Hqe, He in Hperm. simpl in Hperm.
    unfold handle_settlements. rewrite length_map.
    apply Nat.le_antisymm.
    + apply settlements_unique, settlements_NoDup, Hi'.
    + apply settlements_present. rewrite Hperm, Hsub.
      apply elem_of_seq. lia.
Qed.

End RequestQueueProperties.

(** The sample history: five tasks are started at once, the sixth is
    started when the first has finished, the seventh waits. *)
Lemma queue_bounded_and_settles_once_witness :
  RequestQueue.run RequestQueue.sample_history RequestQueue.init
    = Some RequestQueue.sample_state /\
  length (RequestQueue.executing RequestQueue.sample_state)
    <= RequestQueue.maxConcurrent.
Proof.
  split; [reflexivity|].
  exact (proj1 (queue_bounded_and_settles_once RequestQueue.sample_history
                  RequestQueue.sample_state eq_refl)).
Defined.

(** ** The facade never throws *)

Lemma returns_ret {A : Type} (P : A -> Prop) (a : A) : P a -> returns P (mret a).
Proof. intros H w a' w' Heq. injection Heq as <- _. exact H. Qed.


Lemma returns_bind {A B : Type} (P : B -> Prop) (m : M A) (f : A -> M B) :
  (forall a, returns P (f a)) -> returns P (m ≫= f).
Proof.
  intros H w b w' Heq. unfold mbind, M_bind in Heq.
  destruct (m w) as [[a|e] w1]; [|discriminate]. eapply H, Heq.
Qed.

Lemma try_catch_never_throws {A : Type} (P : A -> Prop) (body : M A)
    (handler : thrown -> M A) :
  returns P body ->
  (forall e w, exists a w', handler e w = (Ok a, w') /\ P a) ->
  forall w, exists a w', try_catch body handler w = (Ok a, w') /\ P a.
Proof.
  intros Hb Hh w. unfold try_catch.
  destruct (body w) as [[a|e] w1] eqn:Heq.
  - exists a, w1. split; [reflexivity|]. eapply Hb, Heq.
  - apply Hh.
Qed.

Lemma failure_shape {T : Type} (d : T) (e : thrown) (fallback : string) w :
  exists a w',
    (mret (mkApiResponse d (Some (error_message e fallback)) false) : M _) w
      = (Ok a, w') /\ well_shaped a.
Proof.
  eexists _, _. split; [reflexivity|]. right. simpl. eauto.
Qed.

Lemma success_shape {T : Type} (d : T) :
  returns well_shaped (mret (mkApiResponse d None true)).
Proof. apply returns_ret. left. auto. Qed.

Lemma createConversation_total keys title w :
  exists r w',
    api.createConversation keys title w = (Ok r, w') /\ well_shaped r.
Proof.
  apply try_catch_never_throws; [|intros; apply failure_shape].
  apply returns_bind. intros a. apply success_shape.
Qed.


Lemma getMessages_total keys conversationId limit offset w :
  exists r w',
    api.getMessages keys conversationId limit offset w = (Ok r, w')
    /\ well_shaped r.
Proof.
  apply try_catch_never_throws; [|intros; apply failure_shape].
  apply returns_bind. intros [[l|l]|];
    try (apply returns_bind; intros result; apply returns_bind; intros _);
    apply success_shape.
Qed.

Lemma sendMessage_total conversationId content w :
  exists r w',
    api.sendMessage conversationId content w = (Ok r, w') /\ well_shaped r.
Proof.
  apply try_catch_never_throws; [|intros; apply failure_shape].
  apply returns_bind. intros a. apply success_shape.
Qed.

(** ** Calls without a session *)

Local Arguments api.page_key : simpl never.
Local Arguments cache_get_at : simpl never.
Local Arguments cache_set_at : simpl never.
Local Arguments cache_delete_at : simpl never.
Local Arguments query_messages : simpl never.
Local Arguments query_conversations : simpl never.
Local Arguments error_message : simpl never.
Local Arguments pretty : simpl never.
Local Arguments String.append : simpl never.
Local Arguments retry_delay : simpl never.
Local Arguments Qfloor : simpl never.
Local Arguments Z.to_N : simpl never.
Local Arguments N.add : simpl never.
Local Arguments N.leb : simpl never.

(** Unfolds an asynchronous computation down to the world it acts on. *)
Ltac unfold_async :=
  unfold api.createConversation, api.getConversations, api.getMessages,
    api.sendMessage, api.createConversation_task, api.getConversations_task,
    api.getMessages_task, api.sendMessage_task, api.sendMessage_completion,
    requestQueue_add, db_select_messages, db_select_conversations,
    db_insert_message, db_insert_conversation, db_request, auth_getUser,
    fetch_completion, await_completion, response_json, issue_update,
    current_session, next_db_outcome, log_event, cache_get, cache_set,
    cache_delete, try_catch, throw, mbind, M_bind, mret, M_ret,
    set_now, set_session, set_conversations, set_messages, set_next_id,
    set_cache, set_db_script, set_ai_script, set_random, set_deferred,
    set_log in *.






(** ** One attempt per call; the retry helper *)

Ltac unfold_retry :=
  unfold withRetry, retry_loop, backoff, math_random, sleep, advance in *.







(** ** Cache invalidation after a send *)

Lemma length_append (a b : string) :
  String.length (a +:+ b) = String.length a + String.length b.
Proof. induction a as [|c a IH]; simpl; [reflexivity|]. by rewrite IH. Qed.

Lemma append_longer (a b : string) : b <> EmptyString -> a +:+ b <> a.
Proof.
  intros Hb Heq. apply Hb.
  assert (Hlen : String.length (a +:+ b) = String.length a) by (by rewrite Heq).
  rewrite length_append in Hlen.
  destruct b; [reflexivity|]. simpl in Hlen. lia.
Qed.

(** The key [sendMessage] deletes is never the key of a page of the same
    conversation. *)
Lemma page_key_not_base keys conversationId limit offset :
  api.page_key keys conversationId limit offset
    <> ck_messages keys conversationId.
Proof. unfold api.page_key. apply append_longer. discriminate. Qed.

Lemma sendMessage_leaves_cache conversationId content w r w1 :
  api.sendMessage conversationId content w = (Ok r, w1) ->
  w_cache w1 = w_cache w /\
  (success r = true ->
   exists t, w_deferred w1 = w_deferred w ++ [(conversationId, t)]).
Proof.
  destruct w as [now sess convs msgs nid cache dbs ais rnd dfr lg].
  unfold_async. cbn.
  destruct dbs as [|[|e|e] dbs]; cbn;
    try (intros H; injection H as <- <-; split; [reflexivity|discriminate]);
    (destruct ais as [|[elapsed [e|status [e|response]]] ais]; cbn;
     try (intros H; injection H as <- <-; split; [reflexivity|discriminate]);
     destruct (request_timeout <=? elapsed)%N; cbn;
     try (intros H; injection H as <- <-; split; [reflexivity|discriminate]);
     destruct (http_ok status); cbn;
     try (intros H; injection H as <- <-; split; [reflexivity|discriminate]);
     try destruct dbs as [|[|e|e] dbs]; cbn;
     intros H; injection H as <- <-; split;
     try reflexivity; try discriminate; eauto).
Qed.

(** Whatever the key builders, a page cached before a successful send is
    still served after it, before and after the pending timestamp update
    has completed, for as long as its TTL runs. *)
Lemma cached_page_survives_send keys conversationId content limit offset
    page expiry w r w1 :
  w_deferred w = [] ->
  w_cache w !! api.page_key keys conversationId limit offset
    = Some (mkCacheEntry (VMessages page) expiry) ->
  api.sendMessage conversationId content w = (Ok r, w1) ->
  success r = true ->
  forall w2 dt,
    w2 = tick dt w1 \/ w2 = tick dt (api.settle_update keys w1) ->
    (w_now w2 <= expiry)%N ->
    api.getMessages keys conversationId limit offset w2
      = (Ok (mkApiResponse page None true), w2).
Proof.
  intros Hd Hc Hsend Hok w2 dt Hw2 Hlive.
  destruct (sendMessage_leaves_cache _ _ _ _ _ Hsend) as [Hcache Hdef].
  destruct (Hdef Hok) as [t Hdef']. rewrite Hd in Hdef'. simpl in Hdef'.
  assert (Hc2 : w_cache w2 !! api.page_key keys conversationId limit offset
                = Some (mkCacheEntry (VMessages page) expiry)).
  { destruct Hw2 as [->| ->]; simpl.
    - by rewrite Hcache.
    - unfold api.settle_update. rewrite Hdef'.
      unfold next_db_outcome.
      destruct (w_db_script (set_deferred [] w1)) as [|[|e|e] dbs]; simpl;
        unfold cache_delete_at;
        rewrite ?lookup_delete_ne by (apply not_eq_sym, page_key_not_base);
        by rewrite Hcache. }
  unfold api.getMessages, try_catch, mbind, M_bind, cache_get, cache_get_at.
  rewrite Hc2. simpl. apply N.leb_le in Hlive. rewrite Hlive. reflexivity.
Qed.

(** C1 (the code departs from it).  The page of conversation "c1" is
    cached under "messages:c1:50:0"; a send on "c1" succeeds and its
    timestamp update completes, which deletes the key "messages:c1"; five
    seconds later [getMessages("c1", 50, 0)] still returns the page cached
    before the send, one message long, while the table holds three
    messages of "c1". *)
Theorem stale_page_served_after_send :
  (exists m, fst (api.sendMessage "c1" "Hello" page_loaded)
             = Ok (mkApiResponse (Some m) None true)) /\
  w_cache page_loaded !! "messages:c1:50:0"
    = Some (mkCacheEntry (VMessages [first_message]) 61000) /\
  w_cache five_seconds_later !! "messages:c1:50:0"
    = Some (mkCacheEntry (VMessages [first_message]) 61000) /\
  api.getMessages sample_keys "c1" 50 0 five_seconds_later
    = (Ok (mkApiResponse [first_message] None true), five_seconds_later) /\
  length (query_messages "c1" 0 50 (w_messages five_seconds_later)) = 3.
Proof.
  split; [eexists; vm_compute; reflexivity|].
  repeat split; vm_compute; reflexivity.
Qed.

(** ** Switching conversations while a load is in flight *)

(** C4, as the code has it.  [loadMessages] applies a response without
    looking at the current conversation.  With a load for A in flight
    when the selection moves to B, the store ends up showing the messages
    of the successful response that arrived last: A's when A's response
    is the late one, B's when B's is; the selection stays B.  A failed
    late response only sets the error and leaves B's messages. *)
Theorem last_response_wins (s : ChatState) (convA convB : Conversation)
    (rA rB : ApiResponse (list Message)) :
  success rB = true ->
  let switched :=
    setCurrentConversation (Some convB)
      (setCurrentConversation (Some convA) s) in
  let A_late := loadMessages_resume (Ok rA) (loadMessages_resume (Ok rB) switched) in
  let B_late := loadMessages_resume (Ok rB) (loadMessages_resume (Ok rA) switched) in
  s_currentConversation A_late = Some convB /\
  (success rA = true -> s_messages A_late = data rA) /\
  (success rA = false -> s_messages A_late = data rB) /\
  s_currentConversation B_late = Some convB /\
  s_messages B_late = data rB.
Proof.
  intros HB. unfold loadMessages_resume, setCurrentConversation. simpl.
  rewrite HB. simpl. destruct (success rA); simpl; rewrite ?HB; simpl;
    repeat split; auto; discriminate.
Qed.

Lemma last_response_wins_witness :
  success (mkApiResponse [messageB] None true) = true /\
  s_messages
    (loadMessages_resume (Ok (mkApiResponse [messageA] None true))
       (loadMessages_resume (Ok (mkApiResponse [messageB] None true))
          (setCurrentConversation (Some chatB)
             (setCurrentConversation (Some chatA) initialState))))
  = [messageA].
Proof.
  split; [reflexivity|].
  exact (proj1 (proj2 (last_response_wins initialState chatA chatB
                         (mkApiResponse [messageA] None true)
                         (mkApiResponse [messageB] None true) eq_refl))
           eq_refl).
Defined.

(** C4 as stated fails: both loads settled, B selected, A's messages
    shown. *)
Lemma late_answer_clobbers_selection :
  responseA = Ok (mkApiResponse [messageA] None true) /\
  responseB = Ok (mkApiResponse [messageB] None true) /\
  s_currentConversation late_answer_for_A = Some chatB /\
  s_isLoading late_answer_for_A = false /\
  s_messages late_answer_for_A = [messageA] /\
  s_messages late_answer_for_A <> [messageB].
Proof. vm_compute. repeat split. discriminate. Qed.

(** ** Temporary ids *)

Lemma without_id_app tempId (l k : list Message) :
  without_id tempId (l ++ k) = without_id tempId l ++ without_id tempId k.
Proof. unfold without_id. apply filter_app. Qed.

Lemma without_id_same (temp : Message) :
  without_id (m_id temp) [temp] = [].
Proof.
  unfold without_id. rewrite filter_cons_False; [reflexivity|]. intros H.
  by apply H.
Qed.

Lemma without_id_absent tempId (l : list Message) :
  Forall (fun m => m_id m <> tempId) l -> without_id tempId l = l.
Proof.
  induction 1 as [|m l Hm _ IH]; [reflexivity|].
  unfold without_id in *. rewrite filter_cons_True by exact Hm. by rewrite IH.
Qed.

(** C10, as the code has it.  The optimistic message is
    [(temp-user-<now>, conversationId, content, user, now)]: its id depends
    on the clock alone, so two sends in the same millisecond carry the same
    id.  After both were appended, the id filter of either send removes
    both wherever it is applied.  On rollback (exception, failure result,
    or null payload) it is applied to [messages] and [optimisticMessages].
    On reconciliation with a single reply it is applied to
    [optimisticMessages] only: the reply is appended to [messages], where
    both optimistic messages stay.  The facade returns one message or
    null, never an array, so whatever it returns the store ends in one of
    these two ways, and [optimisticMessages] loses both.  (The branch for
    an array payload filters [messages] too, and adds the server's
    pair.) *)
Theorem same_millisecond_ids_collide (now : N)
    (conversationId1 content1 conversationId2 content2 : string)
    (s : ChatState) :
  let temp1 := tempUserMessage now conversationId1 content1 in
  let temp2 := tempUserMessage now conversationId2 content2 in
  let both := sendMessage_begin temp2 (sendMessage_begin temp1 s) in
  temp1 = mkMessage ("temp-user-" +:+ pretty now) conversationId1 content1
            user now /\
  m_id temp1 = m_id temp2 /\
  s_messages both = s_messages s ++ [temp1; temp2] /\
  s_optimisticMessages both = s_optimisticMessages s ++ [temp1; temp2] /\
  (forall e, both_filtered temp1 s (sendMessage_resume temp1 (Throw e) both)) /\
  (forall d err,
     both_filtered temp1 s
       (sendMessage_resume temp1 (Ok (mkApiResponse d err false)) both)) /\
  (forall err,
     both_filtered temp1 s
       (sendMessage_resume temp1 (Ok (mkApiResponse DNull err true)) both)) /\
  (forall userMessage aiMessage err,
     let s' := sendMessage_resume temp1
                 (Ok (mkApiResponse (DPair userMessage aiMessage) err true))
                 both in
     s_messages s'
       = without_id (m_id temp1) (s_messages s) ++ [userMessage; aiMessage] /\
     s_optimisticMessages s'
       = without_id (m_id temp1) (s_optimisticMessages s)) /\
  (forall aiMessage err,
     let s' := sendMessage_resume temp1
                 (Ok (mkApiResponse (DSingle aiMessage) err true)) both in
     s_messages s' = s_messages s ++ [temp1; temp2; aiMessage] /\
     s_optimisticMessages s'
       = without_id (m_id temp1) (s_optimisticMessages s)) /\
  (forall r : outcome (ApiResponse (option Message)),
     let s' := sendMessage_resume temp1 (send_response r) both in
     s_optimisticMessages s'
       = without_id (m_id temp1) (s_optimisticMessages s) /\
     (s_messages s' = without_id (m_id temp1) (s_messages s) \/
      exists aiMessage err,
        r = Ok (mkApiResponse (Some aiMessage) err true) /\
        s_messages s' = s_messages s ++ [temp1; temp2; aiMessage])).
Proof.
  intros temp1 temp2 both.
  assert (Hid : m_id temp2 = m_id temp1) by reflexivity.
  assert (Hboth : forall l,
            without_id (m_id temp1) ((l ++ [temp1]) ++ [temp2])
            = without_id (m_id temp1) l).
  { intros l.
    assert (H2 : without_id (m_id temp1) [temp2] = [])
      by (rewrite <- Hid; apply without_id_same).
    rewrite !without_id_app, without_id_same, H2. by rewrite !app_nil_r. }
  split; [reflexivity|]. split; [reflexivity|].
  split; [simpl; by rewrite <- app_assoc|].
  split; [simpl; by rewrite <- app_assoc|].
  repeat apply conj.
  - intros e. split; apply Hboth.
  - intros d err. unfold sendMessage_resume. simpl. split; apply Hboth.
  - intros err. split; apply Hboth.
  - intros userMessage aiMessage err. simpl.
    split; [f_equal|]; apply Hboth.
  - intros aiMessage err. simpl. split; [|apply Hboth].
    by rewrite <- !app_assoc.
  - intros [[[aiMessage|] err [|]]|e]; simpl;
      (split; [apply Hboth|]);
      try solve [left; apply Hboth].
    right. exists aiMessage, err. split; [reflexivity|].
    by rewrite <- !app_assoc.
Qed.

(** C10 as stated fails: the first of two sends of the same millisecond is
    answered by the facade, and after its reconciliation both optimistic
    messages are still in [messages]; the filter has emptied
    [optimisticMessages] only. *)
Lemma reconciliation_keeps_both_messages :
  m_id twin_first = m_id twin_second /\
  s_messages twins_pending = [twin_first; twin_second] /\
  (exists reply,
     twin_response = Ok (mkApiResponse (Some reply) None true) /\
     s_messages twins_reconciled = [twin_first; twin_second; reply]) /\
  s_optimisticMessages twins_reconciled = [] /\
  without_id (m_id twin_first) (s_messages twins_pending) = [] /\
  s_messages twins_reconciled
    <> without_id (m_id twin_first) (s_messages twins_pending).
Proof.
  split; [reflexivity|]. split; [reflexivity|]. split.
  { eexists. split; vm_compute; reflexivity. }
  split; [vm_compute; reflexivity|]. split; [vm_compute; reflexivity|].
  vm_compute. discriminate.
Qed.

(** ** Rollback of a failed send *)

(** When no message in the store carries the temporary id, the rollback
    of a failed send restores both sequences and records the error. *)
Lemma rollback_restores_when_fresh conversationId content s w :
  let temp := tempUserMessage (w_now w) conversationId content in
  Forall (fun m => m_id m <> m_id temp) (s_messages s) ->
  Forall (fun m => m_id m <> m_id temp) (s_optimisticMessages s) ->
  forall resp w',
    api.sendMessage conversationId content w = (Ok resp, w') ->
    success resp = false ->
    let s' := fst (sendMessage conversationId content s w) in
    s_messages s' = s_messages s /\
    s_optimisticMessages s' = s_optimisticMessages s /\
    s_error s' = error resp /\ (exists msg, s_error s' = Some msg) /\
    s_isTyping s' = false.
Proof.
  intros temp Hm Ho resp w' Hsend Hfail.
  assert (Hshape : exists msg, error resp = Some msg).
  { destruct (sendMessage_total conversationId content w)
      as (r & w1 & Heq & Hws).
    rewrite Hsend in Heq. injection Heq as <- <-.
    destruct Hws as [[Hs _]|[_ Hmsg]]; [congruence|exact Hmsg]. }
  unfold sendMessage. rewrite Hsend. unfold send_response, sendMessage_resume.
  simpl. rewrite Hfail. simpl.
  change ("temp-user-" +:+ pretty (w_now w)) with (m_id temp).
  rewrite !without_id_app, !without_id_same, !app_nil_r.
  rewrite !without_id_absent by assumption. auto.
Qed.

(** C5 (the code departs from it).  A first send is in flight, its
    optimistic message in the store; a second send issued in the same
    millisecond fails because the data service is unreachable.  The
    rollback records the error and removes the optimistic entry of the
    second send, and with it the still pending message of the first: the
    sequence after the rollback is empty, the sequence before the second
    send was not. *)
Theorem rollback_drops_pending_message :
  s_messages first_pending = [tempUserMessage 1000 "c1" "first"] /\
  fst (api.sendMessage "c1" "second" unreachable)
    = Ok (mkApiResponse None (Some "Failed to fetch") false) /\
  let s' := fst (sendMessage "c1" "second" first_pending unreachable) in
  s_error s' = Some "Failed to fetch" /\
  s_messages s' = [] /\
  s_optimisticMessages s' = [] /\
  s_messages s' <> s_messages first_pending.
Proof. vm_compute. repeat split. discriminate. Qed.

(** ** Order of the loaded messages *)

Global Instance created_at_le_total : Total created_at_le.
Proof. intros a b. unfold created_at_le. lia. Qed.

Global Instance created_at_le_trans : Transitive created_at_le.
Proof. intros a b c. unfold created_at_le. lia. Qed.

(** Every page the data service returns is ordered oldest first. *)
Lemma page_oldest_first conversationId offset limit table :
  oldest_first (query_messages conversationId offset limit table).
Proof.
  unfold oldest_first, query_messages.
  apply StronglySorted_Sorted.
  set (sorted := merge_sort created_at_le _).
  assert (Hs : StronglySorted created_at_le sorted)
    by (apply StronglySorted_merge_sort; apply _).
  rewrite <- (take_drop offset sorted) in Hs.
  apply StronglySorted_app_1_r in Hs.
  rewrite <- (take_drop limit (drop offset sorted)) in Hs.
  by apply StronglySorted_app_1_l in Hs.
Qed.

(** [loadMoreMessages] puts the page it receives in front of the messages
    it had. *)
Lemma loadMoreMessages_prepends keys conversationId s w :
  s_isLoading s = false ->
  forall resp w',
    api.getMessages keys conversationId 50 (s_messageOffset s) w
      = (Ok resp, w') ->
    success resp = true ->
    s_messages (fst (loadMoreMessages keys conversationId s w))
      = data resp ++ s_messages s.
Proof.
  intros Hl resp w' Hget Hok.
  unfold loadMoreMessages, loadMoreMessages_begin. rewrite Hl, Hget.
  unfold loadMoreMessages_resume. rewrite Hok. reflexivity.
Qed.

(** C6 (the code departs from it).  A conversation of 51 messages:
    [loadMessages] shows the 50 oldest, oldest first; [loadMoreMessages]
    then fetches the page at offset 50, which holds the newest message,
    and puts it in front: the store holds all 51 messages without
    duplicates, beginning with the message created at time 51 followed by
    the one created at time 1, and is not ordered oldest first. *)
Theorem loadMore_breaks_order :
  let '(s1, w1) := loadMessages sample_keys "c1" initialState long_chat in
  let '(s2, w2) := loadMoreMessages sample_keys "c1" s1 w1 in
  oldest_first (s_messages s1) /\
  map m_created_at (s_messages s1) = map N.of_nat (seq 1 50) /\
  s_hasMoreMessages s1 = true /\
  map m_created_at (s_messages s2) = 51%N :: map N.of_nat (seq 1 50) /\
  NoDup (s_messages s2) /\
  ~ oldest_first (s_messages s2).
Proof.
  destruct (loadMessages sample_keys "c1" initialState long_chat)
    as [s1 w1] eqn:H1.
  destruct (loadMoreMessages sample_keys "c1" s1 w1) as [s2 w2] eqn:H2.
  vm_compute in H1. injection H1 as <- <-.
  vm_compute in H2. injection H2 as <- <-.
  unfold oldest_first. repeat split; try (vm_compute; reflexivity).
  - apply (bool_decide_unpack _). vm_compute. exact I.
  - apply (bool_decide_unpack _). vm_compute. exact I.
  - intros Hsorted. apply (bool_decide_pack _) in Hsorted.
    vm_compute in Hsorted. exact Hsorted.
Qed.

(** ** A failed send leaves the user message behind *)

(** C9 as stated fails in its last part: the page of "c1" was cached when
    the conversation was opened; the send times out after 30 s, the user
    message "Hello" stays in the table, and the next load of the
    conversation, within the cache's minute, shows the cached page
    without it. *)
Lemma next_load_may_miss_the_message :
  s_error (fst send_timed_out) = Some "The operation was aborted." /\
  s_messages (fst send_timed_out) = [first_message] /\
  w_messages (snd reloaded)
    = [first_message; mkMessage "msg-1" "c1" "Hello" user 1000] /\
  w_now (snd reloaded) = 31000%N /\
  s_messages (fst reloaded) = [first_message] /\
  ~ mkMessage "msg-1" "c1" "Hello" user 1000 ∈ s_messages (fst reloaded).
Proof.
  vm_compute. repeat split.
  intros H. apply list_elem_of_In in H. simpl in H.
  destruct H as [H|[]]. discriminate H.
Qed.

Ltac close_send :=
  solve [ cbn; rewrite <- ?app_assoc;
          eexists _, _, _; repeat split; try reflexivity; cbn; eauto ].

Lemma failed_send_keeps_user_row conversationId content w :
  fails_after_user_insert w = true ->
  exists resp w' more,
    api.sendMessage conversationId content w = (Ok resp, w') /\
    success resp = false /\
    (exists msg, error resp = Some msg) /\
    w_messages w' = w_messages w ++ [user_row conversationId content w] /\
    w_cache w' = w_cache w /\
    w_deferred w' = w_deferred w /\
    w_log w' = w_log w
      ++ EvQueueAdd :: EvInsertMessage conversationId content user
         :: EvFetchCompletion conversationId content :: more.
Proof.
  destruct w as [now sess convs msgs nid cache dbs ais rnd dfr lg].
  unfold fails_after_user_insert, next_served, completion_fails, user_row.
  unfold_async. cbn.
  destruct dbs as [|[|e|e] dbs]; cbn; try discriminate.
  - destruct ais as [|[elapsed [e|status [e|response]]] ais]; cbn;
      try (intros _; close_send);
      destruct (request_timeout <=? elapsed)%N; cbn;
      try (intros _; close_send);
      destruct (http_ok status); cbn; try (intros _; close_send);
      discriminate.
  - destruct ais as [|[elapsed [e|status [e|response]]] ais]; cbn;
      try (intros _; close_send);
      destruct (request_timeout <=? elapsed)%N; cbn;
      try (intros _; close_send);
      destruct (http_ok status); cbn; try (intros _; close_send);
      destruct dbs as [|[|e|e] dbs]; cbn; try discriminate;
      intros _; close_send.
Qed.

Lemma first_page_contains conversationId (row : Message) (table : list Message) :
  length (filter (fun m => m_conversation_id m = conversationId) table) < 50 ->
  m_conversation_id row = conversationId ->
  row ∈ query_messages conversationId 0 50 (table ++ [row]).
Proof.
  intros Hlen Hrow. unfold query_messages. rewrite drop_0.
  rewrite filter_app, filter_cons_True, filter_nil by exact Hrow.
  rewrite take_ge.
  - rewrite merge_sort_Permutation. apply elem_of_app. right. left.
  - rewrite merge_sort_Permutation, length_app. simpl. lia.
Qed.

(** A load that misses the cache and is served shows the first page of
    the table. *)
Lemma loadMessages_from_backend keys conversationId s w :
  next_served w = true ->
  (forall l, cache_get_at (w_now w) (api.page_key keys conversationId 50 0)
               (w_cache w) <> Some (VMessages l)) ->
  s_messages (fst (loadMessages keys conversationId s w))
    = query_messages conversationId 0 50 (w_messages w).
Proof.
  destruct w as [now sess convs msgs nid cache dbs ais rnd dfr lg].
  unfold loadMessages, loadMessages_begin, loadMessages_resume, next_served.
  unfold_async. cbn. intros Hserved Hmiss.
  destruct (cache_get_at now _ cache) as [[l|l]|]; cbn;
    try (exfalso; eapply Hmiss; reflexivity);
    destruct dbs as [|[|e|e] dbs]; try discriminate; reflexivity.
Qed.

(** C9, as the code has it.  When the user message has been stored and the
    completion call then fails (timeout included), or storing the reply
    fails, [api.sendMessage] reports a failure and leaves the user's row in
    the table: the insert precedes the completion call, nothing removes
    the row, and the cache is not touched.  The store's rollback restores
    the sequence from before the send (no message carrying the temporary
    id being present), so the table holds a user message the store does
    not.  A later load of the conversation shows it when that load misses
    the cache, is served, and the conversation had fewer than 50 messages
    (the first page is the 50 oldest). *)
Theorem failed_send_leaves_user_message (keys : CacheKeys)
    (conversationId content : string) (s : ChatState) (w : World) :
  fails_after_user_insert w = true ->
  Forall (fun m => m_id m
                   <> m_id (tempUserMessage (w_now w) conversationId content))
    (s_messages s ++ s_optimisticMessages s) ->
  let row := user_row conversationId content w in
  let s' := fst (sendMessage conversationId content s w) in
  let w' := snd (sendMessage conversationId content s w) in
  w_messages w' = w_messages w ++ [row] /\
  (exists more,
     w_log w' = w_log w
       ++ EvQueueAdd :: EvInsertMessage conversationId content user
          :: EvFetchCompletion conversationId content :: more) /\
  w_cache w' = w_cache w /\
  s_messages s' = s_messages s /\
  s_optimisticMessages s' = s_optimisticMessages s /\
  (exists msg, s_error s' = Some msg) /\
  (forall s2 w2,
     w_messages w2 = w_messages w' ->
     next_served w2 = true ->
     (forall l, cache_get_at (w_now w2)
                  (api.page_key keys conversationId 50 0) (w_cache w2)
                <> Some (VMessages l)) ->
     length (filter (fun m => m_conversation_id m = conversationId)
               (w_messages w)) < 50 ->
     row ∈ s_messages (fst (loadMessages keys conversationId s2 w2))).
Proof.
  intros Hfail Hfresh row s' w'.
  apply Forall_app in Hfresh as [Hm Ho].
  destruct (failed_send_keeps_user_row conversationId content w Hfail)
    as (resp & w1 & more & Hsend & Hf & Hmsg & Hrow & Hcache & _ & Hlog).
  destruct (rollback_restores_when_fresh conversationId content s w Hm Ho
              resp w1 Hsend Hf) as (Hs1 & Hs2 & _ & Herr & _).
  assert (Hw' : w' = w1).
  { unfold w', sendMessage. by rewrite Hsend. }
  rewrite Hw'. repeat split; eauto.
  intros s2 w2 Hsame Hserved Hmiss Hlen.
  rewrite loadMessages_from_backend by assumption.
  rewrite Hsame, Hrow. by apply first_page_contains.
Qed.

Lemma failed_send_leaves_user_message_witness :
  fails_after_user_insert no_answer = true /\
  w_messages (snd (sendMessage "c1" "Hello" initialState no_answer))
    = w_messages no_answer ++ [user_row "c1" "Hello" no_answer].
Proof.
  split; [reflexivity|].
  exact (proj1 (failed_send_leaves_user_message sample_keys "c1" "Hello"
                  initialState no_answer eq_refl (Forall_nil_2 _))).
Defined.

(** ** The facade never throws, and reports what happened *)

Ltac shape :=
  first [ left; split; reflexivity
        | right; split; [reflexivity | eexists; reflexivity] ].

Ltac settle_call :=
  eexists _, _; split; [reflexivity|]; split; [shape | reflexivity].

Lemma createConversation_outcome keys title w :
  exists r w',
    api.createConversation keys title w = (Ok r, w') /\ well_shaped r /\
    success r = createConversation_succeeds w.
Proof.
  destruct w as [now sess convs msgs nid cache dbs ais rnd dfr lg].
  unfold createConversation_succeeds, has_session, serves. simpl.
  unfold_async. cbn.
  destruct sess as [uid|];
    destruct dbs as [|[|e|e] [|[|e2|e2] dbs]]; cbn; settle_call.
Qed.

Lemma getConversations_outcome keys w :
  exists r w',
    api.getConversations keys w = (Ok r, w') /\ well_shaped r /\
    success r = getConversations_succeeds keys w.
Proof.
  destruct w as [now sess convs msgs nid cache dbs ais rnd dfr lg].
  unfold getConversations_succeeds, conversations_cached, has_session, serves.
  simpl. unfold_async. cbn.
  destruct sess as [uid|];
    destruct dbs as [|[|e|e] [|[|e2|e2] dbs]]; cbn;
    try destruct (cache_get_at now (ck_conversations keys uid) cache)
      as [[l|l]|]; cbn; settle_call.
Qed.

Lemma getMessages_outcome keys conversationId limit offset w :
  exists r w',
    api.getMessages keys conversationId limit offset w = (Ok r, w') /\
    well_shaped r /\
    success r = getMessages_succeeds keys conversationId limit offset w.
Proof.
  destruct w as [now sess convs msgs nid cache dbs ais rnd dfr lg].
  unfold getMessages_succeeds, page_cached, serves. simpl.
  unfold_async. cbn.
  destruct (cache_get_at now (api.page_key keys conversationId limit offset)
              cache) as [[l|l]|];
    destruct dbs as [|[|e|e] dbs]; cbn; settle_call.
Qed.

Lemma sendMessage_outcome conversationId content w :
  exists r w',
    api.sendMessage conversationId content w = (Ok r, w') /\ well_shaped r /\
    success r = sendMessage_succeeds w.
Proof.
  destruct w as [now sess convs msgs nid cache dbs ais rnd dfr lg].
  unfold sendMessage_succeeds, completion_fails, serves. simpl.
  unfold_async. cbn.
  destruct dbs as [|[|e|e] [|[|e2|e2] dbs]]; cbn;
    try solve [settle_call];
    (destruct ais as [|[elapsed [e3|status [e3|response]]] ais]; cbn;
     try solve [settle_call];
     destruct (request_timeout <=? elapsed)%N; cbn;
     try solve [settle_call];
     destruct (http_ok status); cbn; settle_call).
Qed.

(** C8.  Each of the four facade operations, on every input and in every
    world (whatever the session, the tables, the cache and the fate of the
    backend and completion calls, thrown errors and timeout included),
    returns a result [{data, error?, success}] and never throws.  The
    result is a success without an error exactly on the success path, and
    a failure with an error string on every other path: when the user is
    not signed in (for the two operations that ask), when the data service
    answers one of the operation's requests with an error or rejects it,
    and when the completion call fails (no answer within the timeout, a
    network failure, a status outside 200-299, a body that is not JSON). *)
Theorem facade_total (keys : CacheKeys) (w : World) :
  (forall title, exists r w',
     api.createConversation keys title w = (Ok r, w') /\ well_shaped r /\
     success r = createConversation_succeeds w) /\
  (exists r w',
     api.getConversations keys w = (Ok r, w') /\ well_shaped r /\
     success r = getConversations_succeeds keys w) /\
  (forall conversationId limit offset, exists r w',
     api.getMessages keys conversationId limit offset w = (Ok r, w') /\
     well_shaped r /\
     success r = getMessages_succeeds keys conversationId limit offset w) /\
  (forall conversationId content, exists r w',
     api.sendMessage conversationId content w = (Ok r, w') /\
     well_shaped r /\
     success r = sendMessage_succeeds w).
Proof.
  split; [|split; [|split]].
  - intros title. apply createConversation_outcome.
  - apply getConversations_outcome.
  - intros conversationId limit offset. apply getMessages_outcome.
  - intros conversationId content. apply sendMessage_outcome.
Qed.

(** * Further properties of the code *)

(** ** Request queue: order of starts, use of the slots, stable handles *)

Section RequestQueueOrder.
Import RequestQueue.

Lemma process_waiting_in_order s :
  waiting_in_order s -> waiting_in_order (process s).
Proof.
  intros (k & Hsub & Hq). unfold process.
  destruct (processing s || (maxConcurrent <=? currentRequests s));
    [by exists k|].
  destruct (start_requests (queue s) (currentRequests s) (executing s))
    as [[q cur] exe] eqn:Ha.
  destruct (start_requests_spec _ _ _ _ _ _ Ha)
    as (moved & Hmq & _ & _ & _ & _).
  unfold waiting_in_order. simpl.
  exists (k + length moved).
  rewrite Hmq, length_app in Hsub. split; [lia|].
  rewrite Hmq, length_app, seq_app in Hq.
  apply app_inj_1 in Hq as [_ Hq]; [exact Hq|by rewrite length_seq].
Qed.

Lemma step_waiting_in_order e s s' :
  waiting_in_order s -> step e s = Some s' -> waiting_in_order s'.
Proof.
  intros Hw H. destruct e as [|t o|t]; simpl in H.
  - injection H as <-. apply process_waiting_in_order.
    destruct Hw as (k & Hsub & Hq). exists k. simpl.
    rewrite length_app. simpl. split; [lia|].
    rewrite Nat.add_1_r, seq_S, <- Hq, <- Hsub. reflexivity.
  - destruct (remove_first t (executing s)); [|discriminate].
    injection H as <-. exact Hw.
  - destruct (remove_first t (finishing s)); [|discriminate].
    injection H as <-. apply process_waiting_in_order. exact Hw.
Qed.

Lemma run_waiting_in_order evs : forall s s',
  waiting_in_order s -> run evs s = Some s' -> waiting_in_order s'.
Proof.
  induction evs as [|e evs IH]; intros s s' Hw H; simpl in H.
  - injection H as <-. exact Hw.
  - destruct (step e s) as [s1|] eqn:Hs; [|discriminate].
    eapply IH; [|exact H]. eapply step_waiting_in_order; eauto.
Qed.

(** X1.  Requests are started in the order of their [add] calls: after any
    sequence of events the waiting queue holds exactly the tasks
    [k .. submitted-1], in that order, and every task numbered below [k]
    has been started (it is executing or its handle is settled), so no
    task ever overtakes an earlier one. *)
Theorem queue_starts_in_submission_order (evs : list event) (s : state) :
  run evs init = Some s ->
  exists k,
    submitted s = k + length (queue s) /\
    queue s = seq k (length (queue s)) /\
    forall t, t < k <-> t ∈ executing s ++ map fst (settled s).
Proof.
  intros Hrun.
  assert (Hw : waiting_in_order s).
  { eapply run_waiting_in_order; [|exact Hrun]. by exists 0. }
  pose proof (run_inv _ _ _ init_inv Hrun) as Hi.
  destruct Hw as (k & Hsub & Hq). exists k. split; [exact Hsub|].
  split; [exact Hq|]. intros t.
  pose proof (inv_tasks _ Hi) as Hperm.
  assert (Hnd : NoDup (queue s ++ executing s ++ map fst (settled s))).
  { rewrite Hperm. apply NoDup_seq. }
  apply NoDup_app in Hnd as (_ & Hdisj & _).
  assert (Hall : t < submitted s <->
                 t ∈ queue s ++ executing s ++ map fst (settled s)).
  { rewrite Hperm, elem_of_seq. lia. }
  rewrite elem_of_app in Hall.
  assert (Hinq : t ∈ queue s <-> k <= t < submitted s).
  { rewrite Hq at 1. rewrite elem_of_seq. lia. }
  split.
  - intros Hlt. destruct (proj1 Hall ltac:(lia)) as [Hin|Hin]; [|exact Hin].
    apply Hinq in Hin. lia.
  - intros Hin. destruct (decide (t < k)) as [|Hge]; [assumption|].
    exfalso. apply (Hdisj t); [|exact Hin].
    apply Hinq. split; [lia|]. apply Hall. by right.
Qed.

Lemma queue_starts_in_submission_order_witness :
  run sample_history init = Some sample_state /\
  exists k,
    submitted sample_state = k + length (queue sample_state) /\
    queue sample_state = seq k (length (queue sample_state)) /\
    forall t, t < k <->
      t ∈ executing sample_state ++ map fst (settled sample_state).
Proof.
  split; [reflexivity|].
  exact (queue_starts_in_submission_order sample_history sample_state eq_refl).
Defined.

(** X2.  The queue never leaves a slot idle while a request waits, and its
    counter is exact: after any sequence of events [processing] is false,
    [currentRequests] counts the requests that were started and whose
    [finally] callback has not run, a non-empty queue means all
    [maxConcurrent] slots are taken, and whenever a [finally] callback
    runs the counter is positive, so the decrement never takes it below
    zero. *)
Theorem queue_uses_every_slot (evs : list event) (s : state) :
  run evs init = Some s ->
  processing s = false /\
  currentRequests s = length (executing s) + length (finishing s) /\
  (queue s <> [] -> currentRequests s = maxConcurrent) /\
  (forall t s', step (Finally t) s = Some s' -> 0 < currentRequests s).
Proof.
  intros Hrun. pose proof (run_inv _ _ _ init_inv Hrun) as Hi.
  destruct Hi as [Hp Hc Hb Hf Ht]. repeat split; auto.
  - intros Hne. destruct Hf as [Hq|Hfull]; [contradiction|lia].
  - intros t s' Hstep. simpl in Hstep.
    destruct (remove_first t (finishing s)) as [fin|] eqn:Hr; [|discriminate].
    apply remove_first_length in Hr. lia.
Qed.

Lemma queue_uses_every_slot_witness :
  run sample_history init = Some sample_state /\
  (queue sample_state <> [] -> currentRequests sample_state = maxConcurrent).
Proof.
  split; [reflexivity|].
  exact (proj1 (proj2 (proj2
           (queue_uses_every_slot sample_history sample_state eq_refl)))).
Defined.

Lemma run_keeps_settlements evs : forall s s',
  run evs s = Some s' -> exists more, settled s' = settled s ++ more.
Proof.
  induction evs as [|e evs IH]; intros s s' H; simpl in H.
  - injection H as <-. exists []. by rewrite app_nil_r.
  - destruct (step e s) as [s1|] eqn:Hs; [|discriminate].
    destruct (IH _ _ H) as [more2 Hset2].
    assert (Hset1 : exists more1, settled s1 = settled s ++ more1).
    { destruct e as [|t o|t].
      - simpl in Hs. injection Hs as <-.
        match goal with |- context [process ?x] =>
          destruct (process_moves x) as (_ & _ & Hset & _) end.
        exists []. rewrite Hset. simpl. by rewrite app_nil_r.
      - destruct (internal_step (Settle t o) s s1 I Hs) as (_ & _ & Hm).
        exact Hm.
      - destruct (internal_step (Finally t) s s1 I Hs) as (_ & _ & Hm).
        exact Hm. }
    destruct Hset1 as [more1 Hset1].
    exists (more1 ++ more2). rewrite Hset2, Hset1. by rewrite app_assoc.
Qed.

Lemma settlement_only_one (l : list (nat * settlement)) t o :
  NoDup (map fst l) -> (t, o) ∈ l ->
  map snd (filter (fun p => fst p = t) l) = [o].
Proof.
  induction l as [|[t' o'] l IH]; intros Hnd Hin; [inversion Hin|].
  simpl in Hnd. apply NoDup_cons in Hnd as [Hnotin Hnd].
  rewrite filter_cons. simpl. apply elem_of_cons in Hin as [Heq|Hin].
  - injection Heq as <- <-. rewrite decide_True by reflexivity. simpl.
    f_equal.
    destruct (filter (fun p => fst p = t) l) as [|[t1 o1] k] eqn:Hfil;
      [reflexivity|].
    assert (Hin1 : (t1, o1) ∈ filter (fun p : nat * settlement => fst p = t) l)
      by (rewrite Hfil; left).
    apply list_elem_of_filter in Hin1 as [Heq Hin1]. simpl in Heq. subst.
    exfalso. apply Hnotin. apply list_elem_of_fmap. exists (t, o1). auto.
  - destruct (decide (t' = t)) as [->|]; [|auto].
    exfalso. apply Hnotin. apply list_elem_of_fmap. exists (t, o). auto.
Qed.

(** X3.  A handle keeps its outcome: once the handle of task [t] has been
    settled with [o], it shows exactly [o] after any further events,
    whatever is added and however the other tasks end.  In particular a
    task that fails rejects its own handle only. *)
Theorem settled_handle_is_stable (evs evs' : list event) (s s' : state)
    (t : nat) (o : settlement) :
  run evs init = Some s ->
  (t, o) ∈ settled s ->
  run evs' s = Some s' ->
  handle_settlements t s' = [o].
Proof.
  intros Hrun Hin Hrun'.
  pose proof (run_inv _ _ _ init_inv Hrun) as Hi.
  pose proof (run_inv _ _ _ Hi Hrun') as Hi'.
  destruct (run_keeps_settlements _ _ _ Hrun') as [more Hmore].
  unfold handle_settlements. apply settlement_only_one.
  - by apply settlements_NoDup.
  - rewrite Hmore. apply elem_of_app. by left.
Qed.

Lemma settled_handle_is_stable_witness :
  run sample_history init = Some sample_state /\
  (0, resolve "ok") ∈ settled sample_state /\
  handle_settlements 0
    (mkState [6] false 5 [2; 3; 4; 5] [1]
       [(0, resolve "ok"); (1, reject (ErrorObj "boom"))] 7)
  = [resolve "ok"].
Proof.
  split; [reflexivity|]. split; [left|].
  exact (settled_handle_is_stable sample_history
           [Settle 1 (reject (ErrorObj "boom"))] sample_state _ 0
           (resolve "ok") eq_refl ltac:(left) eq_refl).
Defined.

End RequestQueueOrder.

(** ** Facade: what is cached, and for how long *)

Lemma getMessages_miss keys conversationId limit offset w :
  page_missing keys conversationId limit offset w ->
  api.getMessages keys conversationId limit offset w
  = match w_db_script w with
    | [] | Served :: _ =>
        let page := query_messages conversationId offset limit (w_messages w) in
        (Ok (mkApiResponse page None true),
         mkWorld (w_now w) (w_session w) (w_conversations w) (w_messages w)
           (w_next_id w)
           (cache_set_at (w_now w)
              (api.page_key keys conversationId limit offset)
              (VMessages page) (60 * 1000) (w_cache w))
           (tail (w_db_script w)) (w_ai_script w) (w_random w) (w_deferred w)
           (w_log w ++ [EvQueueAdd;
                        EvSelectMessages conversationId offset limit]))
    | ReplyError e :: rest | Rejected e :: rest =>
        (Ok (mkApiResponse []
               (Some (error_message e "Failed to fetch messages")) false),
         mkWorld (w_now w) (w_session w) (w_conversations w) (w_messages w)
           (w_next_id w) (w_cache w) rest (w_ai_script w) (w_random w)
           (w_deferred w)
           (w_log w ++ [EvQueueAdd;
                        EvSelectMessages conversationId offset limit]))
    end.
Proof.
  destruct w as [now sess convs msgs nid cache dbs ais rnd dfr lg].
  unfold page_missing. unfold_async. cbn. intros Hmiss.
  destruct (cache_get_at now _ cache) as [[l|l]|]; cbn;
    try (exfalso; eapply Hmiss; reflexivity);
    destruct dbs as [|[|e|e] dbs]; cbn; rewrite <- ?app_assoc; reflexivity.
Qed.

Lemma getMessages_hit keys conversationId limit offset w page :
  cache_get_at (w_now w) (api.page_key keys conversationId limit offset)
    (w_cache w) = Some (VMessages page) ->
  api.getMessages keys conversationId limit offset w
  = (Ok (mkApiResponse page None true), w).
Proof.
  intros Hhit.
  unfold api.getMessages, try_catch, mbind, M_bind, cache_get.
  rewrite Hhit. reflexivity.
Qed.

(** X4.  A page fetched from the data service is served from the cache for
    the next minute: any repeat of the same [getMessages] call within
    60000 ms returns the same result and changes nothing (no task is
    queued, no query is sent); a repeat after more than 60000 ms is queued
    and queries the data service again. *)
Theorem getMessages_cached_for_a_minute (keys : CacheKeys)
    (conversationId : string) (limit offset : nat) (w w1 : World)
    (r : ApiResponse (list Message)) :
  page_missing keys conversationId limit offset w ->
  api.getMessages keys conversationId limit offset w = (Ok r, w1) ->
  success r = true ->
  (forall dt, (dt <= 60000)%N ->
     api.getMessages keys conversationId limit offset (tick dt w1)
     = (Ok r, tick dt w1)) /\
  (forall dt, (60000 < dt)%N ->
     w_log (snd (api.getMessages keys conversationId limit offset
                   (tick dt w1)))
     = w_log w1 ++ [EvQueueAdd; EvSelectMessages conversationId offset limit]).
Proof.
  intros Hmiss Hget Hok. rewrite (getMessages_miss _ _ _ _ _ Hmiss) in Hget.
  assert (Hr : r = mkApiResponse (data r) None true /\
               w_now w1 = w_now w /\
               w_cache w1 = cache_set_at (w_now w)
                 (api.page_key keys conversationId limit offset)
                 (VMessages (data r)) (60 * 1000) (w_cache w)).
  { destruct (w_db_script w) as [|[|e|e] rest];
      injection Hget as <- <-; try discriminate Hok; auto. }
  destruct Hr as (Hr & Hnow & Hcache).
  destruct r as [d er su]. simpl in Hr, Hcache. injection Hr as -> ->. split.
  - intros dt Hdt. apply getMessages_hit.
    unfold tick. simpl. rewrite Hcache, Hnow.
    unfold cache_get_at, cache_set_at. rewrite lookup_insert_eq. simpl.
    replace (w_now w + dt <=? w_now w + 60 * 1000)%N with true; [reflexivity|].
    symmetry. apply N.leb_le. lia.
  - intros dt Hdt. rewrite getMessages_miss.
    + unfold tick. simpl. destruct (w_db_script w1) as [|[|e|e] rest];
        reflexivity.
    + intros l. unfold tick. simpl. rewrite Hcache, Hnow.
      unfold cache_get_at, cache_set_at. rewrite lookup_insert_eq. simpl.
      replace (w_now w + dt <=? w_now w + 60 * 1000)%N with false;
        [discriminate|].
      symmetry. apply N.leb_gt. lia.
Qed.

Lemma getMessages_cached_for_a_minute_witness :
  page_missing sample_keys "c1" 50 0 chatting /\
  forall dt, (dt <= 60000)%N ->
    api.getMessages sample_keys "c1" 50 0 (tick dt page_loaded)
    = (Ok (mkApiResponse [first_message] None true), tick dt page_loaded).
Proof.
  assert (Hmiss : page_missing sample_keys "c1" 50 0 chatting)
    by (intros l H; vm_compute in H; discriminate H).
  split; [exact Hmiss|].
  exact (proj1 (getMessages_cached_for_a_minute sample_keys "c1" 50 0
                  chatting page_loaded
                  (mkApiResponse [first_message] None true)
                  Hmiss eq_refl eq_refl)).
Defined.

Lemma cache_lookup_cases now key c :
  (exists l, cache_get_at now key c = Some (VMessages l)) \/
  (forall l, cache_get_at now key c <> Some (VMessages l)).
Proof.
  destruct (cache_get_at now key c) as [[l|l]|]; eauto; right; discriminate.
Qed.

Lemma getMessages_failure_cache keys conversationId limit offset w r w' :
  api.getMessages keys conversationId limit offset w = (Ok r, w') ->
  success r = false -> w_cache w' = w_cache w.
Proof.
  intros Hget Hfail.
  destruct (cache_lookup_cases (w_now w)
              (api.page_key keys conversationId limit offset) (w_cache w))
    as [[l Hhit]|Hmiss].
  - rewrite (getMessages_hit _ _ _ _ _ _ Hhit) in Hget.
    injection Hget as <- <-. discriminate Hfail.
  - rewrite (getMessages_miss _ _ _ _ _ Hmiss) in Hget.
    destruct (w_db_script w) as [|[|e|e] rest]; injection Hget as <- <-;
      try discriminate Hfail; reflexivity.
Qed.

Lemma getConversations_failure_cache keys w r w' :
  api.getConversations keys w = (Ok r, w') ->
  success r = false -> w_cache w' = w_cache w.
Proof.
  destruct w as [now sess convs msgs nid cache dbs ais rnd dfr lg].
  unfold_async. cbn.
  destruct dbs as [|[|e|e] dbs]; cbn;
    try (intros H _; injection H as <- <-; reflexivity);
    (destruct sess as [uid|]; cbn;
     try (intros H _; injection H as <- <-; reflexivity);
     destruct (cache_get_at now _ cache) as [[l|l]|]; cbn;
     try (intros H Hf; injection H as <- <-; discriminate Hf);
     try destruct dbs as [|[|e|e] dbs]; cbn;
     intros H Hf; injection H as <- <-;
     try discriminate Hf; reflexivity).
Qed.

Lemma createConversation_failure_cache keys title w r w' :
  api.createConversation keys title w = (Ok r, w') ->
  success r = false -> w_cache w' = w_cache w.
Proof.
  destruct w as [now sess convs msgs nid cache dbs ais rnd dfr lg].
  unfold_async. cbn.
  destruct dbs as [|[|e|e] dbs]; cbn;
    try (intros H _; injection H as <- <-; reflexivity);
    (destruct sess as [uid|]; cbn;
     try (intros H _; injection H as <- <-; reflexivity);
     try destruct dbs as [|[|e|e] dbs]; cbn;
     intros H Hf; injection H as <- <-;
     try discriminate Hf; reflexivity).
Qed.

(** X5.  Failures are never cached: whenever [getMessages],
    [getConversations], [createConversation] or [sendMessage] returns a
    failure result, the cache holds exactly what it held before the call,
    so the next call asks the backend again (and a failed
    [createConversation] invalidates nothing). *)
Theorem failed_call_leaves_cache (keys : CacheKeys) (w w' : World) :
  (forall conversationId limit offset r,
     api.getMessages keys conversationId limit offset w = (Ok r, w') ->
     success r = false -> w_cache w' = w_cache w) /\
  (forall r,
     api.getConversations keys w = (Ok r, w') ->
     success r = false -> w_cache w' = w_cache w) /\
  (forall title r,
     api.createConversation keys title w = (Ok r, w') ->
     success r = false -> w_cache w' = w_cache w) /\
  (forall conversationId content r,
     api.sendMessage conversationId content w = (Ok r, w') ->
     success r = false -> w_cache w' = w_cache w).
Proof.
  repeat split.
  - intros. eapply getMessages_failure_cache; eauto.
  - intros. eapply getConversations_failure_cache; eauto.
  - intros. eapply createConversation_failure_cache; eauto.
  - intros conversationId content r Hsend _.
    apply (sendMessage_leaves_cache _ _ _ _ _ Hsend).
Qed.

Lemma failed_call_leaves_cache_witness :
  success (mkApiResponse ([] : list Message) (Some "connection reset") false)
    = false /\
  w_cache (snd (api.getMessages sample_keys "c1" 50 0 one_outage))
    = w_cache one_outage.
Proof.
  split; [reflexivity|].
  exact (proj1 (failed_call_leaves_cache sample_keys one_outage
                  (snd (api.getMessages sample_keys "c1" 50 0 one_outage)))
           "c1" 50 0
           (mkApiResponse [] (Some "connection reset") false)
           eq_refl eq_refl).
Defined.

(** ** Facade: what the queries return *)

Global Instance updated_at_ge_total : Total updated_at_ge.
Proof. intros a b. unfold updated_at_ge. lia. Qed.

Global Instance updated_at_ge_trans : Transitive updated_at_ge.
Proof. intros a b c. unfold updated_at_ge. lia. Qed.


Lemma drop_StronglySorted {A : Type} (R : relation A) n (l : list A) :
  StronglySorted R l -> StronglySorted R (drop n l).
Proof.
  intros Hs. rewrite <- (take_drop n l) in Hs.
  by apply StronglySorted_app_1_r in Hs.
Qed.

Lemma query_messages_facts conversationId offset limit table :
  let page := query_messages conversationId offset limit table in
  length page <= limit /\
  Forall (fun m => m_conversation_id m = conversationId /\ m ∈ table) page /\
  oldest_first page.
Proof.
  simpl. split; [|split].
  - unfold query_messages. rewrite length_take. lia.
  - apply Forall_forall. intros m Hin. unfold query_messages in Hin.
    apply subseteq_take, subseteq_drop in Hin.
    rewrite merge_sort_Permutation in Hin.
    apply list_elem_of_filter in Hin. exact Hin.
  - apply page_oldest_first.
Qed.


(** X6.  A page that is not in the cache, fetched from a data service that
    serves the request: [getMessages] succeeds with at most [limit]
    messages, all of the requested conversation and all rows of the
    table, ordered oldest first; an offset at or beyond the number of the
    conversation's messages gives an empty page, still a success; the
    tables are left as they were. *)
Theorem getMessages_returns_ordered_page (keys : CacheKeys)
    (conversationId : string) (limit offset : nat) (w : World) :
  page_missing keys conversationId limit offset w ->
  next_served w = true ->
  exists page w',
    api.getMessages keys conversationId limit offset w
      = (Ok (mkApiResponse page None true), w') /\
    length page <= limit /\
    Forall (fun m => m_conversation_id m = conversationId
                     /\ m ∈ w_messages w) page /\
    oldest_first page /\
    (length (filter (fun m => m_conversation_id m = conversationId)
               (w_messages w)) <= offset -> page = []) /\
    w_messages w' = w_messages w /\
    w_conversations w' = w_conversations w.
Proof.
  intros Hmiss Hserved. rewrite (getMessages_miss _ _ _ _ _ Hmiss).
  unfold next_served in Hserved.
  destruct (w_db_script w) as [|[|e|e] rest]; try discriminate Hserved;
    (eexists _, _; split; [reflexivity|];
     destruct (query_messages_facts conversationId offset limit (w_messages w))
       as (Hlen & Hall & Hsorted);
     repeat split; auto;
     intros Hshort; unfold query_messages;
     rewrite drop_ge; [apply take_nil|];
     by rewrite merge_sort_Permutation).
Qed.

Lemma getMessages_returns_ordered_page_witness :
  page_missing sample_keys "c1" 50 0 chatting /\
  next_served chatting = true /\
  exists page w',
    api.getMessages sample_keys "c1" 50 0 chatting
      = (Ok (mkApiResponse page None true), w') /\
    length page <= 50.
Proof.
  assert (Hmiss : page_missing sample_keys "c1" 50 0 chatting)
    by (intros l H; vm_compute in H; discriminate H).
  split; [exact Hmiss|]. split; [reflexivity|].
  destruct (getMessages_returns_ordered_page sample_keys "c1" 50 0 chatting
              Hmiss eq_refl) as (page & w' & Hget & Hlen & _).
  exists page, w'. split; [exact Hget|exact Hlen].
Defined.





(** ** Facade: creating a conversation *)

Lemma createConversation_served keys uid title w :
  w_session w = Some uid ->
  serves 2 w = true ->
  api.createConversation keys title w
  = (Ok (mkApiResponse (Some (conversation_row uid title w)) None true),
     mkWorld (w_now w) (w_session w)
       (w_conversations w ++ [conversation_row uid title w]) (w_messages w)
       (w_next_id w + 1)%N
       (cache_delete_at (ck_conversations keys uid) (w_cache w))
       (drop 2 (w_db_script w)) (w_ai_script w) (w_random w) (w_deferred w)
       (w_log w ++ [EvQueueAdd; EvAuthGetUser;
                    EvInsertConversation uid title])).
Proof.
  destruct w as [now sess convs msgs nid cache dbs ais rnd dfr lg].
  unfold serves, conversation_row. unfold_async. cbn.
  intros -> Hserved.
  destruct dbs as [|[|e|e] [|[|e2|e2] dbs]]; try discriminate Hserved; cbn;
    rewrite <- ?app_assoc; reflexivity.
Qed.




(** ** Facade: a send that succeeds *)

Lemma sendMessage_served conversationId content w elapsed status response
    ais :
  w_ai_script w
    = mkCompletion elapsed (HttpResponse status (JsonReply response)) :: ais ->
  (elapsed < request_timeout)%N ->
  http_ok status = true ->
  serves 2 w = true ->
  api.sendMessage conversationId content w
  = (Ok (mkApiResponse
           (Some (reply_row conversationId response elapsed w)) None true),
     mkWorld (w_now w + elapsed)%N (w_session w) (w_conversations w)
       (w_messages w
          ++ [user_row conversationId content w;
              reply_row conversationId response elapsed w])
       (w_next_id w + 1 + 1)%N (w_cache w) (drop 2 (w_db_script w)) ais
       (w_random w)
       (w_deferred w ++ [(conversationId, (w_now w + elapsed)%N)])
       (w_log w
          ++ [EvQueueAdd; EvInsertMessage conversationId content user;
              EvFetchCompletion conversationId content;
              EvInsertMessage conversationId response assistant;
              EvUpdateConversation conversationId])).
Proof.
  destruct w as [now sess convs msgs nid cache dbs ais0 rnd dfr lg].
  unfold serves, user_row, reply_row. simpl.
  intros -> Hlt Hok Hserved.
  apply N.leb_gt in Hlt.
  unfold_async. cbn.
  destruct dbs as [|[|e|e] [|[|e2|e2] dbs]]; try discriminate Hserved; cbn;
    rewrite Hlt; cbn; rewrite Hok; cbn; rewrite <- ?app_assoc; reflexivity.
Qed.

(** X9.  When the data service serves both inserts and the completion
    endpoint answers in time with a 2xx status and a JSON reply,
    [api.sendMessage] returns the assistant's row as a success; the table
    gains the user's row and then the assistant's row, both of the given
    conversation, the reply stamped [elapsed] ms after the user's message;
    the calls leave in the order insert, completion, insert, timestamp
    update; the update is left pending and the cache is not touched
    before the call returns. *)
Theorem successful_send_persists_both (conversationId content : string)
    (w : World) (elapsed status : N) (response : string)
    (ais : list Completion) :
  w_ai_script w
    = mkCompletion elapsed (HttpResponse status (JsonReply response)) :: ais ->
  (elapsed < request_timeout)%N ->
  http_ok status = true ->
  serves 2 w = true ->
  let userMessage := user_row conversationId content w in
  let aiMessage := reply_row conversationId response elapsed w in
  exists w',
    api.sendMessage conversationId content w
      = (Ok (mkApiResponse (Some aiMessage) None true), w') /\
    w_messages w' = w_messages w ++ [userMessage; aiMessage] /\
    w_now w' = (w_now w + elapsed)%N /\
    w_deferred w'
      = w_deferred w ++ [(conversationId, (w_now w + elapsed)%N)] /\
    w_cache w' = w_cache w /\
    w_log w' = w_log w
      ++ [EvQueueAdd; EvInsertMessage conversationId content user;
          EvFetchCompletion conversationId content;
          EvInsertMessage conversationId response assistant;
          EvUpdateConversation conversationId].
Proof.
  intros Hai Hlt Hok Hserved userMessage aiMessage.
  rewrite (sendMessage_served _ _ _ _ _ _ _ Hai Hlt Hok Hserved).
  eexists. repeat split; reflexivity.
Qed.

Lemma successful_send_persists_both_witness :
  w_ai_script chatting
    = [mkCompletion 800 (HttpResponse 200 (JsonReply "Hello! How can I help?"))]
  /\ (800 < request_timeout)%N /\ http_ok 200 = true /\
  serves 2 chatting = true /\
  exists w',
    api.sendMessage "c1" "Hello" chatting
      = (Ok (mkApiResponse
               (Some (reply_row "c1" "Hello! How can I help?" 800 chatting))
               None true), w') /\
    w_messages w'
      = w_messages chatting
          ++ [user_row "c1" "Hello" chatting;
              reply_row "c1" "Hello! How can I help?" 800 chatting].
Proof.
  assert (Hlt : (800 < request_timeout)%N) by (vm_compute; reflexivity).
  split; [reflexivity|]. split; [exact Hlt|]. split; [reflexivity|].
  split; [reflexivity|].
  destruct (successful_send_persists_both "c1" "Hello" chatting 800 200
              "Hello! How can I help?" [] eq_refl Hlt eq_refl eq_refl)
    as (w' & Hsend & Hmsgs & _).
  exists w'. split; [exact Hsend|exact Hmsgs].
Defined.

(** ** Facade: conversations with their message counts *)

Lemma counts_map (table : list Message) (l : list Conversation) :
  map (fun conv : Conversation * list nat =>
         (fst conv, message_count (snd conv)))
    (map (fun c =>
            (c, [length (filter (fun m => m_conversation_id m = c_id c)
                           table)])) l)
  = map (fun c =>
           (c, length (filter (fun m => m_conversation_id m = c_id c) table)))
      l.
Proof. induction l as [|c l IH]; simpl; [reflexivity|]. by rewrite IH. Qed.

(** X10.  [getConversationsWithMessageCounts] never reads or writes the
    cache.  Without a session it returns a failure after the session
    lookup alone; for a signed-in user, with the data service serving, it
    returns the user's conversations exactly as [getConversations] reads
    them from the table (at most 30, most recently updated first), each
    paired with the number of its messages in the table at that
    moment. *)
Theorem counts_are_fresh (w : World) :
  (forall r w',
     getConversationsWithMessageCounts w = (Ok r, w') ->
     w_cache w' = w_cache w) /\
  (w_session w = None ->
   exists r w',
     getConversationsWithMessageCounts w = (Ok r, w') /\
     success r = false /\ w_log w' = w_log w ++ [EvAuthGetUser]) /\
  (forall uid,
     w_session w = Some uid -> serves 2 w = true ->
     exists w',
       getConversationsWithMessageCounts w
         = (Ok (mkApiResponse
                  (map (fun c =>
                          (c, length (filter (fun m => m_conversation_id m
                                                       = c_id c)
                                        (w_messages w))))
                     (query_conversations uid (w_conversations w)))
                  None true), w') /\
       w_log w' = w_log w
         ++ [EvAuthGetUser; EvQueueAdd; EvSelectConversations uid]).
Proof.
  destruct w as [now sess convs msgs nid cache dbs ais rnd dfr lg].
  unfold getConversationsWithMessageCounts,
    getConversationsWithMessageCounts_task,
    db_select_conversations_with_counts, serves.
  unfold_async. cbn. repeat apply conj.
  - intros r w'.
    destruct dbs as [|[|e|e] dbs]; cbn;
      try (intros H; injection H as <- <-; reflexivity);
      (destruct sess as [uid|]; cbn;
       try (intros H; injection H as <- <-; reflexivity);
       try destruct dbs as [|[|e|e] dbs]; cbn;
       intros H; injection H as <- <-; reflexivity).
  - intros ->. destruct dbs as [|[|e|e] dbs]; cbn; eauto.
  - intros uid -> Hserved.
    destruct dbs as [|[|e|e] [|[|e2|e2] dbs]]; try discriminate Hserved; cbn;
      rewrite counts_map, <- ?app_assoc; eexists; split; reflexivity.
Qed.

Lemma counts_are_fresh_witness :
  w_session chatting = Some "u1" /\ serves 2 chatting = true /\
  fst (getConversationsWithMessageCounts chatting)
  = Ok (mkApiResponse [(mkConversation "c1" "u1" "Chat" 400 500, 1)] None true).
Proof.
  split; [reflexivity|]. split; [reflexivity|].
  destruct (proj2 (proj2 (counts_are_fresh chatting)) "u1" eq_refl eq_refl)
    as (w' & Hget & _).
  rewrite Hget. reflexivity.
Defined.

(** ** The retry helper, for any number of retries *)

Lemma occurrences_app p l k :
  occurrences p (l ++ k) = occurrences p l + occurrences p k.
Proof. unfold occurrences. by rewrite List.filter_app, length_app. Qed.

Lemma getMessages_task_run conversationId limit offset w :
  api.getMessages_task conversationId limit offset w
  = let w' := mkWorld (w_now w) (w_session w) (w_conversations w)
                (w_messages w) (w_next_id w) (w_cache w)
                (tail (w_db_script w)) (w_ai_script w) (w_random w)
                (w_deferred w)
                (w_log w ++ [EvSelectMessages conversationId offset limit]) in
    match head (w_db_script w) ≫= failure_of with
    | Some e => (Throw e, w')
    | None =>
        (Ok (query_messages conversationId offset limit (w_messages w)), w')
    end.
Proof.
  destruct w as [now sess convs msgs nid cache dbs ais rnd dfr lg].
  unfold_async. cbn. destruct dbs as [|[|e|e] dbs]; reflexivity.
Qed.

Lemma backoff_run baseDelay attempt w :
  backoff baseDelay attempt w
  = let r := default 0%Q (head (w_random w)) in
    (Ok tt,
     mkWorld (w_now w + Z.to_N (Qfloor (retry_delay baseDelay attempt r)))%N
       (w_session w) (w_conversations w) (w_messages w) (w_next_id w)
       (w_cache w) (w_db_script w) (w_ai_script w) (tail (w_random w))
       (w_deferred w)
       (w_log w ++ [EvSleep (retry_delay baseDelay attempt r)])).
Proof.
  destruct w as [now sess convs msgs nid cache dbs ais rnd dfr lg].
  unfold_retry. unfold_async. cbn. destruct rnd as [|r rnd]; reflexivity.
Qed.

Lemma retry_loop_gives_up conversationId limit offset baseDelay remaining :
  forall attempt w fails rest,
    length fails = S remaining ->
    Forall (fun o => failure_of o <> None) fails ->
    w_db_script w = fails ++ rest ->
    exists e w' added,
      retry_loop (api.getMessages_task conversationId limit offset) baseDelay
        remaining attempt w = (Throw e, w') /\
      last fails ≫= failure_of = Some e /\
      w_db_script w' = rest /\
      w_messages w' = w_messages w /\
      w_log w' = w_log w ++ added /\
      occurrences is_select_messages added = S remaining /\
      occurrences is_sleep added = remaining.
Proof.
  induction remaining as [|remaining IH];
    intros attempt w fails rest Hlen Hall Hscript.
  - destruct fails as [|o [|o2 fails]]; try discriminate Hlen.
    apply Forall_cons in Hall as [Ho _].
    simpl. rewrite getMessages_task_run, Hscript. simpl.
    destruct (failure_of o) as [e|] eqn:Hf; [|contradiction].
    eexists e, _, _. repeat split; reflexivity.
  - destruct fails as [|o fails]; [discriminate Hlen|].
    apply Forall_cons in Hall as [Ho Hall]. injection Hlen as Hlen.
    simpl. rewrite getMessages_task_run, Hscript. simpl.
    destruct (failure_of o) as [e|] eqn:Hf; [|contradiction].
    unfold mbind, M_bind. rewrite backoff_run. simpl.
    match goal with |- context [retry_loop _ _ _ _ ?w1] =>
      destruct (IH (S attempt) w1 fails rest Hlen Hall eq_refl)
        as (e' & w' & added & Hrun & Hlast & Hs & Hm & Hlog & Hsel & Hsl)
    end.
    rewrite Hrun. eexists e', w', _. split; [reflexivity|].
    split.
    { destruct fails as [|o2 fails]; [discriminate Hlen|exact Hlast]. }
    split; [exact Hs|]. split; [exact Hm|]. split.
    { rewrite Hlog. simpl. rewrite <- !app_assoc. reflexivity. }
    rewrite !occurrences_app, Hsel, Hsl. split; reflexivity.
Qed.

Lemma retry_loop_recovers conversationId limit offset baseDelay :
  forall fails remaining attempt w rest,
    length fails <= remaining ->
    Forall (fun o => failure_of o <> None) fails ->
    w_db_script w = fails ++ Served :: rest ->
    exists w' added,
      retry_loop (api.getMessages_task conversationId limit offset) baseDelay
        remaining attempt w
      = (Ok (query_messages conversationId offset limit (w_messages w)), w') /\
      w_db_script w' = rest /\
      w_messages w' = w_messages w /\
      w_log w' = w_log w ++ added /\
      occurrences is_select_messages added = S (length fails) /\
      occurrences is_sleep added = length fails.
Proof.
  induction fails as [|o fails IH];
    intros remaining attempt w rest Hlen Hall Hscript.
  - destruct remaining; simpl; rewrite getMessages_task_run, Hscript; simpl;
      eexists _, _; repeat split; reflexivity.
  - destruct remaining as [|remaining]; [simpl in Hlen; lia|].
    apply Forall_cons in Hall as [Ho Hall]. simpl in Hlen.
    simpl. rewrite getMessages_task_run, Hscript. simpl.
    destruct (failure_of o) as [e|] eqn:Hf; [|contradiction].
    unfold mbind, M_bind. rewrite backoff_run. simpl.
    match goal with |- context [retry_loop _ _ _ _ ?w1] =>
      destruct (IH remaining (S attempt) w1 rest ltac:(lia) Hall eq_refl)
        as (w' & added & Hrun & Hs & Hm & Hlog & Hsel & Hsl)
    end.
    rewrite Hrun. simpl. eexists w', _. split; [reflexivity|].
    split; [exact Hs|]. split; [exact Hm|]. split.
    { rewrite Hlog. simpl. rewrite <- !app_assoc. reflexivity. }
    rewrite !occurrences_app, Hsel, Hsl. split; reflexivity.
Qed.

(** X11.  [withRetry] with any [maxRetries] and [baseDelay], applied to the
    messages query.  If the data service fails the next [maxRetries + 1]
    requests, the helper throws the error of the last of them after
    exactly [maxRetries + 1] queries and [maxRetries] pauses, and consumes
    no further answer.  If it fails [k <= maxRetries] requests and serves
    the next, the helper returns the page after [k + 1] queries and [k]
    pauses: it stops at the first success. *)
Theorem withRetry_attempts (conversationId : string) (limit offset : nat)
    (maxRetries : nat) (baseDelay : Q) (w : World)
    (fails rest : list DbOutcome) :
  Forall (fun o => failure_of o <> None) fails ->
  (length fails = S maxRetries ->
   w_db_script w = fails ++ rest ->
   exists e w' added,
     withRetry (api.getMessages_task conversationId limit offset) maxRetries
       baseDelay w = (Throw e, w') /\
     last fails ≫= failure_of = Some e /\
     w_db_script w' = rest /\
     w_log w' = w_log w ++ added /\
     occurrences is_select_messages added = S maxRetries /\
     occurrences is_sleep added = maxRetries) /\
  (length fails <= maxRetries ->
   w_db_script w = fails ++ Served :: rest ->
   exists w' added,
     withRetry (api.getMessages_task conversationId limit offset) maxRetries
       baseDelay w
     = (Ok (query_messages conversationId offset limit (w_messages w)), w') /\
     w_db_script w' = rest /\
     w_log w' = w_log w ++ added /\
     occurrences is_select_messages added = S (length fails) /\
     occurrences is_sleep added = length fails).
Proof.
  intros Hall. split.
  - intros Hlen Hscript.
    destruct (retry_loop_gives_up conversationId limit offset baseDelay
                maxRetries 0 w fails rest Hlen Hall Hscript)
      as (e & w' & added & Hrun & Hlast & Hs & _ & Hlog & Hsel & Hsl).
    exists e, w', added. unfold withRetry. auto 10.
  - intros Hlen Hscript.
    destruct (retry_loop_recovers conversationId limit offset baseDelay
                fails maxRetries 0 w rest Hlen Hall Hscript)
      as (w' & added & Hrun & Hs & _ & Hlog & Hsel & Hsl).
    exists w', added. unfold withRetry. auto 10.
Qed.

Lemma withRetry_attempts_witness :
  Forall (fun o => failure_of o <> None)
    [ReplyError (ErrorObj "connection reset")] /\
  length [ReplyError (ErrorObj "connection reset")] <= 4 /\
  exists w' added,
    withRetry (api.getMessages_task "c1" 50 0) 4 250 (set_db_script [ReplyError (ErrorObj "connection reset"); Served] signed_in)
      = (Ok (query_messages "c1" 0 50 (w_messages (set_db_script [ReplyError (ErrorObj "connection reset"); Served] signed_in))), w') /\
    w_db_script w' = [] /\
    w_log w' = w_log (set_db_script [ReplyError (ErrorObj "connection reset"); Served] signed_in) ++ added /\
    occurrences is_select_messages added = 2 /\
    occurrences is_sleep added = 1.
Proof.
  assert (Hall : Forall (fun o => failure_of o <> None)
                   [ReplyError (ErrorObj "connection reset")])
    by (repeat constructor; discriminate).
  assert (Hlen : length [ReplyError (ErrorObj "connection reset")] <= 4)
    by (simpl; lia).
  split; [exact Hall|]. split; [exact Hlen|].
  exact (proj2 (withRetry_attempts "c1" 50 0 4 250 (set_db_script [ReplyError (ErrorObj "connection reset"); Served] signed_in)
                  [ReplyError (ErrorObj "connection reset")] [] Hall)
           Hlen eq_refl).
Defined.

(** ** Store: pagination *)

Lemma append_inj_prefix (a b c : string) : a +:+ b = a +:+ c -> b = c.
Proof.
  induction a as [|x a IH]; simpl; intros H; [exact H|].
  injection H as H. by apply IH.
Qed.

Lemma page_key_inj_offset keys conversationId limit offset offset' :
  api.page_key keys conversationId limit offset
    = api.page_key keys conversationId limit offset' ->
  offset = offset'.
Proof.
  unfold api.page_key. intros H.
  do 4 apply append_inj_prefix in H.
  by apply (inj pretty) in H.
Qed.

(** With current pages and a serving data service, every page request of
    the conversation returns the table's page, hit or miss, and leaves
    the pages current. *)
Lemma getMessages_current keys conversationId offset w :
  pages_current keys conversationId w ->
  w_db_script w = [] ->
  exists w',
    api.getMessages keys conversationId 50 offset w
      = (Ok (mkApiResponse
               (query_messages conversationId offset 50 (w_messages w))
               None true), w') /\
    w_db_script w' = [] /\
    w_messages w' = w_messages w /\
    pages_current keys conversationId w'.
Proof.
  intros Hcur Hscript.
  destruct (cache_lookup_cases (w_now w)
              (api.page_key keys conversationId 50 offset) (w_cache w))
    as [[l Hhit]|Hmiss].
  - rewrite (getMessages_hit _ _ _ _ _ _ Hhit).
    rewrite <- (Hcur _ _ Hhit). eauto.
  - rewrite (getMessages_miss _ _ _ _ _ Hmiss), Hscript.
    eexists. split; [reflexivity|]. simpl. repeat split.
    intros offset' l. unfold pages_current in Hcur. simpl.
    unfold cache_get_at, cache_set_at.
    destruct (decide (api.page_key keys conversationId 50 offset
                      = api.page_key keys conversationId 50 offset'))
      as [Heq|Hne].
    + rewrite <- Heq, lookup_insert_eq. simpl.
      apply page_key_inj_offset in Heq as <-.
      destruct (w_now w <=? w_now w + 60 * 1000)%N; [|discriminate].
      intros H. by injection H as <-.
    + rewrite lookup_insert_ne by exact Hne. apply Hcur.
Qed.

Local Arguments Nat.leb : simpl never.
Local Arguments Nat.mul : simpl never.
Local Arguments Nat.min : simpl never.
Local Arguments Nat.eqb : simpl never.
Local Arguments take : simpl never.

(** The state of the store after the first page and [n] further pages. *)
Lemma pages_loaded keys conversationId n : forall s w,
  pages_current keys conversationId w ->
  w_db_script w = [] ->
  let all := conversation_messages conversationId (w_messages w) in
  let '(s', w') :=
    load_more_times n keys conversationId
      (fst (loadMessages keys conversationId s w))
      (snd (loadMessages keys conversationId s w)) in
  pages_current keys conversationId w' /\
  w_db_script w' = [] /\
  w_messages w' = w_messages w /\
  s_isLoading s' = false /\
  s_error s' = None /\
  s_messageOffset s' = min (50 * S n) (length all) /\
  s_hasMoreMessages s' = (50 * S n <=? length all) /\
  s_messages s' ≡ₚ take (50 * S n) all.
Proof.
  induction n as [|n IH]; intros s w Hcur Hscript all.
  - simpl. unfold loadMessages.
    destruct (getMessages_current keys conversationId 0 w Hcur Hscript)
      as (w' & Hget & Hs & Hm & Hc).
    rewrite Hget. unfold loadMessages_resume. simpl.
    unfold query_messages. rewrite drop_0.
    fold (conversation_messages conversationId (w_messages w)). fold all.
    rewrite length_take.
    split; [exact Hc|]. split; [exact Hs|]. split; [exact Hm|].
    split; [reflexivity|]. split; [reflexivity|].
    split; [lia|]. split; [|reflexivity].
    destruct (decide (50 <= length all)).
    + replace (50 * 1 <=? length all) with true
        by (symmetry; apply Nat.leb_le; lia).
      apply Nat.eqb_eq. lia.
    + replace (50 * 1 <=? length all) with false
        by (symmetry; apply Nat.leb_gt; lia).
      apply Nat.eqb_neq. lia.
  - specialize (IH s w Hcur Hscript). simpl in IH.
    cbn [load_more_times].
    destruct (load_more_times n keys conversationId
                (fst (loadMessages keys conversationId s w))
                (snd (loadMessages keys conversationId s w)))
      as [s1 w1].
    destruct IH as (Hc1 & Hs1 & Hm1 & Hl1 & He1 & Ho1 & Hh1 & Hp1).
    fold all in Ho1, Hh1, Hp1.
    unfold loadMoreMessages, loadMoreMessages_begin. rewrite Hl1.
    destruct (getMessages_current keys conversationId (s_messageOffset s1)
                w1 Hc1 Hs1) as (w2 & Hget & Hs2 & Hm2 & Hc2).
    rewrite Hget. unfold loadMoreMessages_resume. simpl.
    rewrite Hm1 in *. unfold query_messages.
    fold (conversation_messages conversationId (w_messages w)). fold all.
    rewrite Ho1, length_take, length_drop.
    split; [exact Hc2|]. split; [exact Hs2|]. split; [congruence|].
    split; [reflexivity|]. split; [exact He1|].
    split; [lia|]. split.
    + destruct (decide (50 * S (S n) <= length all)).
      * replace (50 * S (S n) <=? length all) with true
          by (symmetry; apply Nat.leb_le; lia).
        apply Nat.eqb_eq. lia.
      * replace (50 * S (S n) <=? length all) with false
          by (symmetry; apply Nat.leb_gt; lia).
        apply Nat.eqb_neq. lia.
    + rewrite Hp1, Permutation_app_comm.
      destruct (decide (50 * S n <= length all)) as [Hle|Hgt].
      * rewrite Nat.min_l by lia. rewrite take_take_drop. f_equiv. lia.
      * rewrite Nat.min_r by lia. rewrite drop_all, take_nil, app_nil_r.
        rewrite !take_ge by lia. reflexivity.
Qed.

(** X12.  Pagination reaches every message.  With a serving data service
    and no outdated page of the conversation in the cache, after
    [loadMessages] and [n] calls of [loadMoreMessages] the store holds
    exactly the [50 * (n + 1)] oldest messages of the conversation, each
    once (all of them if there are fewer), [messageOffset] is their
    number, and [hasMoreMessages] is true exactly when the conversation
    has at least [50 * (n + 1)] messages; so once [hasMoreMessages] is
    false the store holds every message of the conversation.  The table
    is not modified. *)
Theorem pagination_loads_every_message (keys : CacheKeys)
    (conversationId : string) (n : nat) (s : ChatState) (w : World) :
  pages_current keys conversationId w ->
  w_db_script w = [] ->
  let all := conversation_messages conversationId (w_messages w) in
  let '(s', w') :=
    load_more_times n keys conversationId
      (fst (loadMessages keys conversationId s w))
      (snd (loadMessages keys conversationId s w)) in
  s_messages s' ≡ₚ take (50 * S n) all /\
  s_messageOffset s' = min (50 * S n) (length all) /\
  s_hasMoreMessages s' = (50 * S n <=? length all) /\
  (s_hasMoreMessages s' = false ->
   s_messages s' ≡ₚ all /\ s_messageOffset s' = length all) /\
  s_isLoading s' = false /\
  w_messages w' = w_messages w.
Proof.
  intros Hcur Hscript all.
  pose proof (pages_loaded keys conversationId n s w Hcur Hscript) as H.
  simpl in H. fold all in H.
  destruct (load_more_times n keys conversationId
              (fst (loadMessages keys conversationId s w))
              (snd (loadMessages keys conversationId s w))) as [s' w'].
  destruct H as (_ & _ & Hm & Hl & _ & Ho & Hh & Hp).
  repeat split; auto.
  - rewrite Hp. rewrite Hh in H. apply Nat.leb_gt in H.
    rewrite take_ge by lia. reflexivity.
  - rewrite Ho. rewrite Hh in H. apply Nat.leb_gt in H. lia.
Qed.

Lemma pagination_loads_every_message_witness :
  pages_current sample_keys "c1" long_chat /\
  w_db_script long_chat = [] /\
  s_messageOffset
    (fst (load_more_times 1 sample_keys "c1"
            (fst (loadMessages sample_keys "c1" initialState long_chat))
            (snd (loadMessages sample_keys "c1" initialState long_chat))))
  = min (50 * 2)
      (length (conversation_messages "c1" (w_messages long_chat))).
Proof.
  assert (Hcur : pages_current sample_keys "c1" long_chat).
  { intros offset l H. unfold cache_get_at in H. simpl in H.
    rewrite lookup_empty in H. discriminate H. }
  split; [exact Hcur|]. split; [reflexivity|].
  pose proof (pagination_loads_every_message sample_keys "c1" 1 initialState
                long_chat Hcur eq_refl) as H.
  cbv zeta in H.
  destruct (load_more_times 1 sample_keys "c1"
              (fst (loadMessages sample_keys "c1" initialState long_chat))
              (snd (loadMessages sample_keys "c1" initialState long_chat)))
    as [s' w'].
  exact (proj1 (proj2 H)).
Defined.

(** ** Store: loads that fail, conversations that are created *)



Lemma createConversation_cases keys title w :
  (exists c w',
     api.createConversation keys title w
       = (Ok (mkApiResponse (Some c) None true), w') /\
     c_title c = title /\ c ∈ w_conversations w' /\
     w_session w = Some (c_user_id c)) \/
  (exists msg w',
     api.createConversation keys title w
       = (Ok (mkApiResponse None (Some msg) false), w') /\
     w_conversations w' = w_conversations w /\
     w_messages w' = w_messages w).
Proof.
  destruct w as [now sess convs msgs nid cache dbs ais rnd dfr lg].
  unfold_async. cbn.
  destruct dbs as [|[|e|e] dbs]; cbn;
    try solve [right; eexists _, _; repeat split; reflexivity];
    (destruct sess as [uid|]; cbn;
     try solve [right; eexists _, _; repeat split; reflexivity];
     try destruct dbs as [|[|e|e] dbs]; cbn;
     try solve [right; eexists _, _; repeat split; reflexivity];
     left; eexists _, _; repeat split;
     first [reflexivity | apply elem_of_app; right; left]).
Qed.

(** X14.  The store's [createConversation] either returns the created
    conversation or null.  If a conversation is returned, it carries the
    given title (or "New Conversation" when none was given), it is a row
    of the table, it has been put in front of the store's list and
    selected, and the message view has been reset (no messages, offset 0,
    no more pages, no pending optimistic message).  If null is returned,
    nothing was added to the table, the store's list, selection and
    messages are as before, and an error string is recorded.  In both
    cases [isLoading] ends false. *)
Theorem store_createConversation_outcomes (keys : CacheKeys)
    (title : option string) (s : ChatState) (w : World) :
  let '(result, s', w') := createConversation keys title s w in
  s_isLoading s' = false /\
  match result with
  | Some c =>
      c_title c = default "New Conversation" title /\
      c ∈ w_conversations w' /\
      s_conversations s' = c :: s_conversations s /\
      s_currentConversation s' = Some c /\
      s_messages s' = [] /\ s_messageOffset s' = 0 /\
      s_hasMoreMessages s' = false /\ s_optimisticMessages s' = [] /\
      s_error s' = None
  | None =>
      w_conversations w' = w_conversations w /\
      s_conversations s' = s_conversations s /\
      s_currentConversation s' = s_currentConversation s /\
      s_messages s' = s_messages s /\
      exists msg, s_error s' = Some msg
  end.
Proof.
  unfold createConversation.
  destruct (createConversation_cases keys (default "New Conversation" title) w)
    as [(c & w' & Hc & Ht & Hin & _)|(msg & w' & Hc & Hsame & _)];
    rewrite Hc; simpl; repeat split; eauto.
Qed.

(** ** Store: sends that succeed *)

(** X15.  A send that succeeds, in the store: with both inserts served and
    the completion answering in time with a 2xx JSON reply, the store's
    sequence is the one from before the send followed by the optimistic
    user message and the assistant's row.  The user's message stays in
    the store under its temporary id and client timestamp (the row the
    data service created for it is in the table only), the optimistic
    list no longer holds it, the error is cleared and [isTyping] is
    false. *)
Theorem store_send_success (conversationId content : string) (s : ChatState)
    (w : World) (elapsed status : N) (response : string)
    (ais : list Completion) :
  w_ai_script w
    = mkCompletion elapsed (HttpResponse status (JsonReply response)) :: ais ->
  (elapsed < request_timeout)%N ->
  http_ok status = true ->
  serves 2 w = true ->
  let temp := tempUserMessage (w_now w) conversationId content in
  let '(s', w') := sendMessage conversationId content s w in
  s_messages s'
    = s_messages s ++ [temp; reply_row conversationId response elapsed w] /\
  s_optimisticMessages s'
    = without_id (m_id temp) (s_optimisticMessages s) /\
  w_messages w'
    = w_messages w ++ [user_row conversationId content w;
                       reply_row conversationId response elapsed w] /\
  s_error s' = None /\ s_isTyping s' = false.
Proof.
  intros Hai Hlt Hok Hserved temp. unfold sendMessage.
  rewrite (sendMessage_served _ _ _ _ _ _ _ Hai Hlt Hok Hserved).
  unfold send_response, sendMessage_resume. simpl.
  change ("temp-user-" +:+ pretty (w_now w)) with (m_id temp).
  rewrite without_id_app, without_id_same, app_nil_r, <- app_assoc.
  repeat split; reflexivity.
Qed.

Lemma store_send_success_witness :
  w_ai_script chatting
    = [mkCompletion 800 (HttpResponse 200 (JsonReply "Hello! How can I help?"))]
  /\ (800 < request_timeout)%N /\ http_ok 200 = true /\
  serves 2 chatting = true /\
  s_messages (fst (sendMessage "c1" "Hello" initialState chatting))
  = [tempUserMessage 1000 "c1" "Hello";
     reply_row "c1" "Hello! How can I help?" 800 chatting].
Proof.
  assert (Hlt : (800 < request_timeout)%N) by (vm_compute; reflexivity).
  split; [reflexivity|]. split; [exact Hlt|]. split; [reflexivity|].
  split; [reflexivity|].
  pose proof (store_send_success "c1" "Hello" initialState chatting 800 200
                "Hello! How can I help?" [] eq_refl Hlt eq_refl eq_refl) as H.
  cbv zeta in H.
  destruct (sendMessage "c1" "Hello" initialState chatting) as [s' w'].
  exact (proj1 H).
Defined.

(** X16.  The reloading variant of the store.  After a send that succeeds
    the optimistic list is empty, no error is recorded and [isTyping] is
    false, and the store shows whatever [getMessages(conversationId)]
    returns at that moment:
    - if the first page of the conversation is still cached, the cached
      page, which holds neither the user's message nor the reply;
    - if it is not cached and the data service serves the query, the
      first page of the table after the two inserts;
    - if it is not cached and the query fails, the empty list. *)
Theorem reloading_send_shows_first_page (keys : CacheKeys)
    (conversationId content : string) (s : ChatState) (w : World)
    (elapsed status : N) (response : string) (ais : list Completion) :
  w_ai_script w
    = mkCompletion elapsed (HttpResponse status (JsonReply response)) :: ais ->
  (elapsed < request_timeout)%N ->
  http_ok status = true ->
  serves 2 w = true ->
  let s' := fst (ReloadingStore.sendMessage keys conversationId content s w) in
  let key := api.page_key keys conversationId 50 0 in
  s_optimisticMessages s' = [] /\ s_error s' = None /\
  s_isTyping s' = false /\
  (forall page,
     cache_get_at (w_now w + elapsed) key (w_cache w) = Some (VMessages page) ->
     s_messages s' = page) /\
  ((forall l, cache_get_at (w_now w + elapsed) key (w_cache w)
              <> Some (VMessages l)) ->
   (serves 3 w = true ->
    s_messages s'
    = query_messages conversationId 0 50
        (w_messages w ++ [user_row conversationId content w;
                          reply_row conversationId response elapsed w])) /\
   (forall o e, w_db_script w !! 2 = Some o -> failure_of o = Some e ->
      s_messages s' = [])).
Proof.
  intros Hai Hlt Hok Hserved. simpl.
  unfold ReloadingStore.sendMessage.
  rewrite (sendMessage_served _ _ _ _ _ _ _ Hai Hlt Hok Hserved).
  cbn [success].
  match goal with |- context [api.getMessages keys conversationId 50 0 ?wx] =>
    set (w1 := wx) end.
  destruct (getMessages_total keys conversationId 50 0 w1)
    as (r2 & w2 & Hget & _).
  rewrite Hget. simpl.
  split; [reflexivity|]. split; [reflexivity|]. split; [reflexivity|]. split.
  - intros page Hhit.
    rewrite (getMessages_hit keys conversationId 50 0 w1 page Hhit) in Hget.
    by injection Hget as <- _.
  - intros Hmiss. split.
    + intros Hs3.
      rewrite (getMessages_miss keys conversationId 50 0 w1 Hmiss) in Hget.
      subst w1. simpl in Hget. unfold serves in Hs3, Hserved.
      destruct (w_db_script w) as [|[|e|e] [|[|e2|e2] [|[|e3|e3] dbs]]];
        try discriminate Hs3; try discriminate Hserved; simpl in Hget;
        by injection Hget as <- _.
    + intros o e Ho Hf.
      rewrite (getMessages_miss keys conversationId 50 0 w1 Hmiss) in Hget.
      subst w1. simpl in Hget. unfold serves in Hserved.
      destruct (w_db_script w) as [|[|e1|e1] [|[|e2|e2] [|o3 dbs]]];
        try discriminate Hserved; try discriminate Ho.
      simpl in Ho. injection Ho as ->. simpl in Hget.
      destruct o as [|x|x]; [discriminate Hf| |]; by injection Hget as <- _.
Qed.

Lemma reloading_send_shows_first_page_witness :
  w_ai_script page_loaded
    = [mkCompletion 800 (HttpResponse 200 (JsonReply "Hello! How can I help?"))]
  /\ (800 < request_timeout)%N /\ http_ok 200 = true /\
  serves 2 page_loaded = true /\
  s_messages
    (fst (ReloadingStore.sendMessage sample_keys "c1" "Hello" initialState
            page_loaded))
  = [first_message].
Proof.
  assert (Hlt : (800 < request_timeout)%N) by (vm_compute; reflexivity).
  split; [reflexivity|]. split; [exact Hlt|]. split; [reflexivity|].
  split; [reflexivity|].
  exact (proj1 (proj2 (proj2 (proj2
           (reloading_send_shows_first_page sample_keys "c1" "Hello"
              initialState page_loaded 800 200 "Hello! How can I help?" []
              eq_refl Hlt eq_refl eq_refl))))
           [first_message] eq_refl).
Defined.

(** ** The caller: a first message opens a conversation *)

Lemma substring_length n (s : string) :
  String.length (substring 0 n s) = min n (String.length s).
Proof.
  revert s. induction n as [|n IH]; intros s.
  - destruct s; reflexivity.
  - destruct s as [|c s]; [reflexivity|]. simpl. by rewrite IH.
Qed.

Lemma substring_all n (s : string) :
  String.length s <= n -> substring 0 n s = s.
Proof.
  revert s. induction n as [|n IH]; intros s Hlen.
  - destruct s; [reflexivity|simpl in Hlen; lia].
  - destruct s as [|c s]; [reflexivity|]. simpl in *.
    rewrite IH by lia. reflexivity.
Qed.

Lemma append_empty (s : string) : s +:+ EmptyString = s.
Proof.
  induction s as [|c s IH]; [reflexivity|].
  change (String c s +:+ EmptyString) with (String c (s +:+ EmptyString)).
  by rewrite IH.
Qed.

Lemma conversation_title_facts (content : string) :
  String.length (conversation_title content) <= 53 /\
  (String.length content <= 50 -> conversation_title content = content).
Proof.
  unfold conversation_title. split.
  - rewrite length_append, substring_length.
    destruct (50 <? String.length content); simpl; lia.
  - intros Hlen. rewrite substring_all by exact Hlen.
    replace (50 <? String.length content) with false
      by (symmetry; apply Nat.ltb_ge; exact Hlen).
    apply append_empty.
Qed.

(** X17.  [handleSendMessage] with no conversation selected.  The title of
    the conversation it creates is the message itself when that has at
    most 50 characters, and never longer than 53.  If the creation fails,
    nothing is sent: no message row is inserted, no completion is
    requested, the store shows the messages it showed and an error
    string.  If the creation succeeds, the message is sent to the new
    conversation: with the completion answering in time and the inserts
    served, the table holds the new conversation under that title and the
    user's row and the reply under its id, and the store has the new
    conversation selected. *)
Theorem first_message_opens_conversation (keys : CacheKeys) (content : string)
    (s : ChatState) (w : World) :
  s_currentConversation s = None ->
  String.length (conversation_title content) <= 53 /\
  (String.length content <= 50 -> conversation_title content = content) /\
  (forall r w1,
     api.createConversation keys (conversation_title content) w = (Ok r, w1) ->
     success r = false ->
     let '(s', w') := handleSendMessage keys content s w in
     w' = w1 /\ w_messages w' = w_messages w /\
     w_conversations w' = w_conversations w /\
     s_messages s' = s_messages s /\
     s_currentConversation s' = None /\
     exists msg, s_error s' = Some msg) /\
  (forall uid elapsed status response ais,
     w_session w = Some uid ->
     serves 4 w = true ->
     w_ai_script w
       = mkCompletion elapsed (HttpResponse status (JsonReply response)) :: ais
     ->
     (elapsed < request_timeout)%N ->
     http_ok status = true ->
     let row := conversation_row uid (conversation_title content) w in
     let '(s', w') := handleSendMessage keys content s w in
     w_conversations w' = w_conversations w ++ [row] /\
     s_currentConversation s' = Some row /\
     s_conversations s' = row :: s_conversations s /\
     map m_content (s_messages s') = [content; response] /\
     exists userMessage aiMessage,
       w_messages w' = w_messages w ++ [userMessage; aiMessage] /\
       m_conversation_id userMessage = c_id row /\
       m_content userMessage = content /\ m_role userMessage = user /\
       m_conversation_id aiMessage = c_id row /\
       m_content aiMessage = response /\ m_role aiMessage = assistant).
Proof.
  intros Hnone.
  destruct (conversation_title_facts content) as [Hlen Hsame].
  split; [exact Hlen|]. split; [exact Hsame|]. split.
  - intros r w1 Hc Hfail. unfold handleSendMessage, createConversation.
    change (default "New Conversation" (Some (conversation_title content)))
      with (conversation_title content).
    rewrite Hnone, Hc. unfold createConversation_resume. simpl.
    rewrite Hfail. simpl.
    destruct (createConversation_cases keys (conversation_title content) w)
      as [(c & w' & Hc' & _)|(msg & w' & Hc' & Hconv & Hmsgs)];
      rewrite Hc in Hc'; injection Hc' as -> ->; [discriminate Hfail|].
    simpl. repeat split; eauto.
  - intros uid elapsed status response ais Hsess Hserved Hai Hlt Hok row.
    assert (Hs : serves 2 w = true /\
                 forall a b c d e f g h i j,
                   serves 2 (mkWorld a b c d e f (drop 2 (w_db_script w))
                               g h i j) = true).
    { unfold serves in *. simpl.
      destruct (w_db_script w)
        as [|[|e|e] [|[|e2|e2] [|[|e3|e3] [|[|e4|e4] dbs]]]];
        try discriminate Hserved; auto. }
    destruct Hs as [Hs2 Hs4].
    unfold handleSendMessage, createConversation.
    change (default "New Conversation" (Some (conversation_title content)))
      with (conversation_title content).
    rewrite Hnone, (createConversation_served _ _ _ _ Hsess Hs2).
    unfold createConversation_resume. simpl. unfold sendMessage.
    erewrite sendMessage_served; [|exact Hai|exact Hlt|exact Hok|apply Hs4].
    unfold send_response, sendMessage_resume. simpl.
    repeat split; try reflexivity.
    eexists _, _. repeat split; reflexivity.
Qed.

Lemma first_message_opens_conversation_witness :
  s_currentConversation initialState = None /\
  String.length (conversation_title "Hello") <= 53.
Proof.
  split; [reflexivity|].
  exact (proj1 (first_message_opens_conversation sample_keys "Hello"
                  initialState signed_out eq_refl)).
Defined.

(** ** The performance monitor *)

Section PerformanceMonitorProperties.
Import PerformanceMonitor.

Lemma push_bounded_last_hundred (values : list number) (value : number) :
  push_bounded (last_hundred values) value = last_hundred (values ++ [value]).
Proof.
  unfold push_bounded, last_hundred. rewrite !length_app, length_drop.
  simpl. destruct (decide (100 <= length values)) as [Hge|Hlt].
  - replace (100 <? length values - (length values - 100) + 1) with true
      by (symmetry; apply Nat.ltb_lt; lia).
    rewrite drop_app_le by lia.
    replace (length values + 1 - 100) with (length values - 100 + 1) by lia.
    rewrite <- drop_drop.
    destruct (drop (length values - 100) values) as [|v rest] eqn:Hd.
    + apply (f_equal length) in Hd. rewrite length_drop in Hd.
      simpl in Hd. lia.
    + simpl. by rewrite drop_0.
  - replace (length values - 100) with 0 by lia.
    replace (length values + 1 - 100) with 0 by lia.
    rewrite !drop_0, Nat.sub_0_r.
    replace (100 <? length values + 1) with false
      by (symmetry; apply Nat.ltb_ge; lia).
    reflexivity.
Qed.

Lemma record_all_lookup (records : list (string * number)) (label : string) :
  record_all records ∅ !! label
  = match recorded label records with
    | [] => None
    | values => Some (last_hundred values)
    end.
Proof.
  induction records as [|[l v] records IH] using rev_ind.
  - simpl. apply lookup_empty.
  - unfold record_all in *. rewrite foldl_app. simpl.
    unfold recorded in *. rewrite filter_app, map_app. simpl.
    unfold recordMetric at 1. simpl.
    destruct (decide (l = label)) as [->|Hne].
    + rewrite lookup_insert_eq, filter_cons_True, filter_nil by reflexivity.
      simpl. rewrite IH.
      destruct (map snd (filter (fun r => fst r = label) records))
        as [|v0 vs] eqn:Hvs.
      * reflexivity.
      * simpl default. rewrite push_bounded_last_hundred.
        destruct ((v0 :: vs) ++ [v]) eqn:Happ; [discriminate Happ|].
        reflexivity.
    + rewrite lookup_insert_ne by exact Hne.
      rewrite filter_cons_False, filter_nil by (simpl; congruence).
      simpl. rewrite app_nil_r. exact IH.
Qed.

(** X18.  The monitor keeps, for every label, the last 100 measurements in
    the order they were recorded: after any series of [recordMetric]
    calls on an empty monitor, a label that was never recorded is absent,
    and any other label holds exactly the last 100 of its values.
    [getMetrics] is null exactly for the labels never recorded, and its
    [count] is the number of recorded values, capped at 100. *)
Theorem monitor_keeps_last_hundred (records : list (string * number))
    (label : string) :
  let metrics := record_all records ∅ in
  let values := recorded label records in
  metrics !! label
    = (if decide (values = []) then None else Some (last_hundred values)) /\
  (getMetrics label metrics = None <-> values = []) /\
  (forall summary,
     getMetrics label metrics = Some summary ->
     count summary = Nat.min (length values) 100).
Proof.
  simpl. rewrite record_all_lookup.
  assert (Hlen : forall vs : list number,
            length (last_hundred vs) = Nat.min (length vs) 100).
  { intros vs. unfold last_hundred. rewrite length_drop. lia. }
  unfold getMetrics. rewrite record_all_lookup.
  destruct (recorded label records) as [|v vs] eqn:Hvs.
  - repeat split; auto; discriminate.
  - rewrite decide_False by discriminate. split; [reflexivity|].
    specialize (Hlen (v :: vs)).
    destruct (last_hundred (v :: vs)) as [|x xs] eqn:Hlast.
    + simpl in Hlen. lia.
    + split.
      * split; discriminate.
      * intros summary H. injection H as <-. simpl. exact Hlen.
Qed.

End PerformanceMonitorProperties.

(** ** The authentication helpers *)

Section AuthProperties.
Import auth.

Lemma ensureUserProfile_cases (userId email : string) (name : option string)
    (acc : Accounts) :
  let row := mkProfile userId email (or_else name (before_at email)) in
  let acc' := ensureUserProfile userId email name acc in
  (a_users acc' = a_users acc /\
   (a_requests acc' = a_requests acc ++ [SelectProfile userId] \/
    a_requests acc'
      = a_requests acc ++ [SelectProfile userId; InsertProfile row] /\
    a_console acc' <> a_console acc))
  \/
  (a_users acc' = a_users acc ++ [row] /\
   a_requests acc'
     = a_requests acc ++ [SelectProfile userId; InsertProfile row] /\
   a_console acc' = a_console acc).
Proof.
  assert (Hne : forall (l : list string) x, l ++ [x] <> l).
  { intros l x H. apply (f_equal length) in H. rewrite length_app in H.
    simpl in H. lia. }
  destruct acc as [us script rs con].
  unfold ensureUserProfile, next_outcome, request, console_error, insert_row.
  simpl.
  destruct script as [|[|e1|e1] [|[|e2|e2] script]]; simpl;
    try (destruct (maybeSingle userId us) eqn:Hm; simpl);
    rewrite <- ?app_assoc; simpl;
    try solve [left; split; [reflexivity|]; left; reflexivity];
    try solve [left; split; [reflexivity|]; right; split;
                 [reflexivity | apply Hne]];
    try solve [right; auto].
Qed.

Lemma ensureUserProfile_console (userId email : string)
    (name : option string) (acc : Accounts) :
  let acc' := ensureUserProfile userId email name acc in
  a_console acc' = a_console acc \/
  exists line, a_console acc' = a_console acc ++ [line].
Proof.
  destruct acc as [us script rs con].
  unfold ensureUserProfile, next_outcome, request, console_error, insert_row.
  simpl.
  destruct script as [|[|e1|e1] [|[|e2|e2] script]]; simpl;
    try (destruct (maybeSingle userId us) eqn:Hm; simpl); eauto.
Qed.

(** X20.  [ensureUserProfile] never rejects and never touches an existing
    profile: whatever the table service does, the [users] table afterwards
    is the table before, or the table before followed by the one row
    [(userId, email, name || email.split('@')[0])].  It always issues the
    lookup, and an insert only after it; it writes at most one line to the
    console, and none when it adds a row. *)
Theorem ensureUserProfile_adds_at_most_one (userId email : string)
    (name : option string) (acc : Accounts) :
  let row := mkProfile userId email (or_else name (before_at email)) in
  let acc' := ensureUserProfile userId email name acc in
  (a_users acc' = a_users acc \/ a_users acc' = a_users acc ++ [row]) /\
  (a_requests acc' = a_requests acc ++ [SelectProfile userId] \/
   a_requests acc'
     = a_requests acc ++ [SelectProfile userId; InsertProfile row]) /\
  (a_users acc' <> a_users acc -> a_console acc' = a_console acc) /\
  (a_console acc' = a_console acc \/
   exists line, a_console acc' = a_console acc ++ [line]).
Proof.
  intros row acc'.
  destruct (ensureUserProfile_cases userId email name acc)
    as [[Hu Hr]|(Hu & Hr & Hc)]; fold row acc' in Hu, Hr |- *.
  - split; [by left|]. split; [destruct Hr as [Hr|[Hr _]]; auto|].
    split; [congruence|]. apply ensureUserProfile_console.
  - fold acc' in Hc. split; [by right|]. split; [by right|]. auto.
Qed.

Lemma maybeSingle_profiles (userId : string) (acc : Accounts) :
  maybeSingle userId (a_users acc)
  = match profiles_of userId acc with [p] => Some p | _ => None end.
Proof. reflexivity. Qed.

Lemma ensureUserProfile_served (userId email : string) (name : option string)
    (acc : Accounts) :
  answers 2 acc = true ->
  let row := mkProfile userId email (or_else name (before_at email)) in
  let acc' := ensureUserProfile userId email name acc in
  a_script acc' = drop (length (a_requests acc') - length (a_requests acc))
                    (a_script acc) /\
  a_console acc' = a_console acc /\
  match maybeSingle userId (a_users acc) with
  | Some _ =>
      a_users acc' = a_users acc /\
      a_requests acc' = a_requests acc ++ [SelectProfile userId]
  | None =>
      a_users acc' = a_users acc ++ [row] /\
      a_requests acc'
        = a_requests acc ++ [SelectProfile userId; InsertProfile row]
  end.
Proof.
  destruct acc as [us script rs con].
  unfold answers, ensureUserProfile, next_outcome, request, console_error,
    insert_row. simpl.
  destruct script as [|[|e1|e1] [|[|e2|e2] script]]; simpl;
    try discriminate; intros _;
    destruct (maybeSingle userId us) eqn:Hm; simpl;
    rewrite <- ?app_assoc, ?length_app; simpl;
    repeat match goal with
           | |- context [length ?l + ?n - length ?l] =>
               replace (length l + n - length l) with n by lia
           end;
    auto.
Qed.

Lemma ensureUserProfile_found (userId email : string) (name : option string)
    (acc : Accounts) (p : Profile) :
  answers 1 acc = true ->
  maybeSingle userId (a_users acc) = Some p ->
  let acc' := ensureUserProfile userId email name acc in
  a_users acc' = a_users acc /\
  a_requests acc' = a_requests acc ++ [SelectProfile userId] /\
  a_console acc' = a_console acc.
Proof.
  destruct acc as [us script rs con].
  unfold answers, ensureUserProfile, next_outcome, request, console_error,
    insert_row. simpl.
  destruct script as [|[|e1|e1] script]; simpl; try discriminate;
    intros _ ->; simpl; auto.
Qed.

(** X21.  Ensuring a profile twice creates it once.  When the table
    service answers, and the table holds at most one profile of the user,
    then after [ensureUserProfile] it holds exactly one, which is the old
    one if there was one and the new row otherwise; a second call, with
    whatever e-mail and name, sends the lookup only and leaves the table
    as it is. *)
Theorem ensureUserProfile_idempotent (userId email email' : string)
    (name name' : option string) (acc : Accounts) :
  answers 3 acc = true ->
  length (profiles_of userId acc) <= 1 ->
  let acc1 := ensureUserProfile userId email name acc in
  let acc2 := ensureUserProfile userId email' name' acc1 in
  profiles_of userId acc1
    = match profiles_of userId acc with
      | [] => [mkProfile userId email (or_else name (before_at email))]
      | existing => existing
      end /\
  a_users acc2 = a_users acc1 /\
  a_requests acc2 = a_requests acc1 ++ [SelectProfile userId] /\
  a_console acc2 = a_console acc.
Proof.
  intros Hans Hlen acc1 acc2.
  assert (Hans2 : answers 2 acc = true).
  { unfold answers in *. destruct (a_script acc) as [|o1 [|o2 [|o3 rest]]];
      simpl in *; auto.
    destruct o1, o2; simpl in *; auto. }
  destruct (ensureUserProfile_served userId email name acc Hans2)
    as (Hscript & Hcon & Hcase). fold acc1 in Hscript, Hcon, Hcase.
  assert (Hone : exists p, profiles_of userId acc1 = [p] /\
            profiles_of userId acc1
            = match profiles_of userId acc with
              | [] => [mkProfile userId email
                         (or_else name (before_at email))]
              | existing => existing
              end).
  { rewrite maybeSingle_profiles in Hcase.
    unfold profiles_of in *.
    destruct (filter (fun p => p_id p = userId) (a_users acc))
      as [|p [|q rest]] eqn:Hf; simpl in Hlen; try lia.
    - destruct Hcase as [Hu _]. rewrite Hu, filter_app, Hf. simpl.
      rewrite filter_cons_True by reflexivity. rewrite filter_nil.
      eauto.
    - destruct Hcase as [Hu _]. rewrite Hu, Hf. eauto. }
  destruct Hone as (p & Hp & Hsame). split; [exact Hsame|].
  assert (Hans1 : answers 1 acc1 = true).
  { unfold answers in *. rewrite Hscript.
    assert (Hd : length (a_requests acc1) - length (a_requests acc) <= 2).
    { rewrite maybeSingle_profiles in Hcase.
      destruct (profiles_of userId acc) as [|? [|? ?]];
        destruct Hcase as [_ ->]; rewrite length_app; simpl; lia. }
    revert Hans Hd. generalize (length (a_requests acc1)
                                - length (a_requests acc)).
    intros n. destruct (a_script acc) as [|o1 [|o2 [|o3 rest]]];
      destruct n as [|[|[|n]]]; simpl; intros; try lia; auto;
      repeat match goal with o : DbOutcome |- _ => destruct o end;
      simpl in *; auto; discriminate. }
  assert (Hm : maybeSingle userId (a_users acc1) = Some p)
    by (rewrite maybeSingle_profiles, Hp; reflexivity).
  destruct (ensureUserProfile_found userId email' name' acc1 p Hans1 Hm)
    as (Hu2 & Hr2 & Hcon2). fold acc2 in Hu2, Hr2, Hcon2.
  repeat split; auto. congruence.
Qed.

Lemma ensureUserProfile_idempotent_witness :
  answers 3 (mkAccounts [] [] [] []) = true /\
  length (profiles_of "u1" (mkAccounts [] [] [] [])) <= 1 /\
  a_users (ensureUserProfile "u1" "ada@example.org" (Some "Ada")
             (ensureUserProfile "u1" "ada@example.org" None
                (mkAccounts [] [] [] [])))
  = a_users (ensureUserProfile "u1" "ada@example.org" None
               (mkAccounts [] [] [] [])).
Proof.
  split; [reflexivity|]. split; [simpl; lia|].
  exact (proj1 (proj2 (ensureUserProfile_idempotent "u1" "ada@example.org"
                         "ada@example.org" None (Some "Ada")
                         (mkAccounts [] [] [] []) eq_refl
                         (Nat.le_0_l 1)))).
Defined.

Lemma answers_later (k extra n : nat) (acc acc' : Accounts) :
  answers (n + k + extra) acc = true ->
  a_script acc' = drop n (a_script acc) ->
  answers k acc' = true.
Proof.
  unfold answers. intros Hall ->.
  rewrite forallb_forall in *. intros o Ho. apply Hall.
  apply list_elem_of_In. apply list_elem_of_In in Ho.
  rewrite take_drop_commute in Ho.
  apply (subseteq_drop n) in Ho.
  replace (take (n + k) (a_script acc))
    with (take (n + k) (take (n + k + extra) (a_script acc))) in Ho
    by (rewrite take_take; f_equal; lia).
  by apply (subseteq_take (n + k)) in Ho.
Qed.

(** X23.  Signing in creates the profile of a new user once.  When the
    authentication service answers with a user and the table service
    answers, the first sign-in of a user without a profile stores the
    profile [(id, data.user.email || email, local part of that e-mail)],
    and signing in again leaves the [users] table unchanged. *)
Theorem repeated_sign_in_keeps_one_profile (email password : string)
    (u : AuthUser) (acc : Accounts) :
  answers 3 acc = true ->
  profiles_of (u_id u) acc = [] ->
  let address := or_else (u_email u) email in
  let '(r1, acc1) := signIn email password (AuthReply (Some u) None) acc in
  let '(r2, acc2) := signIn email password (AuthReply (Some u) None) acc1 in
  r1 = mkAuthResult (Some (Some u)) None /\
  r2 = r1 /\
  a_users acc1
    = a_users acc ++ [mkProfile (u_id u) address (before_at address)] /\
  a_users acc2 = a_users acc1 /\
  a_console acc2 = a_console acc.
Proof.
  intros Hans Hnone. simpl.
  set (address := or_else (u_email u) email).
  set (row := mkProfile (u_id u) address (before_at address)).
  assert (Hans2 : answers 2 acc = true)
    by (apply (answers_later 2 1 0 acc acc); [exact Hans|by rewrite drop_0]).
  destruct (ensureUserProfile_served (u_id u) address None acc Hans2)
    as (Hscript & Hcon & Hcase).
  rewrite maybeSingle_profiles, Hnone in Hcase. destruct Hcase as [Hu1 Hr1].
  set (acc1 := ensureUserProfile (u_id u) address None acc) in *.
  rewrite Hr1, length_app in Hscript. simpl in Hscript.
  replace (length (a_requests acc) + 2 - length (a_requests acc)) with 2
    in Hscript by lia.
  assert (Hans1 : answers 1 acc1 = true)
    by (apply (answers_later 1 0 2 acc acc1); assumption).
  assert (Hm : maybeSingle (u_id u) (a_users acc1) = Some row).
  { rewrite maybeSingle_profiles. unfold profiles_of in *.
    rewrite Hu1, filter_app, Hnone. simpl.
    rewrite filter_cons_True by reflexivity. reflexivity. }
  destruct (ensureUserProfile_found (u_id u) address None acc1 row Hans1 Hm)
    as (Hu2 & _ & Hcon2).
  repeat split; auto. congruence.
Qed.

Lemma repeated_sign_in_keeps_one_profile_witness :
  answers 3 (mkAccounts [] [] [] []) = true /\
  profiles_of "u1" (mkAccounts [] [] [] []) = [] /\
  a_users (snd (signIn "ada@example.org" "secret"
                  (AuthReply (Some (mkAuthUser "u1" None)) None)
                  (mkAccounts [] [] [] [])))
  = [mkProfile "u1" "ada@example.org" "ada"].
Proof.
  split; [reflexivity|]. split; [reflexivity|].
  pose proof (repeated_sign_in_keeps_one_profile "ada@example.org" "secret"
                (mkAuthUser "u1" None) (mkAccounts [] [] [] [])
                eq_refl eq_refl) as H.
  simpl in H. destruct H as (_ & _ & H & _). exact H.
Defined.




End AuthProperties.

(** ** The chat function *)

Section EdgeProperties.
Import edge.

Lemma map_set_absent (key : string) (value : CachedHistory)
    (m : HistoryCache) :
  key ∉ keys_of m -> map_set key value m = m ++ [(key, value)].
Proof.
  induction m as [|[k v] m IH]; simpl; intros Hk; [reflexivity|].
  apply not_elem_of_cons in Hk as [Hne Hk].
  rewrite decide_False by congruence. by rewrite IH.
Qed.

Lemma map_set_present (key : string) (value : CachedHistory)
    (m : HistoryCache) :
  key ∈ keys_of m -> keys_of (map_set key value m) = keys_of m.
Proof.
  induction m as [|[k v] m IH]; simpl; intros Hk.
  - by apply elem_of_nil in Hk.
  - destruct (decide (k = key)) as [->|Hne]; [reflexivity|].
    apply elem_of_cons in Hk as [Hk|Hk]; [congruence|].
    simpl. by rewrite IH.
Qed.

Lemma map_get_set (key : string) (value : CachedHistory) (m : HistoryCache) :
  map_get key (map_set key value m) = Some value.
Proof.
  induction m as [|[k v] m IH]; simpl.
  - by rewrite decide_True.
  - destruct (decide (k = key)) as [->|Hne]; simpl.
    + by rewrite decide_True.
    + by rewrite decide_False.
Qed.

Lemma map_get_app_absent (key : string) (value : CachedHistory)
    (m : HistoryCache) :
  key ∉ keys_of m -> map_get key (m ++ [(key, value)]) = Some value.
Proof.
  induction m as [|[k v] m IH]; simpl; intros Hk.
  - by rewrite decide_True.
  - apply not_elem_of_cons in Hk as [Hne Hk].
    rewrite decide_False by congruence. by apply IH.
Qed.

(** The cache after [historyCache.set] and the size check. *)
Lemma cache_update (key : string) (value : CachedHistory)
    (m : HistoryCache) :
  NoDup (keys_of m) -> length m <= 100 ->
  let m1 := map_set key value m in
  let m2 := if 100 <? length m1 then tail m1 else m1 in
  NoDup (keys_of m2) /\ length m2 <= 100 /\ map_get key m2 = Some value.
Proof.
  intros Hnd Hlen. simpl.
  destruct (decide (key ∈ keys_of m)) as [Hin|Hout].
  - pose proof (map_set_present key value m Hin) as Hkeys.
    assert (Hl : length (map_set key value m) = length m).
    { apply (f_equal length) in Hkeys. unfold keys_of in Hkeys.
      by rewrite !length_map in Hkeys. }
    rewrite Hl. replace (100 <? length m) with false
      by (symmetry; apply Nat.ltb_ge; lia).
    rewrite Hkeys, Hl. auto using map_get_set.
  - rewrite (map_set_absent key value m Hout), length_app. simpl.
    destruct (100 <? length m + 1) eqn:Hfull.
    + apply Nat.ltb_lt in Hfull.
      destruct m as [|[k v] m]; simpl in *; [lia|].
      apply NoDup_cons in Hnd as [Hk Hnd].
      apply not_elem_of_cons in Hout as [Hne Hout].
      split; [|split].
      * unfold keys_of in *. rewrite map_app. simpl.
        apply NoDup_app. split; [exact Hnd|]. split.
        -- intros x Hx Hx'. apply list_elem_of_singleton in Hx' as ->. auto.
        -- apply NoDup_singleton.
      * rewrite length_app. simpl. lia.
      * by apply map_get_app_absent.
    + apply Nat.ltb_ge in Hfull. split; [|split].
      * unfold keys_of in *. rewrite map_app. simpl.
        apply NoDup_app. split; [exact Hnd|]. split.
        -- intros x Hx Hx'. apply list_elem_of_singleton in Hx' as ->. auto.
        -- apply NoDup_singleton.
      * rewrite length_app. simpl. lia.
      * by apply map_get_app_absent.
Qed.

Lemma getConversationHistory_step (conversationId : string) (limit : nat)
    (table : list Message) (latency : N) (o : DbOutcome) (st : Server) :
  NoDup (keys_of (e_historyCache st)) ->
  length (e_historyCache st) <= 100 ->
  let st' :=
    snd (getConversationHistory conversationId limit table latency o st) in
  NoDup (keys_of (e_historyCache st')) /\
  length (e_historyCache st') <= 100 /\
  e_queries st' <= S (e_queries st) /\
  (e_now st <= e_now st')%N.
Proof.
  intros Hnd Hlen. unfold getConversationHistory.
  destruct (fresh_entry conversationId st) as [cached|]; simpl.
  - repeat split; auto; lia.
  - destruct o; simpl; try (repeat split; auto; lia).
    destruct (cache_update conversationId
                (mkCached (rev (latest_messages conversationId limit table))
                   (e_now st + latency)%N)
                (e_historyCache st) Hnd Hlen) as (H1 & H2 & _).
    repeat split; auto; lia.
Qed.

(** X24.  The history cache never holds more than 100 conversations, and
    never two entries for one conversation: both hold after any series of
    [getConversationHistory] calls, whatever the data service answers and
    however long the calls are apart.  Each call sends at most one query. *)
Theorem history_cache_stays_bounded (calls : list HistoryCall) (st : Server) :
  NoDup (keys_of (e_historyCache st)) ->
  length (e_historyCache st) <= 100 ->
  let st' := history_calls calls st in
  NoDup (keys_of (e_historyCache st')) /\
  length (e_historyCache st') <= 100 /\
  e_queries st' <= e_queries st + length calls.
Proof.
  revert st. induction calls as [|c calls IH]; intros st Hnd Hlen.
  - simpl. repeat split; auto; lia.
  - set (st1 := snd (getConversationHistory (hc_conversationId c)
                       (hc_limit c) (hc_table c) (hc_latency c)
                       (hc_outcome c) (later (hc_wait c) st))).
    change (history_calls (c :: calls) st) with (history_calls calls st1).
    destruct (getConversationHistory_step (hc_conversationId c) (hc_limit c)
                (hc_table c) (hc_latency c) (hc_outcome c)
                (later (hc_wait c) st) Hnd Hlen) as (H1 & H2 & H3 & _).
    fold st1 in H1, H2, H3.
    destruct (IH st1 H1 H2) as (H4 & H5 & H6).
    cbv zeta. change (length (c :: calls)) with (S (length calls)).
    change (e_queries (later (hc_wait c) st)) with (e_queries st) in H3.
    repeat split; auto. lia.
Qed.

Lemma history_cache_stays_bounded_witness :
  length (e_historyCache
            (history_calls
               [mkCall 0 "c1" 6 [] 20 Served;
                mkCall 1000 "c2" 6 [] 20 (ReplyError (ErrorObj "down"));
                mkCall 40000 "c1" 6 [] 20 Served]
               (mkServer 0 [] 0 []))) <= 100.
Proof.
  exact (proj1 (proj2 (history_cache_stays_bounded
                         [mkCall 0 "c1" 6 [] 20 Served;
                          mkCall 1000 "c2" 6 [] 20
                            (ReplyError (ErrorObj "down"));
                          mkCall 40000 "c1" 6 [] 20 Served]
                         (mkServer 0 [] 0 [])
                         (NoDup_nil_2 : NoDup (keys_of []))
                         (Nat.le_0_l 100)))).
Defined.

End EdgeProperties.

Section EdgeHistory.
Import edge.

Lemma later_fresh (conversationId : string) (messages : list Message)
    (wait : N) (st : Server) :
  map_get conversationId (e_historyCache st)
    = Some (mkCached messages (e_now st)) ->
  fresh_entry conversationId (later wait st)
  = if (wait <? 30000)%N then Some (mkCached messages (e_now st)) else None.
Proof.
  intros Hget. unfold fresh_entry, later, CACHE_TTL. simpl. rewrite Hget.
  simpl. destruct (N.ltb_spec wait 30000).
  - replace (_ <? _)%Z with true; [reflexivity|].
    symmetry. apply Z.ltb_lt. lia.
  - replace (_ <? _)%Z with false; [reflexivity|].
    symmetry. apply Z.ltb_ge. lia.
Qed.

Lemma map_get_set_ne (key other : string) (value : CachedHistory)
    (m : HistoryCache) :
  other <> key -> map_get key (map_set other value m) = map_get key m.
Proof.
  intros Hne. induction m as [|[k v] m IH]; simpl.
  - by rewrite decide_False.
  - destruct (decide (k = other)) as [->|Hk]; simpl.
    + by rewrite !decide_False.
    + destruct (decide (k = key)); [reflexivity|exact IH].
Qed.

Lemma map_set_length (key : string) (value : CachedHistory)
    (m : HistoryCache) :
  length (map_set key value m) <= S (length m).
Proof.
  induction m as [|[k v] m IH]; simpl; [lia|].
  destruct (decide (k = key)); simpl; lia.
Qed.

Lemma fresh_entry_of (conversationId : string) (entry : CachedHistory)
    (st : Server) :
  map_get conversationId (e_historyCache st) = Some entry ->
  (e_now st < h_timestamp entry + 30000)%N ->
  fresh_entry conversationId st = Some entry.
Proof.
  intros Hget Htime. unfold fresh_entry, CACHE_TTL. rewrite Hget.
  replace (_ <? _)%Z with true; [reflexivity|].
  symmetry. apply Z.ltb_lt. lia.
Qed.

(** A call while the entry of [conversationId] is fresh and the cache has
    room leaves that entry as it is. *)
Lemma getConversationHistory_keeps (conversationId : string)
    (entry : CachedHistory) (other : string) (limit : nat)
    (table : list Message) (latency : N) (o : DbOutcome) (st : Server) :
  map_get conversationId (e_historyCache st) = Some entry ->
  (e_now st < h_timestamp entry + 30000)%N ->
  length (e_historyCache st) < 100 ->
  let st' := snd (getConversationHistory other limit table latency o st) in
  map_get conversationId (e_historyCache st') = Some entry /\
  (e_now st' <= e_now st + latency)%N /\
  length (e_historyCache st') <= S (length (e_historyCache st)).
Proof.
  intros Hget Htime Hroom. unfold getConversationHistory.
  destruct (fresh_entry other st) as [cached|] eqn:Hfresh; simpl.
  { repeat split; auto; lia. }
  assert (Hne : other <> conversationId).
  { intros ->. rewrite (fresh_entry_of _ _ _ Hget Htime) in Hfresh.
    discriminate Hfresh. }
  destruct o; simpl; try (repeat split; auto; lia).
  pose proof (map_set_length other
                (mkCached (rev (latest_messages other limit table))
                   (e_now st + latency)%N) (e_historyCache st)) as Hl.
  replace (100 <? length (map_set _ _ _)) with false
    by (symmetry; apply Nat.ltb_ge; lia).
  rewrite map_get_set_ne by exact Hne. repeat split; auto; lia.
Qed.

Lemma history_calls_keep (conversationId : string) (entry : CachedHistory)
    (others : list HistoryCall) (st : Server) :
  map_get conversationId (e_historyCache st) = Some entry ->
  (e_now st + duration others < h_timestamp entry + 30000)%N ->
  length (e_historyCache st) + length others <= 100 ->
  let st' := history_calls others st in
  map_get conversationId (e_historyCache st') = Some entry /\
  (e_now st' <= e_now st + duration others)%N.
Proof.
  revert st. induction others as [|c others IH]; intros st Hget Htime Hroom.
  - simpl. split; [exact Hget|lia].
  - set (st1 := snd (getConversationHistory (hc_conversationId c)
                       (hc_limit c) (hc_table c) (hc_latency c)
                       (hc_outcome c) (later (hc_wait c) st))).
    change (history_calls (c :: others) st) with (history_calls others st1).
    change (duration (c :: others))
      with (hc_wait c + hc_latency c + duration others)%N in *.
    change (length (c :: others)) with (S (length others)) in Hroom.
    destruct (getConversationHistory_keeps conversationId entry
                (hc_conversationId c) (hc_limit c) (hc_table c)
                (hc_latency c) (hc_outcome c) (later (hc_wait c) st))
      as (Hget1 & Hnow1 & Hlen1); [exact Hget|simpl; lia|simpl; lia|].
    fold st1 in Hget1, Hnow1, Hlen1. simpl in Hnow1, Hlen1.
    destruct (IH st1 Hget1) as [Hget' Hnow']; [lia|lia|].
    cbv zeta. split; [exact Hget'|lia].
Qed.

(** X25.  A served history is reused for 30 seconds, unless the cache
    overflows in between.  When the cache has no fresh entry for the
    conversation and the data service answers, the call returns at most
    [limit] messages and caches them.  After any further calls, for any
    conversations and with any answers, that cannot take the cache beyond
    its 100 entries (entries plus calls at most 100), a call for that
    conversation less than 30 s after the first returns the same list
    without a query, whatever its [limit] and whatever the table holds by
    then.  With no call in between, a call 30 s later or more sends a
    query.  A failed query returns the empty history and leaves the cache
    as it was. *)
Theorem history_reused_for_thirty_seconds (conversationId : string)
    (limit : nat) (table : list Message) (latency : N) (st : Server) :
  NoDup (keys_of (e_historyCache st)) ->
  length (e_historyCache st) <= 100 ->
  fresh_entry conversationId st = None ->
  let '(messages, st1) :=
    getConversationHistory conversationId limit table latency Served st in
  messages = rev (latest_messages conversationId limit table) /\
  length messages <= limit /\
  e_queries st1 = S (e_queries st) /\
  (forall others wait limit' table' latency' o',
     length (e_historyCache st1) + length others <= 100 ->
     (duration others + wait < 30000)%N ->
     let st2 := later wait (history_calls others st1) in
     getConversationHistory conversationId limit' table' latency' o' st2
     = (messages, st2)) /\
  (forall wait limit' table' latency' o',
     (30000 <= wait)%N ->
     e_queries (snd (getConversationHistory conversationId limit' table'
                       latency' o' (later wait st1)))
     = S (e_queries st1)) /\
  (forall o,
     o <> Served ->
     let '(none, st2) :=
       getConversationHistory conversationId limit table latency o st in
     none = [] /\ e_historyCache st2 = e_historyCache st /\
     e_queries st2 = S (e_queries st)).
Proof.
  intros Hnd Hlen Hmiss. unfold getConversationHistory at 1. rewrite Hmiss.
  cbv zeta.
  set (messages := rev (latest_messages conversationId limit table)).
  destruct (cache_update conversationId
              (mkCached messages (e_now st + latency)%N)
              (e_historyCache st) Hnd Hlen) as (_ & _ & Hget).
  cbv zeta in Hget. simpl.
  set (cache := if 100 <? length _ then _ else _) in *.
  set (st1 := mkServer _ cache _ _).
  assert (Hfresh : forall wait,
            fresh_entry conversationId (later wait st1)
            = if (wait <? 30000)%N
              then Some (mkCached messages (e_now st1)) else None)
    by (intros wait; apply later_fresh; exact Hget).
  split; [reflexivity|]. split.
  { unfold messages, latest_messages. rewrite length_rev, length_take. lia. }
  split; [reflexivity|]. split; [|split].
  - intros others wait limit' table' latency' o' Hroom Htime.
    destruct (history_calls_keep conversationId
                (mkCached messages (e_now st1)) others st1 Hget)
      as [Hget' Hnow']; [simpl; lia|exact Hroom|].
    cbv zeta. unfold getConversationHistory.
    rewrite (fresh_entry_of conversationId (mkCached messages (e_now st1)));
      [reflexivity|exact Hget'|simpl in *; lia].
  - intros wait limit' table' latency' o' Hwait.
    unfold getConversationHistory. rewrite Hfresh.
    apply N.ltb_ge in Hwait. rewrite Hwait.
    destruct o'; reflexivity.
  - intros o Ho. unfold getConversationHistory. rewrite Hmiss.
    destruct o; [congruence| |]; simpl; auto.
Qed.

Lemma history_reused_for_thirty_seconds_witness :
  NoDup (keys_of (e_historyCache (mkServer 0 [] 0 []))) /\
  getConversationHistory "A" 6 [messageA; messageB] 20 Served
    (later 1000
       (history_calls [mkCall 100 "B" 6 [messageB] 20 Served]
          (mkServer 20 [("A", mkCached [messageA] 20)] 1 [])))
  = ([messageA],
     later 1000
       (history_calls [mkCall 100 "B" 6 [messageB] 20 Served]
          (mkServer 20 [("A", mkCached [messageA] 20)] 1 []))).
Proof.
  split; [apply NoDup_nil_2|].
  assert (Hfirst : getConversationHistory "A" 6 [messageA] 20 Served
                     (mkServer 0 [] 0 [])
                   = ([messageA],
                      mkServer 20 [("A", mkCached [messageA] 20)] 1 []))
    by (vm_compute; reflexivity).
  pose proof (history_reused_for_thirty_seconds "A" 6 [messageA] 20
                (mkServer 0 [] 0 []) (NoDup_nil_2 : NoDup (keys_of []))
                (Nat.le_0_l 100) eq_refl) as H.
  rewrite Hfirst in H. destruct H as (_ & _ & _ & H & _).
  apply (H [mkCall 100 "B" 6 [messageB] 20 Served] 1000%N 6
           [messageA; messageB] 20%N Served); [simpl; lia|reflexivity].
Defined.

Lemma truncate_length (content : string) :
  String.length (truncate content) <= 503 /\
  (String.length content <= 500 -> truncate content = content) /\
  (500 < String.length content ->
   truncate content = substring 0 500 content +:+ "...").
Proof.
  unfold truncate. destruct (Nat.ltb_spec 500 (String.length content)).
  - split; [|split; [lia|reflexivity]].
    rewrite length_append, substring_length. simpl. lia.
  - split; [lia|]. split; [reflexivity|lia].
Qed.

(** X26.  The request sent to the provider is bounded: it is the system
    prompt, then the last six messages of the history in their order and
    with their roles, each cut to its first 500 characters followed by
    [...] when longer, then the prompt as the last, [user], message; so
    it holds at most 8 messages and no history text longer than 503
    characters. *)
Theorem context_is_bounded (prompt : string) (history : list Message) :
  let recent := drop (length history - 6) history in
  context prompt history
    = mkChat "system" (system_prompt (0 <? length history))
      :: map history_entry recent ++ [mkChat "user" prompt] /\
  length (context prompt history) = 2 + Nat.min 6 (length history) /\
  length (context prompt history) <= 8 /\
  last (context prompt history) = Some (mkChat "user" prompt) /\
  Forall2 (fun msg entry =>
             cm_role entry
               = match m_role msg with
                 | user => "user"
                 | assistant => "assistant"
                 end /\
             String.length (cm_content entry) <= 503 /\
             (String.length (m_content msg) <= 500 ->
              cm_content entry = m_content msg) /\
             (500 < String.length (m_content msg) ->
              cm_content entry = substring 0 500 (m_content msg) +:+ "..."))
    recent (map history_entry recent).
Proof.
  intros recent. unfold context. fold recent.
  assert (Hlen : length recent = Nat.min 6 (length history))
    by (unfold recent; rewrite length_drop; lia).
  split; [reflexivity|].
  split; [simpl; rewrite length_app, length_map, Hlen; simpl; lia|].
  split; [simpl; rewrite length_app, length_map, Hlen; simpl; lia|].
  split.
  - change ([mkChat "system" (system_prompt (0 <? length history))]
            ++ map history_entry recent ++ [mkChat "user" prompt])
      with (mkChat "system" (system_prompt (0 <? length history))
            :: (map history_entry recent ++ [mkChat "user" prompt])).
    rewrite app_comm_cons. apply last_snoc.
  - apply Forall2_fmap_r, Forall_Forall2_diag, Forall_forall.
    intros msg _. simpl. split; [reflexivity|]. apply truncate_length.
Qed.

Lemma context_shape (prompt : string) (history : list Message) :
  last (context prompt history) = Some (mkChat "user" prompt) /\
  length (context prompt history) <= 8.
Proof.
  unfold context. split.
  - change ([mkChat "system" (system_prompt (0 <? length history))]
            ++ map history_entry (drop (length history - 6) history)
            ++ [mkChat "user" prompt])
      with (mkChat "system" (system_prompt (0 <? length history))
            :: (map history_entry (drop (length history - 6) history)
                ++ [mkChat "user" prompt])).
    rewrite app_comm_cons. apply last_snoc.
  - simpl. rewrite length_app, length_map, length_drop. simpl. lia.
Qed.

End EdgeHistory.

Section EdgeHandler.
Import edge.
Context (cleanMarkdownFormatting : string -> string).

Lemma getConversationHistory_queries (conversationId : string) (limit : nat)
    (table : list Message) (latency : N) (o : DbOutcome) (st : Server) :
  e_queries (snd (getConversationHistory conversationId limit table latency
                    o st)) <= S (e_queries st).
Proof.
  unfold getConversationHistory.
  destruct (fresh_entry conversationId st); simpl; [lia|].
  destruct o; simpl; lia.
Qed.

Lemma getAIResponse_facts (prompt : string) (history : list Message)
    (up : Upstream) (st : Server) :
  let '(sent, response, st') :=
    getAIResponse cleanMarkdownFormatting prompt history up st in
  sent = context prompt history /\
  e_queries st' = e_queries st /\
  e_historyCache st' = e_historyCache st /\
  (response = fallback \/
   exists content,
     up = Choice content /\
     response = cleanMarkdownFormatting (auth.or_else content apology)).
Proof. destruct up; simpl; repeat split; eauto. Qed.

(** X27.  The handler answers every request, with status 200, 400 or 500,
    and asks the provider only for a valid message: a request is sent to
    the provider exactly when the method is not [OPTIONS] and [message] is
    a string that is not blank and not longer than 4000 characters.  Then
    the status is 200, whatever the data service and the provider do, the
    request ends with the trimmed message and holds at most 8 messages.
    Otherwise neither the data service nor the cache is touched.  The
    history is queried at most once, and only for a non-empty
    [conversationId]. *)
Theorem serve_validates (method : string) (request : Body)
    (table : list Message) (latency : N) (o : DbOutcome) (up : Upstream)
    (st : Server) :
  let valid :=
    method <> "OPTIONS" /\
    exists message conversationId,
      request = Fields (JString message) conversationId /\
      String.length (trim message) <> 0 /\
      String.length message <= 4000 in
  let '(response, sent, st') :=
    serve cleanMarkdownFormatting method request table latency o up st in
  (status response = 200 \/ status response = 400 \/ status response = 500)%N
  /\
  (sent <> None <-> valid) /\
  (forall message conversationId requested,
     request = Fields (JString message) conversationId ->
     sent = Some requested ->
     status response = 200%N /\
     last requested = Some (mkChat "user" (trim message)) /\
     length requested <= 8 /\
     exists text n, body response = Reply text conversationId n) /\
  (sent = None ->
   e_queries st' = e_queries st /\
   e_historyCache st' = e_historyCache st) /\
  e_queries st' <= S (e_queries st) /\
  (e_queries st' <> e_queries st ->
   exists message c id,
     request = Fields (JString message) (Some (String c id))).
Proof.
  unfold serve.
  assert (Hsame : e_queries st <> e_queries st -> False) by congruence.
  destruct (decide (method = "OPTIONS")) as [Hm|Hm].
  { cbv zeta. simpl. split; [auto|]. split; [split; [congruence|tauto]|].
    split; [intros; discriminate|]. split; [auto|]. split; [lia|].
    intros H. destruct (Hsame H). }
  destruct request as [|[|message|truthy] conversationId].
  1,2,4: cbv zeta; simpl; (split; [auto|]);
    (split; [split; [congruence|];
             intros (_ & ? & ? & ? & _); discriminate|]);
    (split; [intros; discriminate|]); (split; [auto|]); (split; [lia|]);
    intros H; destruct (Hsame H).
  destruct (Nat.eqb_spec (String.length (trim message)) 0) as [Hblank|Hblank].
  { cbv zeta. simpl. split; [auto|]. split.
    { split; [congruence|].
      intros (_ & m & c & Hreq & Hne & _). injection Hreq as <- <-. lia. }
    split; [intros; discriminate|]. split; [auto|]. split; [lia|].
    intros H. destruct (Hsame H). }
  destruct (Nat.ltb_spec 4000 (String.length message)) as [Hlong|Hlong].
  { cbv zeta. simpl. split; [auto|]. split.
    { split; [congruence|].
      intros (_ & m & c & Hreq & _ & Hle). injection Hreq as <- <-. lia. }
    split; [intros; discriminate|]. split; [auto|]. split; [lia|].
    intros H. destruct (Hsame H). }
  set (fetched :=
         match conversationId with
         | Some (String c id) =>
             getConversationHistory (String c id) 6 table latency o st
         | _ => ([], st)
         end).
  assert (Hq : e_queries (snd fetched) <= S (e_queries st)).
  { unfold fetched. destruct conversationId as [[|c id]|]; simpl; try lia.
    apply getConversationHistory_queries. }
  assert (Hid : e_queries (snd fetched) <> e_queries st ->
                exists c id, conversationId = Some (String c id)).
  { unfold fetched. destruct conversationId as [[|c id]|]; simpl;
      try congruence; eauto. }
  destruct fetched as [history st1]. simpl in Hq, Hid.
  pose proof (getAIResponse_facts (trim message) history up st1) as Hai.
  destruct (getAIResponse cleanMarkdownFormatting (trim message) history up
              st1) as [[requested text] st2].
  destruct Hai as (-> & Hq2 & _ & _).
  destruct (context_shape (trim message) history) as (Hlast & Hlen).
  split; [auto|]. split.
  { split; [|discriminate]. intros _. split; [exact Hm|].
    exists message, conversationId. auto. }
  split.
  { intros m c r Hreq Hsent. injection Hreq as <- <-.
    injection Hsent as <-. simpl. repeat split; eauto. }
  split; [discriminate|]. split; [lia|].
  intros Hne. rewrite Hq2 in Hne. destruct (Hid Hne) as (c & id & ->).
  eauto.
Qed.

End EdgeHandler.

Section EdgeContext.
Import edge.
Context (cleanMarkdownFormatting : string -> string).

#[local] Instance created_at_ge_total : Total created_at_ge.
Proof. intros a b. unfold created_at_ge. lia. Qed.

#[local] Instance created_at_ge_trans : Transitive created_at_ge.
Proof. intros a b c. unfold created_at_ge. lia. Qed.

Lemma latest_messages_head (conversationId : string) (limit : nat)
    (table : list Message) (row : Message) :
  row ∈ table ->
  m_conversation_id row = conversationId ->
  (forall m, m ∈ table -> m_conversation_id m = conversationId -> m <> row ->
             (m_created_at m < m_created_at row)%N) ->
  0 < limit ->
  exists rest,
    latest_messages conversationId limit table = row :: rest /\
    length rest < limit.
Proof.
  intros Hin Hcid Hnewest Hlimit. unfold latest_messages.
  set (own := filter (fun m => m_conversation_id m = conversationId) table).
  assert (Hsorted : StronglySorted created_at_ge
                      (merge_sort created_at_ge own))
    by apply (StronglySorted_merge_sort _).
  assert (Hperm : merge_sort created_at_ge own ≡ₚ own)
    by apply merge_sort_Permutation.
  assert (Hrow : row ∈ merge_sort created_at_ge own).
  { rewrite Hperm. apply list_elem_of_filter. auto. }
  assert (Hown : forall m, m ∈ merge_sort created_at_ge own ->
                   m = row \/ (m_created_at m < m_created_at row)%N).
  { intros m Hm. rewrite Hperm in Hm.
    apply list_elem_of_filter in Hm as [Hc Hm].
    destruct (decide (m = row)); auto. }
  destruct (merge_sort created_at_ge own) as [|first sorted];
    [by apply elem_of_nil in Hrow|].
  assert (first = row) as ->.
  { apply elem_of_cons in Hrow as [->|Hrow]; [reflexivity|].
    apply StronglySorted_inv in Hsorted as [_ Hall].
    rewrite Forall_forall in Hall. specialize (Hall row Hrow).
    unfold created_at_ge in Hall.
    destruct (Hown first) as [->|Hlt]; [left|reflexivity|lia]. }
  destruct limit as [|limit]; [lia|].
  change (take (S limit) (row :: sorted)) with (row :: take limit sorted).
  eexists. split; [reflexivity|]. rewrite length_take. lia.
Qed.

(** X28.  A stored prompt reaches the provider twice.  The client stores
    the user's message before it calls the function; when that row is the
    newest of the conversation, the cache has no fresh history, and the
    data service answers, the history read by the function ends with that
    row, so the provider request ends with the same text twice, both as
    [user]: once from the history and once as the prompt.  (For a message
    of at most 500 characters without surrounding white space.) *)
Theorem stored_prompt_is_sent_twice (content conversationId : string)
    (table : list Message) (row : Message) (latency : N) (up : Upstream)
    (st : Server) :
  row ∈ table ->
  m_conversation_id row = conversationId ->
  m_role row = user ->
  m_content row = content ->
  (forall m, m ∈ table -> m_conversation_id m = conversationId -> m <> row ->
             (m_created_at m < m_created_at row)%N) ->
  conversationId <> EmptyString ->
  fresh_entry conversationId st = None ->
  trim content = content ->
  0 < String.length content <= 500 ->
  exists response before st',
    serve cleanMarkdownFormatting "POST"
      (Fields (JString content) (Some conversationId)) table latency Served
      up st
    = (response,
       Some (before ++ [mkChat "user" content; mkChat "user" content]),
       st') /\
    status response = 200%N /\
    length before <= 6.
Proof.
  intros Hin Hcid Hrole Hcontent Hnewest Hid Hmiss Htrim [Hpos Hshort].
  destruct (latest_messages_head conversationId 6 table row Hin Hcid
              Hnewest) as (rest & Hlatest & Hrest); [lia|].
  unfold serve. rewrite decide_False by discriminate.
  rewrite Htrim.
  destruct (Nat.eqb_spec (String.length content) 0) as [|_]; [lia|].
  destruct (Nat.ltb_spec 4000 (String.length content)) as [|_]; [lia|].
  destruct conversationId as [|c id]; [congruence|].
  unfold getConversationHistory. rewrite Hmiss, Hlatest.
  cbv zeta. simpl rev.
  set (st1 := mkServer _ _ _ _).
  pose proof (getAIResponse_facts cleanMarkdownFormatting content
                (rev rest ++ [row]) up st1) as Hai.
  destruct (getAIResponse cleanMarkdownFormatting content
              (rev rest ++ [row]) up st1) as [[requested text] st2].
  destruct Hai as (-> & _).
  eexists _, (mkChat "system" (system_prompt true)
              :: map history_entry (rev rest)), st2.
  split; [|split].
  - f_equal. f_equal. f_equal. unfold context.
    rewrite length_app, length_rev. simpl length.
    replace (length rest + 1 - 6) with 0 by lia.
    replace (0 <? length rest + 1) with true
      by (symmetry; apply Nat.ltb_lt; lia).
    rewrite drop_0, map_app. simpl.
    unfold history_entry at 2. rewrite Hrole, Hcontent.
    unfold truncate.
    replace (500 <? String.length content) with false
      by (symmetry; apply Nat.ltb_ge; lia).
    rewrite <- app_assoc. reflexivity.
  - reflexivity.
  - simpl. rewrite length_map, length_rev. lia.
Qed.

End EdgeContext.

Lemma stored_prompt_is_sent_twice_witness :
  edge.trim "in A" = "in A" /\
  edge.fresh_entry "A" (edge.mkServer 1000 [] 0 []) = None /\
  exists response before st',
    edge.serve (fun text => text) "POST" (edge.Fields (edge.JString "in A") (Some "A"))
      [messageA; messageB] 20 Served (edge.Choice (Some "ok"))
      (edge.mkServer 1000 [] 0 [])
    = (response,
       Some (before ++ [edge.mkChat "user" "in A"; edge.mkChat "user" "in A"]), st') /\
    edge.status response = 200%N /\
    length before <= 6.
Proof.
  split; [reflexivity|]. split; [reflexivity|].
  apply (stored_prompt_is_sent_twice (fun text => text) "in A" "A"
           [messageA; messageB] messageA 20 (edge.Choice (Some "ok"))
           (edge.mkServer 1000 [] 0 [])); try reflexivity.
  - left.
  - intros m Hm Hc Hne.
    apply elem_of_cons in Hm as [->|Hm]; [congruence|].
    apply list_elem_of_singleton in Hm as ->. discriminate Hc.
  - discriminate.
  - simpl. lia.
Defined.
